(** * avif-converter: a shallow embedding of [main.go]

    The program scans a directory for images, picks the files of one
    requested format and converts them to AVIF with a pool of workers that
    call the external [avifenc] encoder.  This file embeds the functions of
    [main.go] as Rocq functions over an explicit model of the filesystem and
    of the per-job environment (random bytes, clock, outcome of each system
    call), and proves properties of the scanner, the namer, the path
    uniquifier, the worker and the aggregator. *)

From Stdlib Require Import ZArith Ascii String List Lia Floats.
From stdpp Require Import base option list strings gmap.
From Equations Require Import Equations.

Local Open Scope Z_scope.
Local Open Scope string_scope.

(** ** The pieces of Go's standard library that [main.go] calls *)

(** Package [unicode/utf8]: the runes of a byte string.  A byte is a [Z]
    in [0, 255], a rune a [Z]. *)
Module utf8.

Definition RuneError : Z := 0xFFFD.
Definition MaxRune : Z := 0x10FFFF.

Definition is_cont (b : Z) : bool := ((0x80 <=? b) && (b <=? 0xBF))%Z.

(** The length a first byte announces ([first]); 0 for a byte that starts
    no rune. *)
Definition size_of (s0 : Z) : Z :=
  if (s0 <? 0x80)%Z then 1
  else if ((0xC2 <=? s0) && (s0 <=? 0xDF))%Z then 2
  else if ((0xE0 <=? s0) && (s0 <=? 0xEF))%Z then 3
  else if ((0xF0 <=? s0) && (s0 <=? 0xF4))%Z then 4
  else 0.

(** The second bytes a first byte accepts ([acceptRanges]). *)
Definition accepts (s0 s1 : Z) : bool :=
  if (s0 =? 0xE0)%Z then ((0xA0 <=? s1) && (s1 <=? 0xBF))%Z
  else if (s0 =? 0xED)%Z then ((0x80 <=? s1) && (s1 <=? 0x9F))%Z
  else if (s0 =? 0xF0)%Z then ((0x90 <=? s1) && (s1 <=? 0xBF))%Z
  else if (s0 =? 0xF4)%Z then ((0x80 <=? s1) && (s1 <=? 0x8F))%Z
  else is_cont s1.

(** [for _, c := range s]: [DecodeRuneInString] again and again; a byte
    that starts no well-formed rune gives [RuneError] and is one byte
    wide. *)
Fixpoint runes (s : list Z) : list Z :=
  match s with
  | [] => []
  | s0 :: t1 =>
      let bad := RuneError :: runes t1 in
      match size_of s0 with
      | 1 => s0 :: runes t1
      | 2 =>
          match t1 with
          | s1 :: t2 =>
              if accepts s0 s1
              then Z.lor (Z.shiftl (Z.land s0 0x1F) 6) (Z.land s1 0x3F)
                   :: runes t2
              else bad
          | _ => bad
          end
      | 3 =>
          match t1 with
          | s1 :: s2 :: t3 =>
              if accepts s0 s1 && is_cont s2
              then Z.lor (Z.shiftl (Z.land s0 0x0F) 12)
                     (Z.lor (Z.shiftl (Z.land s1 0x3F) 6) (Z.land s2 0x3F))
                   :: runes t3
              else bad
          | _ => bad
          end
      | 4 =>
          match t1 with
          | s1 :: s2 :: s3 :: t4 =>
              if accepts s0 s1 && is_cont s2 && is_cont s3
              then Z.lor (Z.shiftl (Z.land s0 0x07) 18)
                     (Z.lor (Z.shiftl (Z.land s1 0x3F) 12)
                        (Z.lor (Z.shiftl (Z.land s2 0x3F) 6) (Z.land s3 0x3F)))
                   :: runes t4
              else bad
          | _ => bad
          end
      | _ => bad
      end
  end.

(** [AppendRune]: a surrogate or a value past [MaxRune] is written as
    [RuneError]. *)
Definition AppendRune (r : Z) : list Z :=
  if (r <=? 0x7F)%Z then [r]
  else if (r <=? 0x7FF)%Z then
    [Z.lor 0xC0 (Z.shiftr r 6); Z.lor 0x80 (Z.land r 0x3F)]
  else
    let r := if ((MaxRune <? r) || ((0xD800 <=? r) && (r <=? 0xDFFF)))%Z
             then RuneError else r in
    if (r <=? 0xFFFF)%Z then
      [Z.lor 0xE0 (Z.shiftr r 12); Z.lor 0x80 (Z.land (Z.shiftr r 6) 0x3F);
       Z.lor 0x80 (Z.land r 0x3F)]
    else
      [Z.lor 0xF0 (Z.shiftr r 18); Z.lor 0x80 (Z.land (Z.shiftr r 12) 0x3F);
       Z.lor 0x80 (Z.land (Z.shiftr r 6) 0x3F); Z.lor 0x80 (Z.land r 0x3F)].

End utf8.

(** Package [unicode]: [ToLower].  Past ASCII the lower case of a rune is
    read from the case ranges of the Unicode Character Database (simple
    lower-case mappings, Unicode 15.0): in a range [(lo, hi, stride,
    delta)] every [stride]-th rune from [lo] to [hi] has its lower case
    [delta] further. *)
Module unicode.

Definition lower_ranges : list (Z * Z * Z * Z) :=
  [
    (0xC0, 0xD6, 1, 32); (0xD8, 0xDE, 1, 32); (0x100, 0x12E, 2, 1);
    (0x130, 0x130, 1, (-199)); (0x132, 0x136, 2, 1); (0x139, 0x147, 2, 1);
    (0x14A, 0x176, 2, 1); (0x178, 0x178, 1, (-121)); (0x179, 0x17D, 2, 1);
    (0x181, 0x181, 1, 210); (0x182, 0x184, 2, 1); (0x186, 0x186, 1, 206);
    (0x187, 0x187, 1, 1); (0x189, 0x18A, 1, 205); (0x18B, 0x18B, 1, 1);
    (0x18E, 0x18E, 1, 79); (0x18F, 0x18F, 1, 202); (0x190, 0x190, 1, 203);
    (0x191, 0x191, 1, 1); (0x193, 0x193, 1, 205); (0x194, 0x194, 1, 207);
    (0x196, 0x196, 1, 211); (0x197, 0x197, 1, 209); (0x198, 0x198, 1, 1);
    (0x19C, 0x19C, 1, 211); (0x19D, 0x19D, 1, 213); (0x19F, 0x19F, 1, 214);
    (0x1A0, 0x1A4, 2, 1); (0x1A6, 0x1A6, 1, 218); (0x1A7, 0x1A7, 1, 1);
    (0x1A9, 0x1A9, 1, 218); (0x1AC, 0x1AC, 1, 1); (0x1AE, 0x1AE, 1, 218);
    (0x1AF, 0x1AF, 1, 1); (0x1B1, 0x1B2, 1, 217); (0x1B3, 0x1B5, 2, 1);
    (0x1B7, 0x1B7, 1, 219); (0x1B8, 0x1B8, 1, 1); (0x1BC, 0x1BC, 1, 1);
    (0x1C4, 0x1C4, 1, 2); (0x1C5, 0x1C5, 1, 1); (0x1C7, 0x1C7, 1, 2);
    (0x1C8, 0x1C8, 1, 1); (0x1CA, 0x1CA, 1, 2); (0x1CB, 0x1DB, 2, 1);
    (0x1DE, 0x1EE, 2, 1); (0x1F1, 0x1F1, 1, 2); (0x1F2, 0x1F4, 2, 1);
    (0x1F6, 0x1F6, 1, (-97)); (0x1F7, 0x1F7, 1, (-56)); (0x1F8, 0x21E, 2, 1);
    (0x220, 0x220, 1, (-130)); (0x222, 0x232, 2, 1); (0x23A, 0x23A, 1, 10795);
    (0x23B, 0x23B, 1, 1); (0x23D, 0x23D, 1, (-163)); (0x23E, 0x23E, 1, 10792);
    (0x241, 0x241, 1, 1); (0x243, 0x243, 1, (-195)); (0x244, 0x244, 1, 69);
    (0x245, 0x245, 1, 71); (0x246, 0x24E, 2, 1); (0x370, 0x372, 2, 1);
    (0x376, 0x376, 1, 1); (0x37F, 0x37F, 1, 116); (0x386, 0x386, 1, 38);
    (0x388, 0x38A, 1, 37); (0x38C, 0x38C, 1, 64); (0x38E, 0x38F, 1, 63);
    (0x391, 0x3A1, 1, 32); (0x3A3, 0x3AB, 1, 32); (0x3CF, 0x3CF, 1, 8);
    (0x3D8, 0x3EE, 2, 1); (0x3F4, 0x3F4, 1, (-60)); (0x3F7, 0x3F7, 1, 1);
    (0x3F9, 0x3F9, 1, (-7)); (0x3FA, 0x3FA, 1, 1); (0x3FD, 0x3FF, 1, (-130));
    (0x400, 0x40F, 1, 80); (0x410, 0x42F, 1, 32); (0x460, 0x480, 2, 1);
    (0x48A, 0x4BE, 2, 1); (0x4C0, 0x4C0, 1, 15); (0x4C1, 0x4CD, 2, 1);
    (0x4D0, 0x52E, 2, 1); (0x531, 0x556, 1, 48); (0x10A0, 0x10C5, 1, 7264);
    (0x10C7, 0x10C7, 1, 7264); (0x10CD, 0x10CD, 1, 7264);
    (0x13A0, 0x13EF, 1, 38864); (0x13F0, 0x13F5, 1, 8);
    (0x1C90, 0x1CBA, 1, (-3008)); (0x1CBD, 0x1CBF, 1, (-3008));
    (0x1E00, 0x1E94, 2, 1); (0x1E9E, 0x1E9E, 1, (-7615));
    (0x1EA0, 0x1EFE, 2, 1); (0x1F08, 0x1F0F, 1, (-8));
    (0x1F18, 0x1F1D, 1, (-8)); (0x1F28, 0x1F2F, 1, (-8));
    (0x1F38, 0x1F3F, 1, (-8)); (0x1F48, 0x1F4D, 1, (-8));
    (0x1F59, 0x1F5F, 2, (-8)); (0x1F68, 0x1F6F, 1, (-8));
    (0x1F88, 0x1F8F, 1, (-8)); (0x1F98, 0x1F9F, 1, (-8));
    (0x1FA8, 0x1FAF, 1, (-8)); (0x1FB8, 0x1FB9, 1, (-8));
    (0x1FBA, 0x1FBB, 1, (-74)); (0x1FBC, 0x1FBC, 1, (-9));
    (0x1FC8, 0x1FCB, 1, (-86)); (0x1FCC, 0x1FCC, 1, (-9));
    (0x1FD8, 0x1FD9, 1, (-8)); (0x1FDA, 0x1FDB, 1, (-100));
    (0x1FE8, 0x1FE9, 1, (-8)); (0x1FEA, 0x1FEB, 1, (-112));
    (0x1FEC, 0x1FEC, 1, (-7)); (0x1FF8, 0x1FF9, 1, (-128));
    (0x1FFA, 0x1FFB, 1, (-126)); (0x1FFC, 0x1FFC, 1, (-9));
    (0x2126, 0x2126, 1, (-7517)); (0x212A, 0x212A, 1, (-8383));
    (0x212B, 0x212B, 1, (-8262)); (0x2132, 0x2132, 1, 28);
    (0x2160, 0x216F, 1, 16); (0x2183, 0x2183, 1, 1); (0x24B6, 0x24CF, 1, 26);
    (0x2C00, 0x2C2F, 1, 48); (0x2C60, 0x2C60, 1, 1);
    (0x2C62, 0x2C62, 1, (-10743)); (0x2C63, 0x2C63, 1, (-3814));
    (0x2C64, 0x2C64, 1, (-10727)); (0x2C67, 0x2C6B, 2, 1);
    (0x2C6D, 0x2C6D, 1, (-10780)); (0x2C6E, 0x2C6E, 1, (-10749));
    (0x2C6F, 0x2C6F, 1, (-10783)); (0x2C70, 0x2C70, 1, (-10782));
    (0x2C72, 0x2C72, 1, 1); (0x2C75, 0x2C75, 1, 1);
    (0x2C7E, 0x2C7F, 1, (-10815)); (0x2C80, 0x2CE2, 2, 1);
    (0x2CEB, 0x2CED, 2, 1); (0x2CF2, 0x2CF2, 1, 1); (0xA640, 0xA66C, 2, 1);
    (0xA680, 0xA69A, 2, 1); (0xA722, 0xA72E, 2, 1); (0xA732, 0xA76E, 2, 1);
    (0xA779, 0xA77B, 2, 1); (0xA77D, 0xA77D, 1, (-35332));
    (0xA77E, 0xA786, 2, 1); (0xA78B, 0xA78B, 1, 1);
    (0xA78D, 0xA78D, 1, (-42280)); (0xA790, 0xA792, 2, 1);
    (0xA796, 0xA7A8, 2, 1); (0xA7AA, 0xA7AA, 1, (-42308));
    (0xA7AB, 0xA7AB, 1, (-42319)); (0xA7AC, 0xA7AC, 1, (-42315));
    (0xA7AD, 0xA7AD, 1, (-42305)); (0xA7AE, 0xA7AE, 1, (-42308));
    (0xA7B0, 0xA7B0, 1, (-42258)); (0xA7B1, 0xA7B1, 1, (-42282));
    (0xA7B2, 0xA7B2, 1, (-42261)); (0xA7B3, 0xA7B3, 1, 928);
    (0xA7B4, 0xA7C2, 2, 1); (0xA7C4, 0xA7C4, 1, (-48));
    (0xA7C5, 0xA7C5, 1, (-42307)); (0xA7C6, 0xA7C6, 1, (-35384));
    (0xA7C7, 0xA7C9, 2, 1); (0xA7D0, 0xA7D0, 1, 1); (0xA7D6, 0xA7D8, 2, 1);
    (0xA7F5, 0xA7F5, 1, 1); (0xFF21, 0xFF3A, 1, 32);
    (0x10400, 0x10427, 1, 40); (0x104B0, 0x104D3, 1, 40);
    (0x10570, 0x1057A, 1, 39); (0x1057C, 0x1058A, 1, 39);
    (0x1058C, 0x10592, 1, 39); (0x10594, 0x10595, 1, 39);
    (0x10C80, 0x10CB2, 1, 64); (0x118A0, 0x118BF, 1, 32);
    (0x16E40, 0x16E5F, 1, 32); (0x1E900, 0x1E921, 1, 34)
  ]%Z.

Definition in_range (r : Z) (e : Z * Z * Z * Z) : bool :=
  let '(lo, hi, stride, _) := e in
  ((lo <=? r) && (r <=? hi) && ((r - lo) mod stride =? 0))%Z.

Definition ToLower (r : Z) : Z :=
  if (r <=? 0x7F)%Z then
    if ((0x41 <=? r) && (r <=? 0x5A))%Z then r + 32 else r
  else
    match List.find (in_range r) lower_ranges with
    | Some (_, _, _, delta) => r + delta
    | None => r
    end.

End unicode.

(** Package [strings], on byte strings. *)
Module strings.

Fixpoint HasPrefix (s p : string) : bool :=
  match p, s with
  | EmptyString, _ => true
  | String c p', String d s' => if Ascii.eqb c d then HasPrefix s' p' else false
  | String _ _, EmptyString => false
  end.

(** [TrimPrefix(s, p)]: [s] without the leading [p], or [s] itself. *)
Definition TrimPrefix (s p : string) : string :=
  if HasPrefix s p
  then String.substring (String.length p) (String.length s - String.length p) s
  else s.

Definition HasSuffix (s p : string) : bool :=
  HasPrefix (String.rev s) (String.rev p).

(** [TrimSuffix(s, p)]: [s] without the trailing [p], or [s] itself. *)
Definition TrimSuffix (s p : string) : string :=
  if HasSuffix s p
  then String.substring 0 (String.length s - String.length p) s
  else s.

(** The bytes of a string, and back. *)
Definition bytes (s : string) : list Z :=
  map (fun c => Z.of_N (N_of_ascii c)) (list_ascii_of_string s).

Definition of_bytes (l : list Z) : string :=
  string_of_list_ascii (map (fun b => ascii_of_N (Z.to_N b)) l).

(** [Map(mapping, s)]: the runes of [s], each replaced by its image and
    written out again. *)
Definition Map (mapping : Z -> Z) (s : string) : string :=
  of_bytes (concat (map (fun r => utf8.AppendRune (mapping r))
                      (utf8.runes (bytes s)))).

(** The lower case of an ASCII byte: ['A'..'Z'] go to ['a'..'z']. *)
Definition lower_byte (c : ascii) : ascii :=
  let n := N_of_ascii c in
  if ((65 <=? n) && (n <=? 90))%N then ascii_of_N (n + 32) else c.

Fixpoint lower_bytes (s : string) : string :=
  match s with
  | EmptyString => EmptyString
  | String c s' => String (lower_byte c) (lower_bytes s')
  end.

Fixpoint isASCII (s : string) : bool :=
  match s with
  | EmptyString => true
  | String c s' => (N_of_ascii c <? 128)%N && isASCII s'
  end.

(** [ToLower]: a string of ASCII bytes is lowered byte by byte; any other
    string rune by rune, with [unicode.ToLower]. *)
Definition ToLower (s : string) : string :=
  if isASCII s then lower_bytes s else Map unicode.ToLower s.

(** [Join(elems, sep)]. *)
Fixpoint Join (elems : list string) (sep : string) : string :=
  match elems with
  | [] => ""
  | [e] => e
  | e :: rest => e ++ sep ++ Join rest sep
  end.

End strings.

(** Package [path/filepath] on a Unix system (separator [/], no volume). *)
Module filepath.

Definition IsPathSeparator (c : ascii) : bool := Ascii.eqb c "/".

(** [Ext]: the loop runs from the last byte backwards, stops at a
    separator and returns the suffix that starts at the first dot met. *)
Fixpoint ext_scan (rev_path : list ascii) (acc : string) : string :=
  match rev_path with
  | [] => ""
  | c :: r =>
      if IsPathSeparator c then ""
      else if Ascii.eqb c "." then String "." acc
      else ext_scan r (String c acc)
  end.

Definition Ext (path : string) : string :=
  ext_scan (rev (list_ascii_of_string path)) "".

(** Path elements: the pieces between separators. *)
Fixpoint split_go (s : string) (cur : string) : list string :=
  match s with
  | EmptyString => [String.rev cur]
  | String c s' =>
      if IsPathSeparator c then String.rev cur :: split_go s' ""
      else split_go s' (String c cur)
  end.

Definition split (s : string) : list string := split_go s "".

(** [Clean], element by element.  [out] is the stack of elements kept so
    far, innermost first.  An empty element or [.] is dropped; [..]
    removes the last real element when there is one, is kept in front of
    a relative path when there is none, and is dropped at the root. *)
Definition clean_step (rooted : bool) (out : list string) (e : string)
  : list string :=
  if String.eqb e "" then out
  else if String.eqb e "." then out
  else if String.eqb e ".." then
    match out with
    | top :: below =>
        if String.eqb top ".." then e :: out else below
    | [] => if rooted then out else [e]
    end
  else e :: out.

Definition Clean (path : string) : string :=
  match path with
  | EmptyString => "."
  | String c _ =>
      let rooted := IsPathSeparator c in
      let out := rev (fold_left (clean_step rooted) (split path) []) in
      if rooted then "/" ++ strings.Join out "/"
      else match out with
           | [] => "."
           | _ => strings.Join out "/"
           end
  end.

(** [Join] of two elements: empty elements are ignored, the rest is
    joined with the separator and cleaned. *)
Definition Join (a b : string) : string :=
  if negb (String.eqb a "") then Clean (a ++ "/" ++ b)
  else if negb (String.eqb b "") then Clean b
  else "".

(** Strip the trailing separators (on the reversed path). *)
Fixpoint drop_seps (rev_path : list ascii) : list ascii :=
  match rev_path with
  | c :: r => if IsPathSeparator c then drop_seps r else rev_path
  | [] => []
  end.

Fixpoint take_elem (rev_path : list ascii) : list ascii :=
  match rev_path with
  | c :: r => if IsPathSeparator c then [] else c :: take_elem r
  | [] => []
  end.

Fixpoint drop_elem (rev_path : list ascii) : list ascii :=
  match rev_path with
  | c :: r => if IsPathSeparator c then rev_path else drop_elem r
  | [] => []
  end.

(** [Base]: the last element; [.] for the empty path, [/] for a path of
    separators only. *)
Definition Base (path : string) : string :=
  match path with
  | EmptyString => "."
  | _ =>
      let stripped := drop_seps (rev (list_ascii_of_string path)) in
      match rev (take_elem stripped) with
      | [] => "/"
      | elem => string_of_list_ascii elem
      end
  end.

(** [Dir]: everything up to and including the last separator, cleaned. *)
Definition Dir (path : string) : string :=
  Clean (string_of_list_ascii
           (rev (drop_elem (rev (list_ascii_of_string path))))).

End filepath.


(** Package [fmt]: the verbs [%d] and [%x] on integers.  As [fmtInteger]
    does, the digits are produced from the least significant one while the
    rest is not smaller than the base; an [int64] has at most 64 digits. *)
Module fmt.

Definition digits : string := "0123456789abcdef".

Definition digit (d : Z) : ascii :=
  match String.get (Z.to_nat d) digits with
  | Some c => c
  | None => "0"%char
  end.

Fixpoint fmt_unsigned (fuel : nat) (base u : Z) (acc : string) : string :=
  match fuel with
  | O => acc
  | S fuel' =>
      if (base <=? u)%Z
      then fmt_unsigned fuel' base (u / base) (String (digit (u mod base)) acc)
      else String (digit u) acc
  end.

Definition fmtInteger (base v : Z) : string :=
  if (v <? 0)%Z then "-" ++ fmt_unsigned 64 base (- v) ""
  else fmt_unsigned 64 base v "".

Definition d (v : Z) : string := fmtInteger 10 v.
Definition x (v : Z) : string := fmtInteger 16 v.

End fmt.

(** Package [encoding/hex]: two digits of [hextable] per byte. *)
Module hex.

Definition EncodeByte (b : Byte.byte) : string :=
  let v := Z.of_N (Byte.to_N b) in
  String (fmt.digit (Z.shiftr v 4)) (String (fmt.digit (Z.land v 15)) "").

Fixpoint EncodeToString (src : list Byte.byte) : string :=
  match src with
  | [] => ""
  | b :: rest => EncodeByte b ++ EncodeToString rest
  end.

End hex.

(** Package [time]: of a [time.Time] the program reads only the civil date
    of the instant in the local zone, through [Format("20060102")]. *)
Module time.

Record Time := { Year : Z; Month : Z; Day : Z }.

Fixpoint zeros (n : nat) : string :=
  match n with
  | O => ""
  | S n' => String "0" (zeros n')
  end.

(** [appendInt]: sign, then the decimal digits padded with zeros to
    [width]. *)
Definition appendInt (v : Z) (width : nat) : string :=
  let u := Z.abs v in
  let ds := fmt.fmt_unsigned 64 10 u "" in
  let pad := zeros (width - String.length ds) in
  (if (v <? 0)%Z then "-" else "") ++ pad ++ ds.

(** [t.Format("20060102")]: long year, zero-padded month and day. *)
Definition Format_20060102 (t : Time) : string :=
  appendInt (Year t) 4 ++ appendInt (Month t) 2 ++ appendInt (Day t) 2.

End time.


(** ** Data model of [main.go] *)

(** A Go [error]: [None] is [nil], [Some msg] carries the message. *)
Definition error := option string.

Record FileInfo := {
  Path : string;
  ModTime : time.Time;
  Ext : string;        (* normalized ext, e.g. "jpg", "png" *)
  Size : Z
}.

Record ConvertResult := {
  Src : string;
  Dst : string;
  OrigBytes : Z;
  ConvBytes : Z;
  Err : error
}.

(** ** The filesystem

    A filesystem maps a path to what is stored there: a regular file or a
    directory, with the size [Stat] reports for it.  Paths are compared as
    strings: two spellings of one path are two keys. *)
Record node := {
  IsDir : bool;
  StSize : Z
}.

Definition RegularFile (size : Z) : node := {| IsDir := false; StSize := size |}.
Definition Directory : node := {| IsDir := true; StSize := 0 |}.

(** The path without its last element and the separators before it, as
    [MkdirAll] computes its parent. *)
Definition parent_of (path : string) : string :=
  string_of_list_ascii
    (rev (filepath.drop_seps
            (filepath.drop_elem
               (filepath.drop_seps (rev (list_ascii_of_string path)))))).

Module os.

Abbreviation filesystem := (gmap string node).

Inductive PathError :=
| ErrNotExist (op path : string)
| ErrExist (op path : string)
| ErrNotDir (op path : string)
| ErrNameTooLong (op path : string)
| ErrFault (msg : string).

Definition Error (e : PathError) : string :=
  match e with
  | ErrNotExist op path => op ++ " " ++ path ++ ": no such file or directory"
  | ErrExist op path => op ++ " " ++ path ++ ": file exists"
  | ErrNotDir op path => op ++ " " ++ path ++ ": not a directory"
  | ErrNameTooLong op path => op ++ " " ++ path ++ ": file name too long"
  | ErrFault msg => msg
  end.

(** The error half of a call that returns a value or an error. *)
Definition err_of {A} (r : A + PathError) : option PathError :=
  match r with
  | inl _ => None
  | inr e => Some e
  end.

Definition IsNotExist (e : option PathError) : bool :=
  match e with
  | Some (ErrNotExist _ _) => true
  | _ => false
  end.

(** A name no lookup accepts: an element longer than [NAME_MAX] = 255
    bytes, or a path of [PATH_MAX] = 4096 bytes or more. *)
Definition too_long (name : string) : bool :=
  (4096 <=? String.length name)%nat
  || existsb (fun e => (255 <? String.length e)%nat) (filepath.split name).

(** The directories a lookup of [path] walks through, nearest first. *)
Fixpoint ancestors (fuel : nat) (path : string) : list string :=
  match fuel with
  | O => []
  | S fuel' =>
      let parent := parent_of path in
      if String.eqb parent "" then [] else parent :: ancestors fuel' parent
  end.

(** The lookup of [name] meets something that is not a directory on its
    way. *)
Definition through_a_file (fs : filesystem) (name : string) : bool :=
  existsb (fun p => match fs !! p with
                    | Some n => negb (IsDir n)
                    | None => false
                    end)
    (ancestors (String.length name) name).

(** [Stat]: the entry at [name].  When there is none the error says why:
    the name is too long, the way to it leads through a file, or nothing
    exists there.  Only the last is a not-exist error. *)
Definition Stat (fs : filesystem) (name : string) : node + PathError :=
  match fs !! name with
  | Some n => inl n
  | None =>
      if too_long name then inr (ErrNameTooLong "stat" name)
      else if through_a_file fs name then inr (ErrNotDir "stat" name)
      else inr (ErrNotExist "stat" name)
  end.

(** [Remove]: the entry at [name] is deleted; removing a missing entry
    is an error and changes nothing. *)
Definition Remove (fs : filesystem) (name : string)
  : filesystem * option PathError :=
  match fs !! name with
  | Some _ => (delete name fs, None)
  | None => (fs, Some (ErrNotExist "remove" name))
  end.

End os.

(** ** What the environment decides

    The random bytes, the clock and the outcome of the system calls whose
    error the program inspects are inputs of the model.  Everything else
    follows from the filesystem state. *)

(** The two entropy sources of the namer: [rand.Read] on a 3-byte slice
    (the bytes, or the error) and [time.Now().UnixNano()]. *)
Record Entropy := {
  rand_Read : (Byte.byte * Byte.byte * Byte.byte) + string;
  UnixNano : Z
}.

(** One run of [avifenc]: exit status zero with the size of the file it
    wrote, or a failure with the error, the combined output and whatever
    size it left at the destination. *)
Inductive EncoderRun :=
| EncoderOk (size : Z)
| EncoderFailed (err output : string) (written : Z).

Record JobEnv := {
  entropy : Entropy;
  TempRandom : Z;                       (* the number [CreateTemp] draws *)
  CreateTemp_fault : option string;
  avifenc : EncoderRun;
  Rename_fault : option string;
  Open_fault : option string;           (* [os.Open] in [copyFile] *)
  Create_fault : option string;         (* [os.Create] in [copyFile] *)
  Copy_fault : option (string * Z);     (* [io.Copy]: error, bytes written *)
  Remove_fault : option string;         (* [os.Remove] of the temporary file *)
  Stat_fault : option string;           (* the last [os.Stat] of a job *)
  Lookup_fault : string -> option string
                                        (* [os.Stat] in [ensureUniquePath],
                                           by path *)
}.

(** System calls that can fail for reasons outside the model. *)
Module sys.

(** [prefixAndSuffix]: the pattern is split at its last [*]. *)
Fixpoint until_star (rev_pattern : list ascii) (acc : list ascii)
  : option (list ascii * list ascii) :=
  match rev_pattern with
  | [] => None
  | c :: r =>
      if Ascii.eqb c "*" then Some (rev r, acc) else until_star r (c :: acc)
  end.

Definition prefixAndSuffix (pattern : string) : string * string :=
  match until_star (rev (list_ascii_of_string pattern)) [] with
  | Some (p, s) => (string_of_list_ascii p, string_of_list_ascii s)
  | None => (pattern, "")
  end.

(** [os.CreateTemp(dir, pattern)]: a new empty file whose name is the
    pattern with the star replaced by a random number.  The number given
    is the one of the attempt that ends [CreateTemp]'s retry loop: a name
    that is taken is an error. *)
Definition CreateTemp (fault : option string) (random : Z)
    (fs : os.filesystem) (dir pattern : string)
  : os.filesystem * string * option os.PathError :=
  match fault with
  | Some msg => (fs, "", Some (os.ErrFault msg))
  | None =>
      let '(prefix, suffix) := prefixAndSuffix pattern in
      let name := filepath.Join dir (prefix ++ fmt.d random ++ suffix) in
      match fs !! name with
      | Some _ => (fs, "", Some (os.ErrExist "open" name))
      | None => (<[name := RegularFile 0]> fs, name, None)
      end
  end.

(** [exec.Command("avifenc", ..., src, dst).CombinedOutput()]. *)
Definition run_avifenc (run : EncoderRun) (fs : os.filesystem)
    (src dst : string) : os.filesystem * string * error :=
  match run with
  | EncoderOk size => (<[dst := RegularFile size]> fs, "", None)
  | EncoderFailed err output written =>
      (<[dst := RegularFile written]> fs, output, Some err)
  end.

(** [os.Rename]: the entry moves from [oldpath] to [newpath]. *)
Definition Rename (fault : option string) (fs : os.filesystem)
    (oldpath newpath : string) : os.filesystem * option os.PathError :=
  match fault with
  | Some msg => (fs, Some (os.ErrFault msg))
  | None =>
      match fs !! oldpath with
      | Some n => (<[newpath := n]> (delete oldpath fs), None)
      | None => (fs, Some (os.ErrNotExist "rename" oldpath))
      end
  end.

(** [os.Remove] with an injected failure: the entry stays. *)
Definition Remove (fault : option string) (fs : os.filesystem) (name : string)
  : os.filesystem * option os.PathError :=
  match fault with
  | Some msg => (fs, Some (os.ErrFault msg))
  | None => os.Remove fs name
  end.

(** [os.Stat] and [os.Open] with an injected failure. *)
Definition Stat (fault : option string) (fs : os.filesystem) (name : string)
  : node + os.PathError :=
  match fault with
  | Some msg => inr (os.ErrFault msg)
  | None => os.Stat fs name
  end.

Definition Open (fault : option string) (fs : os.filesystem) (name : string)
  : node + os.PathError :=
  match fault with
  | Some msg => inr (os.ErrFault msg)
  | None =>
      match fs !! name with
      | Some n => inl n
      | None => inr (os.ErrNotExist "open" name)
      end
  end.

End sys.

Definition verr (e : os.PathError) : string := os.Error e.

(** ** The functions of [main.go] *)

(** The token [rnd] of [makeOutputFilename]: the hex encoding of three
    random bytes, or the fallback on the clock. *)
Definition rnd (en : Entropy) : string :=
  (* random 3 bytes -> 6 hex chars *)
  match rand_Read en with
  | inl (b0, b1, b2) => hex.EncodeToString [b0; b1; b2]
  | inr _ => (* fallback *) fmt.x (Z.land (UnixNano en) 0xfffffff)
  end.

(** makeOutputFilename builds filename for output. If keepName is true,
    preserve base name but change ext.
    Otherwise: [prefix_]?YYYYMMDD_hex.avif (hex is short random 6 hex chars) *)
Definition makeOutputFilename (en : Entropy) (f : FileInfo) (prefix : string)
    (keepName : bool) : string :=
  if keepName then
    let base := filepath.Base (Path f) in
    let nameNoExt := strings.TrimSuffix base (filepath.Ext base) in
    if negb (String.eqb prefix "")
    then prefix ++ "_" ++ nameNoExt ++ ".avif"
    else nameNoExt ++ ".avif"
  else
    let rnd := rnd en in
    let dateStr := time.Format_20060102 (ModTime f) in
    if negb (String.eqb prefix "")
    then prefix ++ "_" ++ dateStr ++ "_" ++ rnd ++ ".avif"
    else dateStr ++ "_" ++ rnd ++ ".avif".

(** The candidate tried at step [i] of [ensureUniquePath]. *)
Definition candidate (path : string) (i : Z) : string :=
  let dir := filepath.Dir path in
  let base := filepath.Base path in
  let ext := filepath.Ext base in
  let name := strings.TrimSuffix base ext in
  filepath.Join dir (name ++ "-" ++ fmt.d i ++ ext).

(** The test [_, err := os.Stat(p); os.IsNotExist(err)] of
    [ensureUniquePath]; [fault] tells at which paths [Stat] fails for a
    reason outside the model. *)
Definition not_exist (fault : string -> option string) (fs : os.filesystem)
    (p : string) : bool :=
  os.IsNotExist (os.err_of (sys.Stat (fault p) fs p)).

(** The loop [for i := 1; i < 1000; i++] of [ensureUniquePath]; [None]
    when the loop ends without a free candidate. *)
Fixpoint unique_search (fault : string -> option string)
    (fs : os.filesystem) (path : string) (fuel : nat) (i : Z)
  : option string :=
  match fuel with
  | O => None
  | S fuel' =>
      if (i <? 1000)%Z then
        if not_exist fault fs (candidate path i)
        then Some (candidate path i)
        else unique_search fault fs path fuel' (i + 1)
      else None
  end.

(** ensureUniquePath returns a path that does not yet exist by appending
    -1, -2, ... if necessary. *)
Definition ensureUniquePath (fault : string -> option string)
    (fs : os.filesystem) (path : string) : string * error :=
  if not_exist fault fs path then (path, None)
  else
    match unique_search fault fs path 1000 1 with
    | Some c => (c, None)
    | None => ("", Some ("could not find unique name for " ++ path))
    end.

(** copyFile copies src->dst (simple, does not preserve all metadata) *)
Definition copyFile (env : JobEnv) (fs : os.filesystem) (src dst : string)
  : os.filesystem * error :=
  match sys.Open (Open_fault env) fs src with
  | inr e => (fs, Some (verr e))
  | inl _ =>
      match Create_fault env with
      | Some msg => (fs, Some msg)
      | None =>
          (* [os.Create] truncates or creates the destination *)
          let fs1 := <[dst := RegularFile 0]> fs in
          match Copy_fault env with
          | Some (msg, written) =>
              (<[dst := RegularFile written]> fs1, Some msg)
          | None =>
              match fs1 !! src with
              | Some n =>
                  if IsDir n
                  then (fs1, Some ("read " ++ src ++ ": is a directory"))
                  else (<[dst := RegularFile (StSize n)]> fs1, None)
              | None => (fs1, Some ("read " ++ src ++ ": file already closed"))
              end
          end
      end
  end.

(** The state the workers share: the filesystem and the [results]
    channel, whose content is the list of the results sent so far. *)
Record World := {
  fs : os.filesystem;
  results : list ConvertResult
}.

Definition send (res : ConvertResult) (fs' : os.filesystem) (w : World)
  : World :=
  {| fs := fs'; results := results w ++ [res] |}.

Definition with_Err (res : ConvertResult) (e : string) : ConvertResult :=
  {| Src := Src res; Dst := Dst res; OrigBytes := OrigBytes res;
     ConvBytes := ConvBytes res; Err := Some e |}.

Definition with_Dst (res : ConvertResult) (p : string) : ConvertResult :=
  {| Src := Src res; Dst := p; OrigBytes := OrigBytes res;
     ConvBytes := ConvBytes res; Err := Err res |}.

Definition with_ConvBytes (res : ConvertResult) (n : Z) : ConvertResult :=
  {| Src := Src res; Dst := Dst res; OrigBytes := OrigBytes res;
     ConvBytes := n; Err := Err res |}.

Definition clear_Err (res : ConvertResult) : ConvertResult :=
  {| Src := Src res; Dst := Dst res; OrigBytes := OrigBytes res;
     ConvBytes := ConvBytes res; Err := None |}.

(** The closure [removeTmp] over [tmpPath] and the flag [tmpRemoved]; the
    error of [os.Remove] is dropped. *)
Definition removeTmp (fault : option string) (tmpPath : string)
    (st : os.filesystem * bool) : os.filesystem * bool :=
  let '(fs0, tmpRemoved) := st in
  if negb tmpRemoved then (fst (sys.Remove fault fs0 tmpPath), true) else st.

(** The end of a job whose output is in place: [stat converted], then
    the result is sent. *)
Definition stat_converted (env : JobEnv) (res : ConvertResult)
    (uniquePath : string) (fs5 : os.filesystem) (w : World) : World :=
  match sys.Stat (Stat_fault env) fs5 uniquePath with
  | inl st => send (clear_Err (with_ConvBytes res (StSize st))) fs5 w
  | inr err => send (with_Err res ("stat output failed: " ++ verr err)) fs5 w
  end.

(** The body of the loop [for fi := range jobs] of [worker]. *)
Definition worker_job (outDir prefix : string) (keepName : bool)
    (env : JobEnv) (fi : FileInfo) (w : World) : World :=
  let res := {| Src := Path fi; Dst := ""; OrigBytes := Size fi;
                ConvBytes := 0; Err := None |} in
  let outName := makeOutputFilename (entropy env) fi prefix keepName in
  let outPath := filepath.Join outDir outName in
  (* ensure unique path (avoid overwrite) *)
  match ensureUniquePath (Lookup_fault env) (fs w) outPath with
  | (_, Some err) =>
      send (with_Err res ("unique output path fail: " ++ err)) (fs w) w
  | (uniquePath, None) =>
      let res := with_Dst res uniquePath in
      (* create temp file in same directory as final output *)
      match sys.CreateTemp (CreateTemp_fault env) (TempRandom env) (fs w)
              (filepath.Dir uniquePath) "avif_tmp_*.avif" with
      | (_, _, Some err) =>
          send (with_Err res ("create temp file: " ++ verr err)) (fs w) w
      | (fs1, tmpPath, None) =>
          let tmpRemoved := false in
          (* run avifenc *)
          match sys.run_avifenc (avifenc env) fs1 (Path fi) tmpPath with
          | (fs2, out, Some err) =>
              let '(fs3, _) :=
                removeTmp (Remove_fault env) tmpPath (fs2, tmpRemoved) in
              send (with_Err res ("avifenc failed: " ++ err
                                  ++ "; output: " ++ out)) fs3 w
          | (fs2, _, None) =>
              (* try rename; fallback to copy if cross-device *)
              match sys.Rename (Rename_fault env) fs2 tmpPath uniquePath with
              | (_, Some err) =>
                  match copyFile env fs2 tmpPath uniquePath with
                  | (fs3, Some cerr) =>
                      let '(fs4, _) :=
                        removeTmp (Remove_fault env) tmpPath
                          (fs3, tmpRemoved) in
                      send (with_Err res
                              ("save output failed: rename: " ++ verr err
                               ++ ", copy: " ++ cerr)) fs4 w
                  | (fs3, None) =>
                      (* copy succeeded, remove tmp; tmpRemoved = true *)
                      stat_converted env res uniquePath
                        (fst (sys.Remove (Remove_fault env) fs3 tmpPath)) w
                  end
              | (fs3, None) =>
                  (* rename succeeded: tmp no longer exists;
                     tmpRemoved = true *)
                  stat_converted env res uniquePath fs3 w
              end
          end
      end
  end.

(** [worker]: the loop over the jobs this worker receives from the queue,
    each with the environment it meets. *)
Definition worker (outDir prefix : string) (keepName : bool)
    (jobs : list (JobEnv * FileInfo)) (w : World) : World :=
  fold_left (fun w' j => worker_job outDir prefix keepName j.1 j.2 w') jobs w.

(** ** The job, one system call at a time

    In the pool the workers run side by side, so between two system calls
    of one job the other jobs may change the filesystem.  For that the
    body of the worker loop is written once more as a process: a result
    that is ready to be sent, or a system call, which changes the
    filesystem and tells how the job goes on. *)
#[warnings="-register-all"]
Inductive Proc :=
| Send (res : ConvertResult)
| Sys (call : os.filesystem -> os.filesystem * Proc).

(** A process that runs with no other process in between. *)
Fixpoint run_alone (p : Proc) (fs0 : os.filesystem)
  : os.filesystem * ConvertResult :=
  match p with
  | Send res => (fs0, res)
  | Sys call => let '(fs1, next) := call fs0 in run_alone next fs1
  end.

(** [ensureUniquePath], one [os.Stat] per step. *)
Fixpoint unique_loop (fault : string -> option string) (path : string)
    (fuel : nat) (i : Z) (k : string * error -> Proc) : Proc :=
  match fuel with
  | O => k ("", Some ("could not find unique name for " ++ path))
  | S fuel' =>
      if (i <? 1000)%Z then
        Sys (fun fs0 =>
               (fs0, if not_exist fault fs0 (candidate path i)
                     then k (candidate path i, None)
                     else unique_loop fault path fuel' (i + 1) k))
      else k ("", Some ("could not find unique name for " ++ path))
  end.

Definition ensureUniquePath_proc (fault : string -> option string)
    (path : string) (k : string * error -> Proc) : Proc :=
  Sys (fun fs0 =>
         (fs0, if not_exist fault fs0 path then k (path, None)
               else unique_loop fault path 1000 1 k)).

(** [copyFile]: [os.Open], [os.Create], [io.Copy]. *)
Definition copyFile_proc (env : JobEnv) (src dst : string)
    (k : error -> Proc) : Proc :=
  Sys (fun fs0 =>
    match sys.Open (Open_fault env) fs0 src with
    | inr e => (fs0, k (Some (verr e)))
    | inl _ =>
        (fs0,
         Sys (fun fs0 =>
           match Create_fault env with
           | Some msg => (fs0, k (Some msg))
           | None =>
               (<[dst := RegularFile 0]> fs0,
                Sys (fun fs1 =>
                  match Copy_fault env with
                  | Some (msg, written) =>
                      (<[dst := RegularFile written]> fs1, k (Some msg))
                  | None =>
                      match fs1 !! src with
                      | Some n =>
                          if IsDir n
                          then (fs1, k (Some ("read " ++ src
                                              ++ ": is a directory")))
                          else (<[dst := RegularFile (StSize n)]> fs1, k None)
                      | None =>
                          (fs1, k (Some ("read " ++ src
                                         ++ ": file already closed")))
                      end
                  end))
           end))
    end).

(** [stat converted], then the result. *)
Definition stat_proc (env : JobEnv) (res : ConvertResult)
    (uniquePath : string) : Proc :=
  Sys (fun fs5 =>
    (fs5,
     match sys.Stat (Stat_fault env) fs5 uniquePath with
     | inl st => Send (clear_Err (with_ConvBytes res (StSize st)))
     | inr err => Send (with_Err res ("stat output failed: " ++ verr err))
     end)).

(** The body of the loop [for fi := range jobs] of [worker], call by
    call. *)
Definition job_proc (outDir prefix : string) (keepName : bool)
    (env : JobEnv) (fi : FileInfo) : Proc :=
  let res := {| Src := Path fi; Dst := ""; OrigBytes := Size fi;
                ConvBytes := 0; Err := None |} in
  let outName := makeOutputFilename (entropy env) fi prefix keepName in
  let outPath := filepath.Join outDir outName in
  ensureUniquePath_proc (Lookup_fault env) outPath (fun unique =>
    match unique with
    | (_, Some err) =>
        Send (with_Err res ("unique output path fail: " ++ err))
    | (uniquePath, None) =>
        let res := with_Dst res uniquePath in
        Sys (fun fs0 =>
          match sys.CreateTemp (CreateTemp_fault env) (TempRandom env) fs0
                  (filepath.Dir uniquePath) "avif_tmp_*.avif" with
          | (_, _, Some err) =>
              (fs0, Send (with_Err res ("create temp file: " ++ verr err)))
          | (fs1, tmpPath, None) =>
              (fs1,
               Sys (fun fs1 =>
                 match sys.run_avifenc (avifenc env) fs1 (Path fi) tmpPath with
                 | (fs2, out, Some err) =>
                     (fs2,
                      Sys (fun fs2 =>
                        (fst (removeTmp (Remove_fault env) tmpPath
                                (fs2, false)),
                         Send (with_Err res ("avifenc failed: " ++ err
                                             ++ "; output: " ++ out)))))
                 | (fs2, _, None) =>
                     (fs2,
                      Sys (fun fs2 =>
                        match sys.Rename (Rename_fault env) fs2 tmpPath
                                uniquePath with
                        | (_, Some err) =>
                            (fs2,
                             copyFile_proc env tmpPath uniquePath (fun cerr =>
                               match cerr with
                               | Some cerr =>
                                   Sys (fun fs3 =>
                                     (fst (removeTmp (Remove_fault env)
                                             tmpPath (fs3, false)),
                                      Send (with_Err res
                                              ("save output failed: rename: "
                                               ++ verr err ++ ", copy: "
                                               ++ cerr))))
                               | None =>
                                   Sys (fun fs3 =>
                                     (fst (sys.Remove (Remove_fault env) fs3
                                             tmpPath),
                                      stat_proc env res uniquePath))
                               end))
                        | (fs3, None) => (fs3, stat_proc env res uniquePath)
                        end))
                 end))
          end)
    end).

(** ** Scanning *)

(** Go's [int] and [int64] are 64 bits wide; additions wrap around. *)
Definition int64 (z : Z) : Z := (z + 2 ^ 63) mod 2 ^ 64 - 2 ^ 63.

(** What [filepath.WalkDir] hands to its callback for one entry: the path,
    the error met on the way to it, whether it is a directory, and what
    [d.Info()] returns (modification time and size, or an error). *)
Record WalkEntry := {
  w_path : string;
  walkErr : option string;
  d_IsDir : bool;
  d_Info : (time.Time * Z) + string
}.

Definition extAllowed : gmap string bool :=
  list_to_map [("jpg", true); ("jpeg", true); ("png", true); ("bmp", true);
               ("tiff", true); ("webp", true); ("heic", true)].

(** Reading a Go map: a missing key gives the zero value. *)
Definition bool_at (m : gmap string bool) (k : string) : bool :=
  default false (m !! k).

Definition int_at (m : gmap string Z) (k : string) : Z :=
  default 0 (m !! k).

(** The extension the scanner computes for a path, before the allow-set
    test. *)
Definition scan_ext (path : string) : string :=
  strings.ToLower (strings.TrimPrefix (filepath.Ext path) ".").

(** The callback of [scanDirectory]; it always returns [nil]. *)
Definition walkFn (st : list FileInfo * gmap string Z) (e : WalkEntry)
  : (list FileInfo * gmap string Z) * error :=
  let '(out, counts) := st in
  match walkErr e with
  | Some _ =>
      (* don't panic; skip and log *)
      (st, None)
  | None =>
      if d_IsDir e then (st, None)
      else
        let ext := scan_ext (w_path e) in
        if String.eqb ext "" then (st, None)
        else if negb (bool_at extAllowed ext) then (st, None)
        else
          (* normalize jpeg -> jpg *)
          let ext := if String.eqb ext "jpeg" then "jpg" else ext in
          match d_Info e with
          | inr _ => (st, None)
          | inl (mtime, size) =>
              let fi := {| Path := w_path e; ModTime := mtime;
                           Ext := ext; Size := size |} in
              (((out ++ [fi])%list, <[ext := int64 (int_at counts ext + 1)]> counts),
               None)
          end
  end.

(** [filepath.WalkDir]: the callback is run on every entry in turn, and
    the first error it returns ends the walk. *)
Fixpoint WalkDir {S : Type} (entries : list WalkEntry)
    (fn : S -> WalkEntry -> S * error) (st : S) : S * error :=
  match entries with
  | [] => (st, None)
  | e :: rest =>
      match fn st e with
      | (st', None) => WalkDir rest fn st'
      | (st', Some err) => (st', Some err)
      end
  end.

(** scanDirectory walks the inputDir and returns files and a map of counts
    by extension (normalized).  Note: this function treats "jpeg" as
    "jpg". *)
Definition scanDirectory (walk : list WalkEntry)
  : list FileInfo * gmap string Z * error :=
  let '((out, counts), err) := WalkDir walk walkFn ([], ∅) in
  (out, counts, err).

(** ** Aggregating *)

Definition float64 (z : Z) : float :=
  SF2Prim (binary_normalize prec emax z 0 false).

Definition reductionPercent (orig conv : Z) : float :=
  if (orig =? 0)%Z then 0%float
  else ((1 - float64 conv / float64 orig) * 100)%float.

Record Tally := {
  success : Z;
  fail : Z;
  totalOrig : Z;
  totalConv : Z
}.

(** The body of the loop [for r := range results] of [main]. *)
Definition collect_step (t : Tally) (r : ConvertResult) : Tally :=
  match Err r with
  | Some _ =>
      {| success := success t; fail := int64 (fail t + 1);
         totalOrig := totalOrig t; totalConv := totalConv t |}
  | None =>
      {| success := int64 (success t + 1); fail := fail t;
         totalOrig := int64 (totalOrig t + OrigBytes r);
         totalConv := int64 (totalConv t + ConvBytes r) |}
  end.

Definition collect (rs : list ConvertResult) : Tally :=
  fold_left collect_step rs
    {| success := 0; fail := 0; totalOrig := 0; totalConv := 0 |}.

(** The percentage of the summary line, printed when there is a success
    and a positive total. *)
Definition summary_percent (t : Tally) : option float :=
  if ((0 <? success t) && (0 <? totalOrig t))%Z
  then Some (reductionPercent (totalOrig t) (totalConv t))
  else None.

(** ** The pool *)

(** The loop [for i := 0; i < numWorkers; i++] that starts the workers;
    the result lists the workers started.  The loop ends because of its
    guard: what is left to count, [numWorkers - i], gets smaller. *)
Equations start_loop (i numWorkers : Z) : list Z
  by wf (Z.to_nat (numWorkers - i)) lt :=
start_loop i numWorkers :=
  if Z_lt_dec i numWorkers then i :: start_loop (i + 1) numWorkers else [].
Next Obligation. lia. Qed.

Definition start_workers (workers : Z) : list Z :=
  let numWorkers := if (workers <=? 0)%Z then 1 else workers in
  start_loop 0 numWorkers.

(** The pool: the jobs still in [jobCh], the workers that have not
    returned, each between two jobs ([None]) or in a job (the file and
    what is left of its process), the filesystem they share and the
    results sent so far. *)
Record Pool := {
  jobCh : list (JobEnv * FileInfo);
  running : list (option (FileInfo * Proc));
  shared : os.filesystem;
  resultsCh : list ConvertResult
}.

(** One step of worker [k]: between two jobs it takes the next job, or
    returns when [jobCh] is closed and empty; in a job it makes the next
    system call, or sends the result. *)
Definition pool_step (outDir prefix : string) (keepName : bool) (k : nat)
    (p : Pool) : Pool :=
  match running p !! k with
  | None => p
  | Some None =>
      match jobCh p with
      | [] =>
          {| jobCh := []; running := delete k (running p);
             shared := shared p; resultsCh := resultsCh p |}
      | (env, fi) :: rest =>
          {| jobCh := rest;
             running := <[k := Some (fi, job_proc outDir prefix keepName
                                           env fi)]> (running p);
             shared := shared p; resultsCh := resultsCh p |}
      end
  | Some (Some (fi, Send res)) =>
      {| jobCh := jobCh p; running := <[k := None]> (running p);
         shared := shared p; resultsCh := resultsCh p ++ [res] |}
  | Some (Some (fi, Sys call)) =>
      let '(fs1, next) := call (shared p) in
      {| jobCh := jobCh p; running := <[k := Some (fi, next)]> (running p);
         shared := fs1; resultsCh := resultsCh p |}
  end.

(** The pool under a schedule: at every tick the schedule names the
    worker that makes the next step, among those that have not returned;
    the run is over when all have. *)
Fixpoint run_pool (outDir prefix : string) (keepName : bool)
    (schedule : nat -> nat) (fuel tick : nat) (p : Pool) : Pool :=
  match fuel with
  | O => p
  | S fuel' =>
      match running p with
      | [] => p
      | _ =>
          run_pool outDir prefix keepName schedule fuel' (S tick)
            (pool_step outDir prefix keepName
               (schedule tick mod length (running p))%nat p)
      end
  end.

(** The pool when the workers have been started and the jobs fed: every
    worker is at the top of its loop, no result has been sent. *)
Definition start_pool (jobs : list (JobEnv * FileInfo)) (started : list Z)
    (fs0 : os.filesystem) : Pool :=
  {| jobCh := jobs; running := map (fun _ => None) started;
     shared := fs0; resultsCh := [] |}.

(** The most steps a job takes in the pool: it is taken from the queue,
    makes at most 1008 system calls (1000 [Stat] in [ensureUniquePath],
    [CreateTemp], [avifenc], [Rename], three in [copyFile], [Remove] and
    the last [Stat]) and sends its result. *)
Definition job_steps : nat := 1010.

(** As many steps as the pool can take: those of the jobs, and one per
    worker to return. *)
Definition pool_fuel (jobs workers : nat) : nat :=
  (jobs * job_steps + workers)%nat.

(** ** [main] *)

Module flag.
Record Flags := {
  input : string;
  format : string;
  prefix : string;
  output : string;
  workers : Z;
  listOnly : bool;
  dryRun : bool;
  keepName : bool
}.
End flag.

(** The format flag as [main] rewrites it before it scans. *)
Definition normalize_format (format : string) : string :=
  if negb (String.eqb format "") then
    let format := strings.ToLower (strings.TrimPrefix format ".") in
    if String.eqb format "jpeg" then "jpg" else format
  else format.

(** What [main] is given besides its flags: the filesystem, the walk of
    each directory, the entropy met by the [n]-th dry-run call of the
    namer, the environment of the [n]-th job, the outcome of the two
    calls that can stop the run, and the order in which the scheduler
    lets the workers of the pool run. *)
Record MainEnv := {
  disk : os.filesystem;
  walk : string -> list WalkEntry;
  MkdirAll_fault : option string;
  preview_entropy : nat -> Entropy;
  LookPath_avifenc : error;
  job_env : nat -> JobEnv;
  schedule : nat -> nat
}.

(** [os.MkdirAll]: nothing to do for a directory, an error for a file;
    otherwise the parents are made first, then the directory. *)
Fixpoint MkdirAll_go (fuel : nat) (fs0 : os.filesystem) (path : string)
  : os.filesystem * option os.PathError :=
  match fs0 !! path with
  | Some n =>
      if IsDir n then (fs0, None)
      else (fs0, Some (os.ErrFault ("mkdir " ++ path ++ ": not a directory")))
  | None =>
      match fuel with
      | O => (<[path := Directory]> fs0, None)
      | S fuel' =>
          let parent := parent_of path in
          let made :=
            if String.eqb parent "" then (fs0, None)
            else MkdirAll_go fuel' fs0 parent in
          match made with
          | (fs1, Some e) => (fs1, Some e)
          | (fs1, None) => (<[path := Directory]> fs1, None)
          end
      end
  end.

Definition MkdirAll (fault : option string) (fs0 : os.filesystem)
    (path : string) : os.filesystem * option os.PathError :=
  match fault with
  | Some msg => (fs0, Some (os.ErrFault msg))
  | None => MkdirAll_go (String.length path) fs0 path
  end.

(** What a run of [main] shows: how it ended, the counts it printed, the
    dry-run previews (source, destination, size), the workers it started,
    the results it collected with their tally, and the filesystem it
    leaves. *)
Inductive Ending :=
| Fatal (msg : string)
| Returned.

Record Run := {
  ending : Ending;
  printed_counts : option (gmap string Z);
  previews : list (string * string * Z);
  started : list Z;
  collected : list ConvertResult;
  tally : option Tally;
  final : os.filesystem
}.

Definition stop (e : Ending) (counts : option (gmap string Z))
    (fs0 : os.filesystem) : Run :=
  {| ending := e; printed_counts := counts; previews := []; started := [];
     collected := []; tally := None; final := fs0 |}.

(** The files [main] selects: [f.Ext == *format]. *)
Definition select (format : string) (files : list FileInfo) : list FileInfo :=
  List.filter (fun f => String.eqb (Ext f) format) files.

(** The dry-run loop: one preview per selected file. *)
Definition dry_run_previews (en : nat -> Entropy) (outDir prefix : string)
    (keepName : bool) (toConvert : list FileInfo)
  : list (string * string * Z) :=
  imap (fun n f =>
          let outName := makeOutputFilename (en n) f prefix keepName in
          (Path f, filepath.Join outDir outName, Size f)) toConvert.

(** [main].  The pool runs under the schedule of the environment; the
    results are collected in the order in which they were sent. *)
Definition main (fl : flag.Flags) (env : MainEnv) : Run :=
  let fs0 := disk env in
  (* Validate input directory *)
  if String.eqb (flag.input fl) "" then
    stop (Fatal "input directory is empty") None fs0
  else
    match os.Stat fs0 (flag.input fl) with
    | inr _ =>
        stop (Fatal ("input is not a directory or not accessible: "
                     ++ flag.input fl)) None fs0
    | inl info =>
        if negb (IsDir info) then
          stop (Fatal ("input is not a directory or not accessible: "
                       ++ flag.input fl)) None fs0
        else
          (* Normalize requested format *)
          let format := normalize_format (flag.format fl) in
          (* Scan directory *)
          match scanDirectory (walk env (flag.input fl)) with
          | (_, _, Some err) => stop (Fatal ("scan error: " ++ err)) None fs0
          | (files, counts, None) =>
              if flag.listOnly fl then stop Returned (Some counts) fs0
              else if String.eqb format "" then stop Returned (Some counts) fs0
              else
                (* Check that specified format exists among scanned files *)
                match counts !! format with
                | None =>
                    stop (Fatal ("No ." ++ format ++ " files found in directory "
                                 ++ flag.input fl)) (Some counts) fs0
                | Some c =>
                    if (c =? 0)%Z then
                      stop (Fatal ("No ." ++ format
                                   ++ " files found in directory "
                                   ++ flag.input fl)) (Some counts) fs0
                    else
                      (* Choose output directory *)
                      let outDir :=
                        if String.eqb (flag.output fl) "" then flag.input fl
                        else flag.output fl in
                      match MkdirAll (MkdirAll_fault env) fs0 outDir with
                      | (fs1, Some e) =>
                          stop (Fatal ("failed to create output directory: "
                                       ++ verr e)) (Some counts) fs1
                      | (fs1, None) =>
                          (* Build list to convert *)
                          let toConvert := select format files in
                          if flag.dryRun fl then
                            {| ending := Returned;
                               printed_counts := Some counts;
                               previews :=
                                 dry_run_previews (preview_entropy env) outDir
                                   (flag.prefix fl) (flag.keepName fl) toConvert;
                               started := []; collected := []; tally := None;
                               final := fs1 |}
                          else
                            (* Check avifenc in PATH *)
                            match LookPath_avifenc env with
                            | Some e =>
                                stop (Fatal ("avifenc not found in PATH: " ++ e))
                                  (Some counts) fs1
                            | None =>
                                let jobs := imap (fun n f => (job_env env n, f))
                                              toConvert in
                                (* Start workers *)
                                let started :=
                                  start_workers (flag.workers fl) in
                                let pool :=
                                  run_pool outDir (flag.prefix fl)
                                    (flag.keepName fl) (schedule env)
                                    (pool_fuel (length jobs) (length started))
                                    0 (start_pool jobs started fs1) in
                                (* Collect *)
                                {| ending := Returned;
                                   printed_counts := Some counts;
                                   previews := [];
                                   started := started;
                                   collected := resultsCh pool;
                                   tally := Some (collect (resultsCh pool));
                                   final := shared pool |}
                            end
                      end
                end
          end
    end.

(** ** Predicates on strings *)

Definition is_hex_digit (c : ascii) : bool :=
  let n := N_of_ascii c in
  (((48 <=? n) && (n <=? 57)) || ((97 <=? n) && (n <=? 102)))%N.

Fixpoint all_hex (s : string) : bool :=
  match s with
  | EmptyString => true
  | String c s' => is_hex_digit c && all_hex s'
  end.

Fixpoint all_decimal (s : string) : bool :=
  match s with
  | EmptyString => true
  | String c s' =>
      ((48 <=? N_of_ascii c) && (N_of_ascii c <=? 57))%N && all_decimal s'
  end.

(** ** Sample inputs *)

Definition sample_time : time.Time :=
  {| time.Year := 2025; time.Month := 9; time.Day := 15 |}.

Definition photo_png : FileInfo :=
  {| Path := "in/photo.png"; ModTime := sample_time; Ext := "png";
     Size := 100 |}.

(** The random source works. *)
Definition entropy_ok : Entropy :=
  {| rand_Read := inl (Byte.xa3, Byte.xf2, Byte.xc1);
     UnixNano := 1700000000123456789 |}.

(** The random source fails; the clock reads 2023-11-14 22:13:20.123456789
    UTC, in nanoseconds. *)
Definition entropy_failed : Entropy :=
  {| rand_Read := inr "entropy source unavailable";
     UnixNano := 1700000000123456789 |}.

(** An output directory in which [photo.avif] and [photo-1.avif] exist. *)
Definition taken_twice : os.filesystem :=
  list_to_map [("out", Directory); ("out/photo.avif", RegularFile 40);
               ("out/photo-1.avif", RegularFile 41)].

(** An output directory in which [photo.avif] and all of its 999
    candidates exist. *)
Definition all_taken : os.filesystem :=
  list_to_map
    (("out", Directory) :: ("out/photo.avif", RegularFile 40)
     :: map (fun k => (candidate "out/photo.avif" (Z.of_nat k), RegularFile 1))
          (seq 1 999)).

(** An output directory that holds nothing yet, and the state of the pool
    before any job. *)
Definition empty_out : os.filesystem :=
  list_to_map [("in", Directory); ("in/photo.png", RegularFile 100);
               ("out", Directory)].

Definition world0 : World := {| fs := empty_out; results := [] |}.

(** A job in which every call succeeds and the encoder writes 50 bytes. *)
Definition job_ok : JobEnv :=
  {| entropy := entropy_ok; TempRandom := 12345; CreateTemp_fault := None;
     avifenc := EncoderOk 50; Rename_fault := None; Open_fault := None;
     Create_fault := None; Copy_fault := None; Remove_fault := None;
     Stat_fault := None; Lookup_fault := fun _ => None |}.

(** A job in which the temporary file cannot be created. *)
Definition job_temp_fails : JobEnv :=
  {| entropy := entropy_ok; TempRandom := 12345;
     CreateTemp_fault := Some "no space left on device";
     avifenc := EncoderOk 50; Rename_fault := None; Open_fault := None;
     Create_fault := None; Copy_fault := None; Remove_fault := None;
     Stat_fault := None; Lookup_fault := fun _ => None |}.

(** A job in which the encoder exits with a non-zero status. *)
Definition job_encoder_fails : JobEnv :=
  {| entropy := entropy_ok; TempRandom := 12345; CreateTemp_fault := None;
     avifenc := EncoderFailed "exit status 1" "Cannot read input file" 0;
     Rename_fault := None; Open_fault := None;
     Create_fault := None; Copy_fault := None; Remove_fault := None;
     Stat_fault := None; Lookup_fault := fun _ => None |}.

(** A job in which the rename fails and the copy takes over. *)
Definition job_rename_fails : JobEnv :=
  {| entropy := entropy_ok; TempRandom := 12345; CreateTemp_fault := None;
     avifenc := EncoderOk 50; Rename_fault := Some "invalid cross-device link";
     Open_fault := None; Create_fault := None; Copy_fault := None;
     Remove_fault := None; Stat_fault := None;
     Lookup_fault := fun _ => None |}.

(** The invariant of a result as the specification words it for a
    failure: destination and converted size are both unset. *)
Definition failure_leaves_both_unset (r : ConvertResult) : Prop :=
  Err r <> None -> Dst r = "" /\ ConvBytes r = 0.

(** ** The scanner, entry by entry *)

(** What the scanner records for one entry of the walk. *)
Definition recorded (e : WalkEntry) : option FileInfo :=
  match walkErr e, d_IsDir e, d_Info e with
  | None, false, inl (mtime, size) =>
      let ext := scan_ext (w_path e) in
      if negb (String.eqb ext "") && bool_at extAllowed ext then
        Some {| Path := w_path e; ModTime := mtime;
                Ext := if String.eqb ext "jpeg" then "jpg" else ext;
                Size := size |}
      else None
  | _, _, _ => None
  end.

(** Counting one more file of an extension. *)
Definition count_one (counts : gmap string Z) (fi : FileInfo)
  : gmap string Z :=
  <[Ext fi := int64 (int_at counts (Ext fi) + 1)]> counts.

(** The number of files of an extension in a list. *)
Definition count_ext (k : string) (files : list FileInfo) : nat :=
  length (List.filter (fun fi => String.eqb (Ext fi) k) files).

(** The extensions the scanner accepts, and those it records. *)
Definition accepted_exts : list string :=
  ["jpg"; "jpeg"; "png"; "bmp"; "tiff"; "webp"; "heic"].

Definition normalized_exts : list string :=
  ["jpg"; "png"; "bmp"; "tiff"; "webp"; "heic"].

(** A walk over a directory with a [.jpeg], a [.JPG], a [.png], a text
    file, a file without extension and an unreadable entry. *)
Definition entry (path : string) (size : Z) : WalkEntry :=
  {| w_path := path; walkErr := None; d_IsDir := false;
     d_Info := inl (sample_time, size) |}.

Definition sample_walk : list WalkEntry :=
  [ {| w_path := "in"; walkErr := None; d_IsDir := true;
       d_Info := inl (sample_time, 4096) |};
    entry "in/a.jpeg" 100; entry "in/b.JPG" 200; entry "in/photo.png" 100;
    entry "in/notes.txt" 10; entry "in/README" 20;
    {| w_path := "in/locked"; walkErr := Some "permission denied";
       d_IsDir := false; d_Info := inr "permission denied" |} ].

(** ** Runs of [main] *)

(** The flags with another value for [-format]. *)
Definition with_format (fl : flag.Flags) (raw : string) : flag.Flags :=
  {| flag.input := flag.input fl; flag.format := raw;
     flag.prefix := flag.prefix fl; flag.output := flag.output fl;
     flag.workers := flag.workers fl; flag.listOnly := flag.listOnly fl;
     flag.dryRun := flag.dryRun fl; flag.keepName := flag.keepName fl |}.

(** The run gets as far as the check of the requested format: the input
    is a directory, [-list] is off and a format is requested. *)
Definition reaches_check (fl : flag.Flags) (env : MainEnv) : Prop :=
  flag.input fl <> "" /\
  (exists info, disk env !! flag.input fl = Some info /\ IsDir info = true) /\
  flag.listOnly fl = false /\
  normalize_format (flag.format fl) <> "".

(** The output directory [main] chooses. *)
Definition chosen_outDir (fl : flag.Flags) : string :=
  if String.eqb (flag.output fl) "" then flag.input fl else flag.output fl.

(** The dry run as the specification words it: the uniquifier has been
    applied to every preview, so no preview names an existing path, and
    nothing is written. *)
Definition dry_run_as_specified (fl : flag.Flags) (env : MainEnv) : Prop :=
  (forall p, In p (previews (main fl env)) -> disk env !! p.1.2 = None) /\
  final (main fl env) = disk env.

(** A dry run over [sample_walk], keeping the names, into [out]. *)
Definition dry_run_png : flag.Flags :=
  {| flag.input := "in"; flag.format := "png"; flag.prefix := "";
     flag.output := "out"; flag.workers := 4; flag.listOnly := false;
     flag.dryRun := true; flag.keepName := true |}.

Definition convert_jpeg : flag.Flags :=
  {| flag.input := "in"; flag.format := ".JPEG"; flag.prefix := "";
     flag.output := "out"; flag.workers := 2; flag.listOnly := false;
     flag.dryRun := false; flag.keepName := true |}.

(** The output directory already holds [photo.avif]. *)
Definition disk_taken : os.filesystem :=
  list_to_map [("in", Directory); ("in/photo.png", RegularFile 100);
               ("out", Directory); ("out/photo.avif", RegularFile 40)].

(** There is no output directory yet. *)
Definition disk_no_out : os.filesystem :=
  list_to_map [("in", Directory); ("in/photo.png", RegularFile 100)].

(** The [n]-th job of a run in which every call succeeds; [CreateTemp]
    draws another number for every job. *)
Definition job_nth (n : nat) : JobEnv :=
  {| entropy := entropy_ok; TempRandom := 12345 + Z.of_nat n;
     CreateTemp_fault := None; avifenc := EncoderOk 50;
     Rename_fault := None; Open_fault := None; Create_fault := None;
     Copy_fault := None; Remove_fault := None; Stat_fault := None;
     Lookup_fault := fun _ => None |}.

(** The workers take turns, one step each. *)
Definition env_on (d : os.filesystem) : MainEnv :=
  {| disk := d; walk := fun _ => sample_walk; MkdirAll_fault := None;
     preview_entropy := fun _ => entropy_ok; LookPath_avifenc := None;
     job_env := job_nth; schedule := fun tick => tick |}.

(** The same, under the schedule in which the first worker takes a job
    and then waits until the second has returned. *)
Definition second_runs_first (d : os.filesystem) : MainEnv :=
  {| disk := d; walk := fun _ => sample_walk; MkdirAll_fault := None;
     preview_entropy := fun _ => entropy_ok; LookPath_avifenc := None;
     job_env := job_nth;
     schedule := fun tick => match tick with O => O | _ => 1%nat end |}.

(** ** Proof automation *)

(** Case analysis on the body of the worker loop: every scrutinee is
    destructed, with its equation kept. *)
Ltac worker_cases :=
  repeat match goal with
         | |- context [match ?x with _ => _ end] =>
             let E := fresh "E" in destruct x eqn:E
         | |- context [let '(_, _) := ?x in _] =>
             let E := fresh "E" in destruct x eqn:E
         end.

(** ** The aggregate, in the words of the specification *)

(** The results that report a success. *)
Definition successes (rs : list ConvertResult) : list ConvertResult :=
  List.filter (fun r => match Err r with None => true | Some _ => false end) rs.

Definition failures (rs : list ConvertResult) : list ConvertResult :=
  List.filter (fun r => match Err r with None => false | Some _ => true end) rs.

Definition sum_Z (l : list Z) : Z := fold_right Z.add 0 l.

(** Three conversions that halve files of 100, 200 and 300 bytes, and one
    failure. *)
Definition sample_results : list ConvertResult :=
  [ {| Src := "in/a.png"; Dst := "out/a.avif"; OrigBytes := 100;
       ConvBytes := 50; Err := None |};
    {| Src := "in/b.png"; Dst := "out/b.avif"; OrigBytes := 200;
       ConvBytes := 100; Err := None |};
    {| Src := "in/bad.png"; Dst := "out/bad.avif"; OrigBytes := 999;
       ConvBytes := 0; Err := Some "avifenc failed: exit status 1; output: " |};
    {| Src := "in/c.png"; Dst := "out/c.avif"; OrigBytes := 300;
       ConvBytes := 150; Err := None |} ].

(** ** Further vocabulary *)

(** The prefixes of the five diagnostics a worker writes, one per step. *)
Definition failure_steps : list string :=
  ["unique output path fail: "; "create temp file: "; "avifenc failed: ";
   "save output failed: "; "stat output failed: "].

(** An entry of the walk that the scanner lists: reached without error,
    not a directory, with an extension of the allow-set and a readable
    [Info]. *)
Definition listed_as (e : WalkEntry) (fi : FileInfo) : Prop :=
  walkErr e = None /\ d_IsDir e = false /\
  d_Info e = inl (ModTime fi, Size fi) /\
  Path fi = w_path e /\
  In (scan_ext (w_path e)) accepted_exts /\
  Ext fi = (if String.eqb (scan_ext (w_path e)) "jpeg" then "jpg"
            else scan_ext (w_path e)).

(** An entry the scanner passes over whatever its name: an error on the
    way, a directory, or an [Info] that fails. *)
Definition passed_over (e : WalkEntry) : Prop :=
  walkErr e <> None \/ d_IsDir e = true \/ exists msg, d_Info e = inr msg.

(** ** The pool, step by step *)

(** What was stored in [init] is still stored, unchanged, in [fs0]. *)
Definition kept (init fs0 : os.filesystem) : Prop :=
  forall p n, init !! p = Some n -> fs0 !! p = Some n.

(** A process that, on filesystems that keep [init], keeps [init], makes
    at most [n] system calls and then sends a result for [src]. *)
Inductive good (init : os.filesystem) (src : string) : nat -> Proc -> Prop :=
| good_Send (n : nat) (res : ConvertResult) :
    Src res = src -> good init src n (Send res)
| good_Sys (n : nat) (call : os.filesystem -> os.filesystem * Proc) :
    (forall fs0, kept init fs0 -> kept init (call fs0).1) ->
    (forall fs0, kept init fs0 -> good init src n (call fs0).2) ->
    good init src (S n) (Sys call).

(** A worker of the pool with a bound on the calls left in its job. *)
Definition worker_ok (init : os.filesystem) (bound : nat)
    (w : option (FileInfo * Proc)) : Prop :=
  match w with
  | None => True
  | Some (fi, p) => good init (Path fi) bound p /\ (bound <= 1008)%nat
  end.

(** The steps a worker has left at most: one to return, and in a job
    its calls and the sending of the result besides. *)
Definition weight (bound : nat) (w : option (FileInfo * Proc)) : nat :=
  match w with
  | None => 1
  | Some _ => bound + 2
  end.

Fixpoint weights (bounds : list nat) (ws : list (option (FileInfo * Proc)))
  : nat :=
  match bounds, ws with
  | b :: bounds', w :: ws' => (weight b w + weights bounds' ws')%nat
  | _, _ => O
  end.

Definition pool_weight (bounds : list nat) (p : Pool) : nat :=
  (weights bounds (running p) + length (jobCh p) * job_steps)%nat.

(** The sources of the jobs the workers are in. *)
Definition in_flight (ws : list (option (FileInfo * Proc))) : list string :=
  omap (fun w : option (FileInfo * Proc) =>
          match w with
          | Some (fi, _) => Some (Path fi)
          | None => None
          end) ws.

(** The invariant of the pool: the filesystem keeps [init]; every job in
    progress is a good process; while jobs are queued some worker is
    left; and the sources of the results sent, of the jobs in progress
    and of the jobs queued are together the sources [all] of the jobs
    fed. *)
Record pool_inv (init : os.filesystem) (all : list string)
    (bounds : list nat) (p : Pool) : Prop := {
  inv_kept : kept init (shared p);
  inv_workers : Forall2 (worker_ok init) bounds (running p);
  inv_live : running p = [] -> jobCh p = [];
  inv_sources :
    Permutation
      (map Src (resultsCh p) ++ in_flight (running p)
       ++ map (fun j : JobEnv * FileInfo => Path j.2) (jobCh p))
      all
}.

(** A byte that is neither a dot nor a separator. *)
Definition plain (c : ascii) : bool :=
  negb (filepath.IsPathSeparator c) && negb (Ascii.eqb c ".").

(** The capital of a small ASCII letter, and the spellings of a word of
    small letters: byte by byte the letter or its capital. *)
Definition capital (d : ascii) : ascii := ascii_of_N (N_of_ascii d - 32).

Fixpoint spells (s word : string) : Prop :=
  match s, word with
  | EmptyString, EmptyString => True
  | String c s', String d word' => (c = d \/ c = capital d) /\ spells s' word'
  | _, _ => False
  end.

(** All the strings that spell a given word, one after the other. *)
Ltac spell_out H :=
  cbn [spells] in H;
  match type of H with
  | spells ?s EmptyString => destruct s; [clear H|destruct H]
  | spells ?s (String _ _) =>
      destruct s as [|? ?]; [destruct H|];
      let H1 := fresh in
      let H2 := fresh in
      destruct H as [H1 H2]; destruct H1 as [H1|H1]; subst; spell_out H2
  end.


(** Two maps compared key by key, after the inserts and deletes are
    pushed to the lookups. *)
Ltac map_cases :=
  apply map_eq; intros ?;
  repeat (rewrite lookup_insert || rewrite lookup_delete);
  repeat case_decide; subst; try congruence.

(** A job in which the output is written and the last [Stat] fails. *)
Definition job_stat_fails : JobEnv :=
  {| entropy := entropy_ok; TempRandom := 12345; CreateTemp_fault := None;
     avifenc := EncoderOk 50; Rename_fault := None; Open_fault := None;
     Create_fault := None; Copy_fault := None; Remove_fault := None;
     Stat_fault := Some "input/output error";
     Lookup_fault := fun _ => None |}.

(** A job in which the rename fails and the copy breaks after 7 bytes. *)
Definition job_copy_breaks : JobEnv :=
  {| entropy := entropy_ok; TempRandom := 12345; CreateTemp_fault := None;
     avifenc := EncoderOk 50; Rename_fault := Some "invalid cross-device link";
     Open_fault := None; Create_fault := None;
     Copy_fault := Some ("no space left on device", 7);
     Remove_fault := None; Stat_fault := None;
     Lookup_fault := fun _ => None |}.

(** A job in an output directory that only allows appending: the rename
    and the removal are refused, the copy works. *)
Definition job_remove_refused : JobEnv :=
  {| entropy := entropy_ok; TempRandom := 12345; CreateTemp_fault := None;
     avifenc := EncoderOk 50; Rename_fault := Some "operation not permitted";
     Open_fault := None; Create_fault := None; Copy_fault := None;
     Remove_fault := Some "operation not permitted"; Stat_fault := None;
     Lookup_fault := fun _ => None |}.


(** The temporary file of the sample jobs, just created. *)
Definition with_temp (d : os.filesystem) : os.filesystem :=
  <["out/avif_tmp_12345.avif" := RegularFile 0]> d.

(** Every success in the channel names a file of its own, and each of
    them is on disk with the size reported. *)
Definition outputs_on_disk (w : World) : Prop :=
  NoDup (map Dst (successes (results w))) /\
  forall r, In r (results w) -> Err r = None ->
    exists st, fs w !! Dst r = Some st /\ ConvBytes r = StSize st.

(** The same file asked for twice. *)
Definition same_photo_twice : list (JobEnv * FileInfo) :=
  [(job_ok, photo_png); (job_ok, photo_png)].

Definition list_only : flag.Flags :=
  {| flag.input := "in"; flag.format := "png"; flag.prefix := "";
     flag.output := "elsewhere"; flag.workers := 4; flag.listOnly := true;
     flag.dryRun := false; flag.keepName := true |}.

(** * Properties *)

(** ** The library functions on sample inputs *)

Example Ext_1 : filepath.Ext "a/b.c/photo.JPEG" = ".JPEG". Proof. reflexivity. Qed.
Example Ext_2 : filepath.Ext "a/b.c/photo" = "". Proof. reflexivity. Qed.
Example Ext_3 : filepath.Ext "a/.jpeg" = ".jpeg". Proof. reflexivity. Qed.
Example Clean_1 : filepath.Clean "a//b/./c/../d/" = "a/b/d". Proof. reflexivity. Qed.
Example Clean_2 : filepath.Clean "/../a/.." = "/". Proof. reflexivity. Qed.
Example Clean_3 : filepath.Clean "../../a/../.." = "../../..". Proof. reflexivity. Qed.
Example Clean_4 : filepath.Clean "a/.." = ".". Proof. reflexivity. Qed.
Example Join_1 : filepath.Join "out" "x.avif" = "out/x.avif". Proof. reflexivity. Qed.
Example Join_2 : filepath.Join "." "x.avif" = "x.avif". Proof. reflexivity. Qed.
Example Join_3 : filepath.Join "" "x.avif" = "x.avif". Proof. reflexivity. Qed.
Example Base_1 : filepath.Base "a/b/c.png" = "c.png". Proof. reflexivity. Qed.
Example Base_2 : filepath.Base "a/b/" = "b". Proof. reflexivity. Qed.
Example Base_3 : filepath.Base "///" = "/". Proof. reflexivity. Qed.
Example Dir_1 : filepath.Dir "a/b/c.png" = "a/b". Proof. reflexivity. Qed.
Example Dir_2 : filepath.Dir "c.png" = ".". Proof. reflexivity. Qed.
Example Dir_3 : filepath.Dir "/c.png" = "/". Proof. reflexivity. Qed.
Example TrimSuffix_1 : strings.TrimSuffix "photo.jpg" ".jpg" = "photo". Proof. reflexivity. Qed.
Example TrimPrefix_1 : strings.TrimPrefix ".JPEG" "." = "JPEG". Proof. reflexivity. Qed.
Example ToLower_1 : strings.ToLower "JpEg-1" = "jpeg-1". Proof. reflexivity. Qed.
Example fmt_d_1 : fmt.d 0 = "0". Proof. reflexivity. Qed.
Example fmt_d_2 : fmt.d 999 = "999". Proof. reflexivity. Qed.
Example fmt_d_3 : fmt.d (-42) = "-42". Proof. reflexivity. Qed.
Example fmt_x_1 : fmt.x 255 = "ff". Proof. reflexivity. Qed.
Example fmt_x_2 : fmt.x 0x0a3f2c1 = "a3f2c1". Proof. reflexivity. Qed.
Example hex_1 : hex.EncodeToString [Byte.xa3; Byte.xf2; Byte.x0c] = "a3f20c".
Proof. reflexivity. Qed.
Example Format_1 :
  time.Format_20060102 {| time.Year := 2025; time.Month := 9; time.Day := 15 |}
  = "20250915".
Proof. reflexivity. Qed.
Example Format_2 :
  time.Format_20060102 {| time.Year := 987; time.Month := 12; time.Day := 1 |}
  = "09871201".
Proof. reflexivity. Qed.

(** ** The pool starts the configured number of workers *)

Lemma start_loop_step (i numWorkers : Z) :
  start_loop i numWorkers
  = if Z_lt_dec i numWorkers then i :: start_loop (i + 1) numWorkers else [].
Proof. apply start_loop_equation_1. Qed.

(** The workers started are numbered [i .. numWorkers - 1]: the guard
    [i < numWorkers] lets the loop run [numWorkers - i] times. *)
Lemma start_loop_ids (count : nat) (i numWorkers : Z) :
  count = Z.to_nat (numWorkers - i) ->
  start_loop i numWorkers = map (fun k => i + Z.of_nat k) (seq 0 count).
Proof.
  revert i. induction count as [|count IH]; intros i Hcount;
    rewrite start_loop_step; destruct (Z_lt_dec i numWorkers); try lia.
  - reflexivity.
  - cbn [seq map]. f_equal; [lia|].
    rewrite (IH (i + 1)) by lia. rewrite <- seq_shift, map_map.
    apply map_ext; intros k; lia.
Qed.

Lemma start_loop_length (i numWorkers : Z) :
  length (start_loop i numWorkers) = Z.to_nat (numWorkers - i).
Proof.
  rewrite (start_loop_ids _ i numWorkers eq_refl), length_map, length_seq.
  reflexivity.
Qed.

(** The coercion of the worker count and the loop, together. *)
Lemma start_workers_length (workers : Z) :
  Z.of_nat (length (start_workers workers))
  = if (0 <? workers)%Z then workers else 1.
Proof.
  unfold start_workers. rewrite start_loop_length.
  destruct (Z.leb_spec workers 0), (Z.ltb_spec 0 workers); lia.
Qed.

Example start_workers_4 : start_workers 4 = [0; 1; 2; 3].
Proof. vm_compute. reflexivity. Qed.
Example start_workers_0 : start_workers 0 = [0].
Proof. vm_compute. reflexivity. Qed.
Example start_workers_neg : start_workers (-3) = [0].
Proof. vm_compute. reflexivity. Qed.

(** A run of [main] that reaches the pool starts that many workers. *)
Lemma main_started (fl : flag.Flags) (env : MainEnv) :
  started (main fl env) = [] \/
  started (main fl env) = start_workers (flag.workers fl).
Proof.
  unfold main, stop.
  repeat (match goal with
          | |- context [match ?x with _ => _ end] => destruct x
          end; cbn [started]); auto.
Qed.

(** ** The aggregator *)

(** Wrapping after every addition is wrapping once at the end. *)
Lemma int64_add (a b : Z) : int64 (int64 a + b) = int64 (a + b).
Proof.
  unfold int64. f_equal.
  replace ((a + 2 ^ 63) mod 2 ^ 64 - 2 ^ 63 + b + 2 ^ 63)
    with ((a + 2 ^ 63) mod 2 ^ 64 + b) by lia.
  rewrite Zplus_mod_idemp_l. f_equal. lia.
Qed.

(** The collection loop from a tally that stands for the exact counts and
    sums [s], [f], [o], [c]: the tally it ends with stands for those
    numbers plus the counts and sums of the results it read. *)
Lemma collect_from (rs : list ConvertResult) (t : Tally) (s f o c : Z) :
  success t = int64 s -> fail t = int64 f ->
  totalOrig t = int64 o -> totalConv t = int64 c ->
  let t' := fold_left collect_step rs t in
  success t' = int64 (s + Z.of_nat (length (successes rs))) /\
  fail t' = int64 (f + Z.of_nat (length (failures rs))) /\
  totalOrig t' = int64 (o + sum_Z (map OrigBytes (successes rs))) /\
  totalConv t' = int64 (c + sum_Z (map ConvBytes (successes rs))).
Proof.
  revert t s f o c.
  induction rs as [|r rs IH]; intros t s f o c Hs Hf Ho Hc; cbn zeta.
  - cbn. rewrite !Z.add_0_r. auto.
  - cbn [fold_left]. unfold successes, failures. cbn [List.filter].
    fold (successes rs) (failures rs).
    destruct (Err r) as [e|] eqn:Herr.
    + destruct (IH (collect_step t r) s (f + 1) o c) as (H1 & H2 & H3 & H4);
        try (unfold collect_step; rewrite Herr; cbn; assumption).
      { unfold collect_step. rewrite Herr. cbn. rewrite Hf. apply int64_add. }
      rewrite H1, H2, H3, H4. cbn [length].
      repeat split; f_equal; lia.
    + destruct (IH (collect_step t r) (s + 1) f (o + OrigBytes r)
                  (c + ConvBytes r)) as (H1 & H2 & H3 & H4);
        try (unfold collect_step; rewrite Herr; cbn; assumption).
      { unfold collect_step. rewrite Herr. cbn. rewrite Hs. apply int64_add. }
      { unfold collect_step. rewrite Herr. cbn. rewrite Ho. apply int64_add. }
      { unfold collect_step. rewrite Herr. cbn. rewrite Hc. apply int64_add. }
      rewrite H1, H2, H3, H4. cbn [length map sum_Z fold_right].
      repeat split; f_equal; unfold sum_Z; lia.
Qed.

(** The tally counts successes and failures and sums the sizes of the
    successes only. *)
Lemma collect_totals (rs : list ConvertResult) :
  success (collect rs) = int64 (Z.of_nat (length (successes rs))) /\
  fail (collect rs) = int64 (Z.of_nat (length (failures rs))) /\
  totalOrig (collect rs) = int64 (sum_Z (map OrigBytes (successes rs))) /\
  totalConv (collect rs) = int64 (sum_Z (map ConvBytes (successes rs))).
Proof.
  unfold collect.
  apply (collect_from rs _ 0 0 0 0); reflexivity.
Qed.

Lemma reductionPercent_zero (conv : Z) : reductionPercent 0 conv = 0%float.
Proof. reflexivity. Qed.

Lemma reductionPercent_nonzero (orig conv : Z) :
  orig <> 0 ->
  reductionPercent orig conv
  = ((1 - float64 conv / float64 orig) * 100)%float.
Proof.
  intros H. unfold reductionPercent.
  destruct (Z.eqb_spec orig 0) as [->|_]; [contradiction|reflexivity].
Qed.

(** C8: the reduction percentage is [0] for a zero original total and
    [(1 - conv/orig) * 100], in [float64] arithmetic, otherwise; the
    totals the aggregator gives it are the sums of the original and of the
    converted sizes over the successful results. *)
Theorem reductionPercent_formula :
  (forall orig conv : Z,
     (orig = 0 -> reductionPercent orig conv = 0%float) /\
     (orig <> 0 ->
      reductionPercent orig conv
      = ((1 - float64 conv / float64 orig) * 100)%float)) /\
  (forall rs : list ConvertResult,
     let totalOriginal := int64 (sum_Z (map OrigBytes (successes rs))) in
     let totalConverted := int64 (sum_Z (map ConvBytes (successes rs))) in
     totalOrig (collect rs) = totalOriginal /\
     totalConv (collect rs) = totalConverted /\
     (totalOriginal = 0 ->
      reductionPercent (totalOrig (collect rs)) (totalConv (collect rs))
      = 0%float) /\
     (totalOriginal <> 0 ->
      reductionPercent (totalOrig (collect rs)) (totalConv (collect rs))
      = ((1 - float64 totalConverted / float64 totalOriginal) * 100)%float) /\
     (forall p, summary_percent (collect rs) = Some p ->
        p = ((1 - float64 totalConverted / float64 totalOriginal) * 100)%float)).
Proof.
  split.
  - intros orig conv. split.
    + intros ->. apply reductionPercent_zero.
    + apply reductionPercent_nonzero.
  - intros rs totalOriginal totalConverted.
    destruct (collect_totals rs) as (_ & _ & Ho & Hc).
    fold totalOriginal in Ho. fold totalConverted in Hc.
    rewrite Ho, Hc. repeat split.
    + intros ->. apply reductionPercent_zero.
    + apply reductionPercent_nonzero.
    + unfold summary_percent. rewrite Ho, Hc.
      destruct (Z.ltb_spec 0 (success (collect rs))); [|discriminate].
      destruct (Z.ltb_spec 0 totalOriginal); [|discriminate].
      cbn. intros p [= <-]. apply reductionPercent_nonzero. lia.
Qed.

Lemma reductionPercent_formula_witness :
  reductionPercent 0 300 = 0%float /\
  reductionPercent 600 300
  = ((1 - float64 300 / float64 600) * 100)%float /\
  summary_percent (collect sample_results) = Some 50%float.
Proof.
  destruct reductionPercent_formula as [Hfun Hagg].
  split; [|split].
  - apply (proj1 (Hfun 0 300)). reflexivity.
  - apply (proj2 (Hfun 600 300)). discriminate.
  - destruct (Hagg sample_results) as (_ & _ & _ & _ & Hsum).
    destruct (summary_percent (collect sample_results)) as [p|] eqn:E.
    + rewrite (Hsum p eq_refl). vm_compute. reflexivity.
    + vm_compute in E. discriminate.
Defined.

Example reductionPercent_half : reductionPercent 600 300 = 50%float.
Proof. vm_compute. reflexivity. Qed.

(** A quotient that [float64] rounds: [(1 - 1/3) * 100] is the double
    nearest to 66.666666666666671. *)
Example reductionPercent_third :
  reductionPercent 3 1 = 0x1.0aaaaaaaaaaabp+6%float.
Proof. vm_compute. reflexivity. Qed.

(** The end-to-end figures: three files of 100, 200 and 300 bytes halved,
    and one failure that does not count in the totals. *)
Example collect_sample :
  collect sample_results
  = {| success := 3; fail := 1; totalOrig := 600; totalConv := 300 |}.
Proof. reflexivity. Qed.

(** ** Strings *)

Lemma append_cons (c : ascii) (s t : string) :
  String c s ++ t = String c (s ++ t).
Proof. reflexivity. Qed.

Lemma string_length_app (s t : string) :
  String.length (s ++ t) = (String.length s + String.length t)%nat.
Proof.
  induction s as [|c s IH]; [reflexivity|].
  rewrite append_cons. cbn [String.length]. rewrite IH. reflexivity.
Qed.

Lemma string_app_assoc (s t u : string) : (s ++ t) ++ u = s ++ t ++ u.
Proof.
  induction s as [|c s IH]; [reflexivity|].
  rewrite !append_cons, IH. reflexivity.
Qed.

Lemma string_app_nil_r (s : string) : s ++ "" = s.
Proof.
  induction s as [|c s IH]; [reflexivity|].
  rewrite append_cons, IH. reflexivity.
Qed.

Lemma of_list_app (l m : list ascii) :
  string_of_list_ascii (l ++ m)
  = string_of_list_ascii l ++ string_of_list_ascii m.
Proof.
  induction l as [|c l IH]; [reflexivity|].
  cbn [app string_of_list_ascii]. rewrite append_cons, IH. reflexivity.
Qed.

Lemma rev_app_append (s t acc : string) :
  String.rev_app (s ++ t) acc = String.rev_app t (String.rev_app s acc).
Proof.
  revert acc. induction s as [|c s IH]; intros acc; [reflexivity|].
  rewrite append_cons. cbn [String.rev_app]. apply IH.
Qed.

Lemma rev_app_acc (s acc : string) :
  String.rev_app s acc = String.rev_app s "" ++ acc.
Proof.
  revert acc. induction s as [|c s IH]; intros acc; [reflexivity|].
  cbn [String.rev_app]. rewrite (IH (String c acc)), (IH (String c "")).
  rewrite string_app_assoc. reflexivity.
Qed.

Lemma rev_app (s t : string) :
  String.rev (s ++ t) = String.rev t ++ String.rev s.
Proof.
  unfold String.rev. rewrite rev_app_append. apply rev_app_acc.
Qed.

Lemma HasPrefix_nil (s : string) : strings.HasPrefix s "" = true.
Proof. destruct s; reflexivity. Qed.

Lemma HasPrefix_app_l (s t p : string) :
  strings.HasPrefix s p = true -> strings.HasPrefix (s ++ t) p = true.
Proof.
  revert p. induction s as [|d s IH]; intros [|c p] H.
  - apply HasPrefix_nil.
  - discriminate H.
  - apply HasPrefix_nil.
  - rewrite append_cons. cbn [strings.HasPrefix] in H |- *.
    destruct (Ascii.eqb c d); [|discriminate H]. apply IH. exact H.
Qed.

Lemma HasPrefix_refl (p : string) : strings.HasPrefix p p = true.
Proof.
  induction p as [|c p IH]; [reflexivity|].
  cbn [strings.HasPrefix]. rewrite Ascii.eqb_refl. exact IH.
Qed.

Lemma HasSuffix_app (s p : string) : strings.HasSuffix (s ++ p) p = true.
Proof.
  unfold strings.HasSuffix. rewrite rev_app.
  apply HasPrefix_app_l, HasPrefix_refl.
Qed.

Lemma HasSuffix_app_r (a s p : string) :
  strings.HasSuffix s p = true -> strings.HasSuffix (a ++ s) p = true.
Proof.
  unfold strings.HasSuffix. rewrite rev_app. apply HasPrefix_app_l.
Qed.

Lemma substring_all (s : string) : String.substring 0 (String.length s) s = s.
Proof.
  induction s as [|c s IH]; [reflexivity|].
  cbn [String.length String.substring]. rewrite IH. reflexivity.
Qed.






(** [TrimPrefix] with a dot: the first byte goes when it is a dot. *)
Lemma TrimPrefix_dot (c : ascii) (s : string) :
  strings.TrimPrefix (String c s) "."
  = if Ascii.eqb "." c then s else String c s.
Proof.
  unfold strings.TrimPrefix. cbn [strings.HasPrefix].
  destruct (Ascii.eqb "." c); [|reflexivity].
  rewrite HasPrefix_nil. cbn [String.length Nat.sub String.substring].
  rewrite Nat.sub_0_r. apply substring_all.
Qed.

Lemma list_of_app (s t : string) :
  list_ascii_of_string (s ++ t)
  = (list_ascii_of_string s ++ list_ascii_of_string t)%list.
Proof.
  induction s as [|c s IH]; [reflexivity|].
  rewrite append_cons. cbn [list_ascii_of_string app]. rewrite IH.
  reflexivity.
Qed.

Lemma forallb_reverse {A : Type} (f : A -> bool) (l : list A) :
  forallb f (rev l) = forallb f l.
Proof.
  induction l as [|x l IH]; [reflexivity|].
  cbn [rev forallb]. rewrite forallb_app, IH. cbn [forallb].
  rewrite andb_true_r. apply andb_comm.
Qed.

(** The scan of [Ext] over plain bytes stops at the dot behind them. *)
Lemma ext_scan_plain (m r : list ascii) (acc : string) :
  forallb plain m = true ->
  filepath.ext_scan (m ++ "."%char :: r) acc
  = String "." (string_of_list_ascii (rev m) ++ acc).
Proof.
  revert acc. induction m as [|c m IH]; intros acc Hplain.
  - reflexivity.
  - cbn [forallb] in Hplain. apply andb_prop in Hplain.
    destruct Hplain as [Hc Hm]. unfold plain in Hc.
    apply andb_prop in Hc. destruct Hc as [Hsep Hdot].
    cbn [app filepath.ext_scan rev].
    destruct (filepath.IsPathSeparator c); [discriminate|].
    destruct (Ascii.eqb c "."); [discriminate|].
    rewrite IH by assumption. rewrite of_list_app. cbn [string_of_list_ascii].
    rewrite string_app_assoc. reflexivity.
Qed.

(** The extension of a path that ends in a dot and plain bytes. *)
Lemma Ext_dot (stem s : string) :
  forallb plain (list_ascii_of_string s) = true ->
  filepath.Ext (stem ++ "." ++ s) = "." ++ s.
Proof.
  intros Hplain. unfold filepath.Ext.
  rewrite list_of_app. change ("." ++ s) with (String "." s).
  cbn [list_ascii_of_string]. rewrite rev_app_distr. cbn [rev].
  rewrite <- app_assoc. cbn [app].
  rewrite ext_scan_plain by (rewrite forallb_reverse; assumption).
  rewrite rev_involutive, string_of_list_ascii_of_string, string_app_nil_r.
  reflexivity.
Qed.

(** ** The path uniquifier *)

(** What the existence test of [ensureUniquePath] says: [Stat] fails with
    a not-exist error exactly when it is not made to fail otherwise,
    nothing is stored at the path, the name is not too long and the way
    to it does not lead through a file. *)
Lemma not_exist_spec (fault : string -> option string) (fs0 : os.filesystem)
    (p : string) :
  not_exist fault fs0 p = true <->
  fault p = None /\ fs0 !! p = None /\ os.too_long p = false /\
  os.through_a_file fs0 p = false.
Proof.
  unfold not_exist, sys.Stat, os.Stat.
  destruct (fault p); cbn; [intuition discriminate|].
  destruct (fs0 !! p); cbn; [intuition discriminate|].
  destruct (os.too_long p); cbn; [intuition discriminate|].
  destruct (os.through_a_file fs0 p); cbn; intuition discriminate.
Qed.

Lemma not_exist_free (fault : string -> option string) (fs0 : os.filesystem)
    (p : string) :
  not_exist fault fs0 p = true -> fs0 !! p = None.
Proof. intros H. apply not_exist_spec in H. tauto. Qed.

(** Where something exists the test fails. *)
Lemma exists_taken (fault : string -> option string) (fs0 : os.filesystem)
    (p : string) :
  fs0 !! p <> None -> not_exist fault fs0 p = false.
Proof.
  intros Hp. destruct (not_exist fault fs0 p) eqn:H; [|reflexivity].
  apply not_exist_free in H. contradiction.
Qed.

Section Search.

Variables (fault : string -> option string) (fs0 : os.filesystem).
Variable path : string.



(** Whatever the loop returns is a candidate that [Stat] does not find,
    and the ones before it are taken. *)
Lemma unique_search_some (fuel : nat) (i : Z) (c : string) :
  unique_search fault fs0 path fuel i = Some c ->
  exists n, i <= n < 1000 /\ c = candidate path n /\
            not_exist fault fs0 c = true /\
            forall m, i <= m < n ->
              not_exist fault fs0 (candidate path m) = false.
Proof.
  revert i. induction fuel as [|fuel IH]; intros i; [discriminate|].
  cbn [unique_search].
  destruct (Z.ltb_spec i 1000) as [Hlt|Hge]; [|discriminate].
  destruct (not_exist fault fs0 (candidate path i)) eqn:Hstat.
  - intros [= <-]. exists i. repeat split; try lia; auto.
  - intros Hrec. destruct (IH _ Hrec) as (n & Hn & Hc & Hfree & Hbefore).
    exists n. repeat split; try lia; auto.
    intros m Hm. destruct (Z.eq_dec m i) as [->|Hne]; [assumption|].
    apply Hbefore. lia.
Qed.

(** The guard [i < 1000] ends the loop, not the fuel: any fuel above
    [1000 - i] gives the same result. *)
Lemma unique_search_fuel (fuel fuel' : nat) (i : Z) :
  1000 - i < Z.of_nat fuel -> 1000 - i < Z.of_nat fuel' ->
  unique_search fault fs0 path fuel i = unique_search fault fs0 path fuel' i.
Proof.
  revert fuel' i. induction fuel as [|fuel IH]; intros fuel' i H1 H2.
  - destruct fuel'; cbn [unique_search]; [reflexivity|].
    destruct (Z.ltb_spec i 1000); [lia|reflexivity].
  - destruct fuel' as [|fuel']; cbn [unique_search].
    + destruct (Z.ltb_spec i 1000); [lia|reflexivity].
    + destruct (Z.ltb_spec i 1000); [|reflexivity].
      destruct (not_exist _ _ _); [reflexivity|].
      apply IH; lia.
Qed.

(** [ensureUniquePath] succeeds only with a path that [Stat] does not
    find, so with one at which nothing exists. *)
Lemma ensureUniquePath_not_exist (p : string) :
  ensureUniquePath fault fs0 path = (p, None) -> not_exist fault fs0 p = true.
Proof.
  unfold ensureUniquePath.
  destruct (not_exist fault fs0 path) eqn:Hstat.
  - intros [= <-]. assumption.
  - destruct (unique_search fault fs0 path 1000 1) as [c|] eqn:Hs;
      [|discriminate].
    intros [= <-].
    destruct (unique_search_some _ _ _ Hs) as (n & _ & _ & Hfree & _).
    assumption.
Qed.

Lemma ensureUniquePath_free (p : string) :
  ensureUniquePath fault fs0 path = (p, None) -> fs0 !! p = None.
Proof.
  intros H. apply (not_exist_free fault), ensureUniquePath_not_exist, H.
Qed.

End Search.





Example candidate_2 : candidate "out/photo.avif" 2 = "out/photo-2.avif".
Proof. reflexivity. Qed.

Example ensureUniquePath_taken :
  ensureUniquePath (fun _ => None) taken_twice "out/photo.avif"
  = ("out/photo-2.avif", None).
Proof. vm_compute. reflexivity. Qed.

Example ensureUniquePath_all_taken :
  ensureUniquePath (fun _ => None) all_taken "out/photo.avif"
  = ("", Some "could not find unique name for out/photo.avif").
Proof. vm_compute. reflexivity. Qed.

(** A name of 256 bytes is refused by [Stat] with name-too-long, which is
    not a not-exist error: the uniquifier gives up on it too. *)
Example ensureUniquePath_long_name :
  let name := "out/" ++ string_of_list_ascii (repeat "a"%char 251) ++ ".avif" in
  os.IsNotExist (os.err_of (os.Stat empty_out name)) = false /\
  (ensureUniquePath (fun _ => None) empty_out name).2
  = Some ("could not find unique name for " ++ name).
Proof. vm_compute. split; reflexivity. Qed.

(** ** The namer *)

Lemma all_hex_app (s t : string) :
  all_hex (s ++ t) = all_hex s && all_hex t.
Proof.
  induction s as [|c s IH]; [reflexivity|].
  rewrite append_cons. cbn [all_hex]. rewrite IH. apply andb_assoc.
Qed.

Lemma all_decimal_app (s t : string) :
  all_decimal (s ++ t) = all_decimal s && all_decimal t.
Proof.
  induction s as [|c s IH]; [reflexivity|].
  rewrite append_cons. cbn [all_decimal]. rewrite IH. apply andb_assoc.
Qed.

(** A digit of a base up to 16 is a hex character, and one of base 10 is
    a decimal character. *)
Lemma digit_hex (d : Z) : 0 <= d < 16 -> is_hex_digit (fmt.digit d) = true.
Proof.
  intros Hd.
  assert (d = 0 \/ d = 1 \/ d = 2 \/ d = 3 \/ d = 4 \/ d = 5 \/ d = 6 \/
          d = 7 \/ d = 8 \/ d = 9 \/ d = 10 \/ d = 11 \/ d = 12 \/ d = 13 \/
          d = 14 \/ d = 15) as Hcases by lia.
  repeat (destruct Hcases as [->|Hcases]; [reflexivity|]).
  subst d. reflexivity.
Qed.

Lemma digit_decimal (d : Z) :
  0 <= d < 10 -> all_decimal (String (fmt.digit d) "") = true.
Proof.
  intros Hd.
  assert (d = 0 \/ d = 1 \/ d = 2 \/ d = 3 \/ d = 4 \/ d = 5 \/ d = 6 \/
          d = 7 \/ d = 8 \/ d = 9) as Hcases by lia.
  repeat (destruct Hcases as [->|Hcases]; [reflexivity|]).
  subst d. reflexivity.
Qed.

(** The number of digits [fmt_unsigned] writes for a value below
    [base ^ k]: at least one, at most [k]. *)
Lemma fmt_unsigned_length (base : Z) (fuel k : nat) (u : Z) (acc : string) :
  2 <= base -> (1 <= k <= fuel)%nat -> 0 <= u < base ^ Z.of_nat k ->
  (S (String.length acc) <= String.length (fmt.fmt_unsigned fuel base u acc)
   <= k + String.length acc)%nat.
Proof.
  intros Hbase. revert k u acc.
  induction fuel as [|fuel IH]; intros k u acc Hk Hu; [lia|].
  cbn [fmt.fmt_unsigned].
  destruct (Z.leb_spec base u) as [Hle|Hlt]; [|cbn; lia].
  destruct k as [|[|k]]; [lia| |].
  - change (Z.of_nat 1) with 1 in Hu. rewrite Z.pow_1_r in Hu. lia.
  - assert (Hdiv : 0 <= u / base < base ^ Z.of_nat (S k)).
    { split; [apply Z.div_pos; lia|].
      apply Z.div_lt_upper_bound; [lia|].
      replace (Z.of_nat (S (S k))) with (Z.succ (Z.of_nat (S k))) in Hu by lia.
      rewrite Z.pow_succ_r in Hu by lia. lia. }
    specialize (IH (S k) (u / base) (String (fmt.digit (u mod base)) acc)
                  ltac:(lia) Hdiv).
    cbn [String.length] in IH. lia.
Qed.

Lemma fmt_unsigned_hex (fuel : nat) (u : Z) (acc : string) :
  0 <= u -> all_hex acc = true ->
  all_hex (fmt.fmt_unsigned fuel 16 u acc) = true.
Proof.
  revert u acc. induction fuel as [|fuel IH]; intros u acc Hu Hacc;
    [assumption|].
  cbn [fmt.fmt_unsigned].
  destruct (Z.leb_spec 16 u) as [Hle|Hlt].
  - apply IH; [apply Z.div_pos; lia|].
    cbn [all_hex]. rewrite digit_hex, Hacc; [reflexivity|].
    apply Z.mod_pos_bound. lia.
  - cbn [all_hex]. rewrite digit_hex, Hacc; [reflexivity|lia].
Qed.

Lemma fmt_unsigned_decimal (fuel : nat) (u : Z) (acc : string) :
  0 <= u -> all_decimal acc = true ->
  all_decimal (fmt.fmt_unsigned fuel 10 u acc) = true.
Proof.
  revert u acc. induction fuel as [|fuel IH]; intros u acc Hu Hacc;
    [assumption|].
  cbn [fmt.fmt_unsigned].
  destruct (Z.leb_spec 10 u) as [Hle|Hlt].
  - apply IH; [apply Z.div_pos; lia|].
    change (String ?c acc) with (String c "" ++ acc).
    rewrite all_decimal_app, digit_decimal, Hacc; [reflexivity|].
    apply Z.mod_pos_bound. lia.
  - change (String ?c acc) with (String c "" ++ acc).
    rewrite all_decimal_app, digit_decimal, Hacc; [reflexivity|lia].
Qed.

(** Every byte encodes to two hex characters. *)
Lemma EncodeByte_hex (b : Byte.byte) :
  String.length (hex.EncodeByte b) = 2%nat /\
  all_hex (hex.EncodeByte b) = true.
Proof. destruct b; split; reflexivity. Qed.

(** With a working random source the token is six hex characters. *)
Lemma rnd_random_six (en : Entropy) (b0 b1 b2 : Byte.byte) :
  rand_Read en = inl (b0, b1, b2) ->
  String.length (rnd en) = 6%nat /\ all_hex (rnd en) = true.
Proof.
  intros Hread. unfold rnd. rewrite Hread. cbn [hex.EncodeToString].
  destruct (EncodeByte_hex b0) as [L0 H0].
  destruct (EncodeByte_hex b1) as [L1 H1].
  destruct (EncodeByte_hex b2) as [L2 H2].
  rewrite !string_length_app, !all_hex_app, L0, L1, L2, H0, H1, H2.
  split; reflexivity.
Qed.

(** The mask [0xfffffff] keeps 28 bits. *)
Lemma fallback_range (nano : Z) : 0 <= Z.land nano 0xfffffff < 16 ^ 7.
Proof.
  change 0xfffffff with (Z.ones 28). rewrite Z.land_ones by lia.
  change (16 ^ 7) with (2 ^ 28). apply Z.mod_pos_bound. lia.
Qed.

(** With a failing random source the token is made of hex characters, at
    least one and at most seven of them; the namer still returns. *)
Lemma rnd_fallback_length (en : Entropy) (e : string) :
  rand_Read en = inr e ->
  (1 <= String.length (rnd en) <= 7)%nat /\ all_hex (rnd en) = true.
Proof.
  intros Hread. unfold rnd. rewrite Hread. unfold fmt.x, fmt.fmtInteger.
  pose proof (fallback_range (UnixNano en)) as Hr.
  destruct (Z.ltb_spec (Z.land (UnixNano en) 0xfffffff) 0) as [Hneg|_]; [lia|].
  split.
  - pose proof (fmt_unsigned_length 16 64 7 (Z.land (UnixNano en) 0xfffffff) ""
                  ltac:(lia) ltac:(lia) Hr) as Hlen.
    cbn [String.length] in Hlen. lia.
  - apply fmt_unsigned_hex; [lia|reflexivity].
Qed.

(** The shape of a timestamped name. *)
Lemma makeOutputFilename_timestamped (en : Entropy) (f : FileInfo)
    (prefix : string) :
  makeOutputFilename en f prefix false
  = (if String.eqb prefix "" then "" else prefix ++ "_")
    ++ time.Format_20060102 (ModTime f) ++ "_" ++ rnd en ++ ".avif".
Proof.
  unfold makeOutputFilename. cbn [negb].
  destruct (String.eqb prefix ""); cbn [negb]; [reflexivity|].
  rewrite string_app_assoc. reflexivity.
Qed.

Lemma zeros_length (n : nat) : String.length (time.zeros n) = n.
Proof. induction n as [|n IH]; cbn; [reflexivity|]. rewrite IH. reflexivity. Qed.

Lemma zeros_decimal (n : nat) : all_decimal (time.zeros n) = true.
Proof. induction n as [|n IH]; [reflexivity|]. cbn. assumption. Qed.

(** A field below [10 ^ width] is written with exactly [width] digits. *)
Lemma appendInt_width (v : Z) (width : nat) :
  (1 <= width <= 64)%nat -> 0 <= v < 10 ^ Z.of_nat width ->
  String.length (time.appendInt v width) = width /\
  all_decimal (time.appendInt v width) = true.
Proof.
  intros Hw Hv. unfold time.appendInt.
  destruct (Z.ltb_spec v 0) as [Hneg|_]; [lia|].
  rewrite Z.abs_eq by lia.
  pose proof (fmt_unsigned_length 10 64 width v "" ltac:(lia) ltac:(lia) Hv)
    as Hlen.
  cbn [String.length] in Hlen.
  change ("" ++ ?s) with s.
  rewrite string_length_app, zeros_length, all_decimal_app, zeros_decimal.
  split; [lia|].
  apply fmt_unsigned_decimal; [lia|reflexivity].
Qed.

(** The date of a modification time in the years 0 to 9999 is eight
    decimal digits. *)
Lemma Format_20060102_eight (t : time.Time) :
  0 <= time.Year t <= 9999 -> 1 <= time.Month t <= 12 ->
  1 <= time.Day t <= 31 ->
  String.length (time.Format_20060102 t) = 8%nat /\
  all_decimal (time.Format_20060102 t) = true.
Proof.
  intros Hy Hm Hd. unfold time.Format_20060102.
  destruct (appendInt_width (time.Year t) 4 ltac:(lia) ltac:(cbn; lia))
    as [Ly Dy].
  destruct (appendInt_width (time.Month t) 2 ltac:(lia) ltac:(cbn; lia))
    as [Lm Dm].
  destruct (appendInt_width (time.Day t) 2 ltac:(lia) ltac:(cbn; lia))
    as [Ld Dd].
  rewrite !string_length_app, !all_decimal_app, Ly, Lm, Ld, Dy, Dm, Dd.
  split; reflexivity.
Qed.

(** C5, at the input where it fails: the random source is unavailable and
    the clock reads 1700000000123456789 ns; the fallback token has seven
    hex characters, not six, and the namer returns a name built on it. *)
Theorem fallback_token_seven_chars :
  rnd entropy_failed = "d85cd15" /\
  String.length (rnd entropy_failed) = 7%nat /\
  makeOutputFilename entropy_failed photo_png "" false
  = "20250915_d85cd15.avif" /\
  makeOutputFilename entropy_failed photo_png "trip" false
  = "trip_20250915_d85cd15.avif".
Proof. repeat split; reflexivity. Qed.

(** The fallback also gives fewer than six characters: it does not pad. *)
Example fallback_token_one_char :
  rnd {| rand_Read := inr "entropy source unavailable";
         UnixNano := 1700000000165019653 |} = "5".
Proof. reflexivity. Qed.

Example makeOutputFilename_random :
  makeOutputFilename entropy_ok photo_png "" false = "20250915_a3f2c1.avif".
Proof. reflexivity. Qed.

Example makeOutputFilename_keep :
  makeOutputFilename entropy_ok photo_png "trip" true = "trip_photo.avif".
Proof. reflexivity. Qed.

(** ** The worker *)



(** A removal that is refused leaves the filesystem as it is. *)
Lemma removeTmp_refused (msg : string) (fs0 : os.filesystem) (p : string) :
  (removeTmp (Some msg) p (fs0, false)).1 = fs0.
Proof. reflexivity. Qed.


Section Worker.

(** The arguments a pool gives to all of its workers. *)
Variables (outDir prefix : string) (keepName : bool).

Let job := worker_job outDir prefix keepName.

(** The path a job asks the uniquifier for. *)
Let outPath (env : JobEnv) (fi : FileInfo) : string :=
  filepath.Join outDir (makeOutputFilename (entropy env) fi prefix keepName).

(** The body of the loop ends by sending one result, whatever happens. *)
Lemma worker_job_sends (env : JobEnv) (fi : FileInfo) (w : World) :
  exists (r : ConvertResult) (fs' : os.filesystem),
    job env fi w = send r fs' w /\
    Src r = Path fi /\ OrigBytes r = Size fi.
Proof.
  unfold job, worker_job, stat_converted, removeTmp. cbn [negb].
  worker_cases; eexists _, _; (split; [reflexivity|split; reflexivity]).
Qed.

(** The results of a worker: those it found in the channel, followed by
    one result per job, in the order of the jobs. *)
Lemma worker_results (jobs : list (JobEnv * FileInfo)) (w : World) :
  exists rs : list ConvertResult,
    results (worker outDir prefix keepName jobs w) = (results w ++ rs)%list /\
    map Src rs = map (fun j => Path j.2) jobs.
Proof.
  unfold worker. revert w.
  induction jobs as [|[env fi] jobs IH]; intros w; cbn [fold_left fst snd].
  - exists []. split; [symmetry; apply app_nil_r|reflexivity].
  - destruct (worker_job_sends env fi w) as (r & fs' & Hjob & Hsrc & _).
    destruct (IH (job env fi w)) as (rs & Hres & Hmap).
    exists (r :: rs). split.
    + unfold job in Hres, Hjob. rewrite Hres, Hjob. cbn [send results].
      rewrite <- app_assoc. reflexivity.
    + cbn [map snd]. rewrite Hsrc, Hmap. reflexivity.
Qed.

(** C6: every job adds exactly one result to the channel, in whichever
    branch the job ends; a worker that takes [n] jobs sends [n] results,
    one for each job. *)
Theorem worker_one_result_per_job :
  (forall (env : JobEnv) (fi : FileInfo) (w : World),
     exists r : ConvertResult,
       results (worker_job outDir prefix keepName env fi w)
       = (results w ++ [r])%list /\ Src r = Path fi) /\
  (forall (jobs : list (JobEnv * FileInfo)) (w : World),
     length (results (worker outDir prefix keepName jobs w))
     = (length (results w) + length jobs)%nat /\
     exists rs : list ConvertResult,
       results (worker outDir prefix keepName jobs w) = (results w ++ rs)%list /\
       map Src rs = map (fun j => Path j.2) jobs).
Proof.
  split.
  - intros env fi w.
    destruct (worker_job_sends env fi w) as (r & fs' & Hjob & Hsrc & _).
    exists r. unfold job in Hjob. rewrite Hjob.
    split; [reflexivity|assumption].
  - intros jobs w.
    destruct (worker_results jobs w) as (rs & Hres & Hmap).
    split; [|exists rs; split; assumption].
    rewrite Hres, length_app. f_equal.
    rewrite <- (length_map Src rs), Hmap, length_map. reflexivity.
Qed.


(** A job that ends before the temporary file exists (no name could be
    allocated, or the temporary file could not be created) leaves the
    filesystem as it found it. *)
Lemma early_failure_writes_nothing (env : JobEnv) (fi : FileInfo) (w : World) :
  (ensureUniquePath (Lookup_fault env) (fs w) (outPath env fi)).2 <> None \/
  (sys.CreateTemp (CreateTemp_fault env) (TempRandom env) (fs w)
     (filepath.Dir
        (ensureUniquePath (Lookup_fault env) (fs w) (outPath env fi)).1)
     "avif_tmp_*.avif").2 <> None ->
  fs (job env fi w) = fs w.
Proof.
  unfold job, worker_job. fold (outPath env fi).
  destruct (ensureUniquePath (Lookup_fault env) (fs w) (outPath env fi))
    as [uniquePath [e|]];
    cbn [fst snd]; [reflexivity|].
  destruct (sys.CreateTemp _ _ _ _ _) as [[fs1 tmpPath] [terr|]];
    cbn [fst snd]; [reflexivity|].
  intros [H|H]; contradiction.
Qed.

End Worker.



(** The ways a job ends after the temporary file is created, on the
    sample inputs: nothing is left besides the converted file. *)
Example job_ok_leaves :
  fs (worker_job "out" "" true job_ok photo_png world0)
  = <["out/photo.avif" := RegularFile 50]> empty_out.
Proof. vm_compute. reflexivity. Qed.

Example job_encoder_fails_leaves :
  fs (worker_job "out" "" true job_encoder_fails photo_png world0) = empty_out.
Proof. vm_compute. reflexivity. Qed.

Example job_rename_fails_leaves :
  fs (worker_job "out" "" true job_rename_fails photo_png world0)
  = <["out/photo.avif" := RegularFile 50]> empty_out.
Proof. vm_compute. reflexivity. Qed.

Example job_rename_fails_result :
  results (worker_job "out" "" true job_rename_fails photo_png world0)
  = [{| Src := "in/photo.png"; Dst := "out/photo.avif"; OrigBytes := 100;
        ConvBytes := 50; Err := None |}].
Proof. vm_compute. reflexivity. Qed.

(** ** The shape of a result *)

Lemma append_nonempty_r (s t : string) : t <> "" -> s ++ t <> "".
Proof.
  intros Ht. destruct s as [|c s]; [exact Ht|].
  rewrite append_cons. discriminate.
Qed.

Lemma append_nonempty_l (s t : string) : s <> "" -> s ++ t <> "".
Proof.
  intros Hs. destruct s as [|c s]; [contradiction|].
  rewrite append_cons. discriminate.
Qed.

(** [Clean] keeps no empty element. *)
Lemma clean_step_nonempty (rooted : bool) (out : list string) (e : string) :
  Forall (fun s => s <> "") out ->
  Forall (fun s => s <> "") (filepath.clean_step rooted out e).
Proof.
  intros Hout. unfold filepath.clean_step.
  destruct (String.eqb_spec e "") as [|Hne]; [assumption|].
  destruct (String.eqb e "."); [assumption|].
  destruct (String.eqb e "..").
  - destruct out as [|top below].
    + destruct rooted; [assumption|]. constructor; [assumption|constructor].
    + destruct (String.eqb top "..").
      * constructor; assumption.
      * inversion Hout; assumption.
  - constructor; assumption.
Qed.

Lemma clean_fold_nonempty (rooted : bool) (elems out : list string) :
  Forall (fun s => s <> "") out ->
  Forall (fun s => s <> "") (fold_left (filepath.clean_step rooted) elems out).
Proof.
  revert out. induction elems as [|e elems IH]; intros out Hout; [assumption|].
  cbn [fold_left]. apply IH. apply clean_step_nonempty. assumption.
Qed.

Lemma strings_Join_nonempty (elems : list string) (sep : string) :
  elems <> [] -> Forall (fun s => s <> "") elems ->
  strings.Join elems sep <> "".
Proof.
  intros Hne Hall. destruct elems as [|e rest]; [contradiction|].
  inversion Hall as [|? ? He _]; subst.
  destruct rest as [|e' rest']; cbn [strings.Join]; [assumption|].
  apply append_nonempty_l. assumption.
Qed.

Lemma Clean_nonempty (path : string) : filepath.Clean path <> "".
Proof.
  unfold filepath.Clean. destruct path as [|c path]; [discriminate|].
  destruct (filepath.IsPathSeparator c).
  - apply append_nonempty_l. discriminate.
  - pose proof (clean_fold_nonempty false (filepath.split (String c path)) []
                  ltac:(constructor)) as Hall.
    apply Forall_rev in Hall.
    destruct (rev (fold_left (filepath.clean_step false)
                     (filepath.split (String c path)) [])) as [|e out] eqn:E;
      [discriminate|].
    apply strings_Join_nonempty; [discriminate|assumption].
Qed.

Lemma Join_nonempty (a b : string) : b <> "" -> filepath.Join a b <> "".
Proof.
  intros Hb. unfold filepath.Join.
  destruct (String.eqb a ""); cbn [negb].
  - destruct (String.eqb_spec b ""); [contradiction|]. cbn [negb].
    apply Clean_nonempty.
  - apply Clean_nonempty.
Qed.

(** The namer never returns the empty name: it ends in [.avif]. *)
Lemma makeOutputFilename_nonempty (en : Entropy) (f : FileInfo)
    (prefix : string) (keepName : bool) :
  makeOutputFilename en f prefix keepName <> "".
Proof.
  unfold makeOutputFilename.
  destruct keepName; destruct (negb (String.eqb prefix ""));
    repeat (apply append_nonempty_r); discriminate.
Qed.

Lemma candidate_nonempty (path : string) (i : Z) : candidate path i <> "".
Proof.
  unfold candidate. apply Join_nonempty.
  apply append_nonempty_r, append_nonempty_l. discriminate.
Qed.

(** A path resolved by [ensureUniquePath] for a non-empty request is not
    empty. *)
Lemma ensureUniquePath_nonempty (fault : string -> option string)
    (fs0 : os.filesystem) (path p : string) :
  path <> "" -> ensureUniquePath fault fs0 path = (p, None) -> p <> "".
Proof.
  intros Hpath. unfold ensureUniquePath.
  destruct (not_exist fault fs0 path).
  - intros [= <-]. assumption.
  - destruct (unique_search fault fs0 path 1000 1) as [c|] eqn:Hs;
      [|discriminate].
    intros [= <-].
    destruct (unique_search_some _ _ _ _ _ _ Hs) as (n & _ & -> & _).
    apply candidate_nonempty.
Qed.

(** When [ensureUniquePath] fails it returns the empty path. *)
Lemma ensureUniquePath_error (fault : string -> option string)
    (fs0 : os.filesystem) (path p e : string) :
  ensureUniquePath fault fs0 path = (p, Some e) ->
  p = "" /\ e = "could not find unique name for " ++ path.
Proof.
  unfold ensureUniquePath.
  destruct (not_exist fault fs0 path); [discriminate|].
  destruct (unique_search fault fs0 path 1000 1); [discriminate|].
  intros [= <- <-]. split; reflexivity.
Qed.

Lemma stat_converted_shape (env : JobEnv) (res : ConvertResult)
    (uniquePath : string) (fs5 : os.filesystem) (w : World) :
  Dst res = uniquePath -> ConvBytes res = 0 ->
  exists r : ConvertResult,
    stat_converted env res uniquePath fs5 w = send r fs5 w /\
    Dst r = uniquePath /\
    match Err r with
    | None => exists st, fs5 !! uniquePath = Some st /\ ConvBytes r = StSize st
    | Some _ => ConvBytes r = 0
    end.
Proof.
  intros Hdst Hconv. unfold stat_converted, sys.Stat.
  destruct (Stat_fault env) as [msg|].
  - eexists. split; [reflexivity|]. cbn. auto.
  - unfold os.Stat. destruct (fs5 !! uniquePath) as [st|] eqn:Hst.
    + eexists. split; [reflexivity|]. cbn. split; [assumption|].
      exists st. auto.
    + destruct (os.too_long uniquePath), (os.through_a_file fs5 uniquePath);
        eexists; (split; [reflexivity|]); cbn; auto.
Qed.

(** C2, as the code has it: a job sends one result, which is either a
    success, with the resolved destination and the size [Stat] reports for
    it, or a failure, with the converted size unset.  A failure carries no
    destination when the name could not be allocated, and carries the
    resolved destination when the job failed later (temporary file,
    encoder, save, stat). *)
Theorem result_shape (outDir prefix : string) (keepName : bool)
    (env : JobEnv) (fi : FileInfo) (w : World) :
  let outPath :=
    filepath.Join outDir
      (makeOutputFilename (entropy env) fi prefix keepName) in
  let w' := worker_job outDir prefix keepName env fi w in
  exists r : ConvertResult,
    results w' = (results w ++ [r])%list /\
    match Err r with
    | None =>
        ensureUniquePath (Lookup_fault env) (fs w) outPath = (Dst r, None) /\
        Dst r <> "" /\
        exists st, fs w' !! Dst r = Some st /\ ConvBytes r = StSize st
    | Some _ =>
        ConvBytes r = 0 /\
        match (ensureUniquePath (Lookup_fault env) (fs w) outPath).2 with
        | Some _ => Dst r = ""
        | None =>
            Dst r = (ensureUniquePath (Lookup_fault env) (fs w) outPath).1 /\
            Dst r <> ""
        end
    end.
Proof.
  intros outPath w'. subst w'. unfold worker_job. fold outPath.
  assert (Hout : outPath <> "")
    by (apply Join_nonempty, makeOutputFilename_nonempty).
  destruct (ensureUniquePath (Lookup_fault env) (fs w) outPath)
    as [uniquePath [e|]] eqn:Hunique; cbn [fst snd].
  { eexists. split; [reflexivity|]. cbn. auto. }
  pose proof (ensureUniquePath_nonempty _ _ _ _ Hout Hunique) as Hne.
  destruct (sys.CreateTemp _ _ _ _ _) as [[fs1 tmpPath] [terr|]].
  { eexists. split; [reflexivity|]. cbn. auto. }
  destruct (sys.run_avifenc _ _ _ _) as [[fs2 out] [eerr|]].
  { destruct (removeTmp _ tmpPath (fs2, false)) as [fs3 flag].
    eexists. split; [reflexivity|]. cbn. auto. }
  destruct (sys.Rename _ _ _ _) as [fs3 [rerr|]].
  - destruct (copyFile env fs2 tmpPath uniquePath) as [fs4 [cerr|]].
    { destruct (removeTmp _ tmpPath (fs4, false)) as [fs5 flag].
      eexists. split; [reflexivity|]. cbn. auto. }
    edestruct stat_converted_shape as (r & -> & Hdst & Hr);
      [reflexivity|reflexivity|].
    exists r. split; [reflexivity|]. cbn [send fs].
    rewrite Hdst. revert Hr. destruct (Err r); intros Hr; auto.
  - edestruct stat_converted_shape as (r & -> & Hdst & Hr);
      [reflexivity|reflexivity|].
    exists r. split; [reflexivity|]. cbn [send fs].
    rewrite Hdst. revert Hr. destruct (Err r); intros Hr; auto.
Qed.

(** C2 as stated fails: the job whose temporary file cannot be created
    reports a failure that carries the destination path. *)
Lemma failure_carries_destination :
  results (worker_job "out" "" true job_temp_fails photo_png world0)
  = [{| Src := "in/photo.png"; Dst := "out/photo.avif"; OrigBytes := 100;
        ConvBytes := 0;
        Err := Some "create temp file: no space left on device" |}] /\
  ~ failure_leaves_both_unset
      {| Src := "in/photo.png"; Dst := "out/photo.avif"; OrigBytes := 100;
         ConvBytes := 0;
         Err := Some "create temp file: no space left on device" |}.
Proof.
  split; [vm_compute; reflexivity|].
  unfold failure_leaves_both_unset. cbn. intros H.
  destruct (H ltac:(discriminate)) as [Hdst _]. discriminate.
Qed.

(** ** The scanner *)

(** The allow-set, as a list. *)
Lemma extAllowed_accepted (ext : string) :
  bool_at extAllowed ext = true -> In ext accepted_exts.
Proof.
  unfold bool_at, extAllowed. intros H.
  destruct (list_to_map _ !! ext) as [b|] eqn:E; [|discriminate].
  apply elem_of_list_to_map_2 in E. apply list_elem_of_In in E.
  cbn [In] in E. unfold accepted_exts. cbn [In].
  repeat (destruct E as [E|E]; [injection E as <- _; tauto|]).
  contradiction.
Qed.

Lemma normalize_accepted (ext : string) :
  In ext accepted_exts ->
  In (if String.eqb ext "jpeg" then "jpg" else ext) normalized_exts /\
  (if String.eqb ext "jpeg" then "jpg" else ext) <> "jpeg".
Proof.
  unfold accepted_exts, normalized_exts. cbn [In]. intros H.
  repeat (destruct H as [<-|H]; [cbn; split; [tauto|discriminate]|]).
  contradiction.
Qed.

(** The callback never returns an error, and it records what [recorded]
    says. *)
Lemma walkFn_recorded (out : list FileInfo) (counts : gmap string Z)
    (e : WalkEntry) :
  walkFn (out, counts) e
  = (match recorded e with
     | Some fi => ((out ++ [fi])%list, count_one counts fi)
     | None => (out, counts)
     end, None).
Proof.
  unfold walkFn, recorded, count_one.
  destruct (walkErr e); [reflexivity|].
  destruct (d_IsDir e); [reflexivity|].
  destruct (String.eqb (scan_ext (w_path e)) ""); cbn [negb andb].
  - destruct (d_Info e) as [[mtime size]|]; reflexivity.
  - destruct (bool_at extAllowed (scan_ext (w_path e))); cbn [negb];
      destruct (d_Info e) as [[mtime size]|]; reflexivity.
Qed.

Lemma WalkDir_walkFn (walk : list WalkEntry) (out : list FileInfo)
    (counts : gmap string Z) :
  WalkDir walk walkFn (out, counts)
  = (((out ++ omap recorded walk)%list,
      fold_left count_one (omap recorded walk) counts), None).
Proof.
  revert out counts. induction walk as [|e walk IH]; intros out counts.
  - cbn. rewrite app_nil_r. reflexivity.
  - cbn [WalkDir omap list_omap]. rewrite walkFn_recorded.
    destruct (recorded e) as [fi|]; rewrite IH.
    + cbn [fold_left]. rewrite <- app_assoc. reflexivity.
    + reflexivity.
Qed.

(** The scan returns the recorded entries, in the order of the walk, and
    their counts; it never returns an error. *)
Lemma scanDirectory_recorded (walk : list WalkEntry) :
  scanDirectory walk
  = (omap recorded walk, fold_left count_one (omap recorded walk) ∅, None).
Proof. unfold scanDirectory. rewrite WalkDir_walkFn. reflexivity. Qed.

(** The count of a key after a list of files is counted. *)
Lemma count_one_lookup (files : list FileInfo) (counts : gmap string Z)
    (k : string) :
  fold_left count_one files counts !! k
  = match count_ext k files with
    | O => counts !! k
    | S n => Some (int64 (int_at counts k + Z.of_nat (S n)))
    end.
Proof.
  revert counts. induction files as [|fi files IH]; intros counts;
    [reflexivity|].
  cbn [fold_left]. rewrite IH. unfold count_ext. cbn [List.filter].
  destruct (String.eqb_spec (Ext fi) k) as [Heq|Hne].
  - cbn [length]. fold (count_ext k files).
    unfold count_one at 1 2. rewrite Heq.
    destruct (count_ext k files) as [|n].
    + rewrite lookup_insert_eq. do 2 f_equal.
    + unfold int_at at 1. rewrite lookup_insert_eq. cbn [from_option].
      unfold id. rewrite int64_add. do 2 f_equal. lia.
  - fold (count_ext k files). unfold int_at, count_one.
    rewrite lookup_insert_ne by assumption. reflexivity.
Qed.

Lemma count_ext_zero (k : string) (files : list FileInfo) :
  count_ext k files = O <-> forall fi, In fi files -> Ext fi <> k.
Proof.
  unfold count_ext. induction files as [|fi files IH]; cbn [List.filter In].
  - split; [intros _ fi []|reflexivity].
  - destruct (String.eqb_spec (Ext fi) k) as [Heq|Hne]; cbn [length].
    + split; [discriminate|]. intros H. exfalso. apply (H fi); auto.
    + rewrite IH. split.
      * intros H fi' [<-|Hin]; auto.
      * intros H fi' Hin. apply H. auto.
Qed.

(** What is recorded for an entry has an accepted extension, normalized. *)
Lemma recorded_ext (e : WalkEntry) (fi : FileInfo) :
  recorded e = Some fi ->
  Path fi = w_path e /\
  scan_ext (Path fi) <> "" /\
  In (scan_ext (Path fi)) accepted_exts /\
  Ext fi = (if String.eqb (scan_ext (Path fi)) "jpeg" then "jpg"
            else scan_ext (Path fi)).
Proof.
  unfold recorded.
  destruct (walkErr e); [discriminate|].
  destruct (d_IsDir e); [discriminate|].
  destruct (d_Info e) as [[mtime size]|]; [|discriminate].
  destruct (String.eqb_spec (scan_ext (w_path e)) "") as [|Hne];
    cbn [negb andb]; [discriminate|].
  destruct (bool_at extAllowed (scan_ext (w_path e))) eqn:Hallowed;
    [|discriminate].
  intros [= <-]. cbn [Path Ext].
  repeat split; auto using extAllowed_accepted.
Qed.

(** The extension the scanner computes does not depend on the case of
    the letters: every spelling of a word of the allow-set after the last
    dot gives that word. *)
Lemma scan_ext_spelled (word stem s : string) :
  In word accepted_exts -> spells s word -> scan_ext (stem ++ "." ++ s) = word.
Proof.
  intros Hin Hsp. cbn in Hin.
  repeat (destruct Hin as [<-|Hin];
          [spell_out Hsp; unfold scan_ext;
           (rewrite Ext_dot by reflexivity);
           vm_compute; reflexivity|]).
  destruct Hin.
Qed.

(** A path without extension has no scanned extension. *)
Lemma scan_ext_none (path : string) :
  filepath.Ext path = "" -> scan_ext path = "".
Proof. unfold scan_ext. intros ->. reflexivity. Qed.

(** C4: a file whose lowercased extension is [jpeg] is listed and counted
    under [jpg]; nothing is listed or counted under [jpeg]; every listed
    file has an extension of the allow-set, normalized into
    [{jpg, png, bmp, tiff, webp, heic}]; and the counts are those of the
    list, so a file without extension or with another extension is in
    neither.  The extension is what follows the last dot, whatever the
    case of its letters: a name that ends in a dot and a word of the
    allow-set, spelled with small or capital letters, is listed under
    that word, [jpeg] under [jpg]. *)
Theorem scanDirectory_spec (walk : list WalkEntry) :
  let out := (scanDirectory walk).1.1 in
  let counts := (scanDirectory walk).1.2 in
  (forall e mtime size,
     In e walk -> walkErr e = None -> d_IsDir e = false ->
     d_Info e = inl (mtime, size) -> scan_ext (w_path e) = "jpeg" ->
     In {| Path := w_path e; ModTime := mtime; Ext := "jpg"; Size := size |}
        out /\
     exists c, counts !! "jpg" = Some c /\
               c = int64 (Z.of_nat (count_ext "jpg" out)) /\
               (1 <= count_ext "jpg" out)%nat) /\
  (forall fi, In fi out -> Ext fi <> "jpeg") /\
  counts !! "jpeg" = None /\
  (forall fi, In fi out ->
     In (Ext fi) normalized_exts /\
     scan_ext (Path fi) <> "" /\
     In (scan_ext (Path fi)) accepted_exts /\
     Ext fi = (if String.eqb (scan_ext (Path fi)) "jpeg" then "jpg"
               else scan_ext (Path fi))) /\
  (forall k, counts !! k
             = match count_ext k out with
               | O => None
               | S n => Some (int64 (Z.of_nat (S n)))
               end) /\
  (forall e stem s word mtime size,
     In e walk -> walkErr e = None -> d_IsDir e = false ->
     d_Info e = inl (mtime, size) ->
     w_path e = stem ++ "." ++ s -> In word accepted_exts -> spells s word ->
     In {| Path := w_path e; ModTime := mtime;
           Ext := if String.eqb word "jpeg" then "jpg" else word;
           Size := size |} out) /\
  (forall fi, In fi out -> filepath.Ext (Path fi) <> "").
Proof.
  intros out counts. subst out counts.
  rewrite scanDirectory_recorded. cbn [fst snd].
  assert (Hlisted : forall fi, In fi (omap recorded walk) ->
            In (Ext fi) normalized_exts /\ Ext fi <> "jpeg" /\
            scan_ext (Path fi) <> "" /\
            In (scan_ext (Path fi)) accepted_exts /\
            Ext fi = (if String.eqb (scan_ext (Path fi)) "jpeg" then "jpg"
                      else scan_ext (Path fi))).
  { intros fi Hin. apply list_elem_of_In, list_elem_of_omap in Hin.
    destruct Hin as (e & _ & Hrec).
    destruct (recorded_ext e fi Hrec) as (_ & Hne & Hacc & Hext).
    destruct (normalize_accepted _ Hacc) as [Hnorm Hnot].
    rewrite <- Hext in Hnorm, Hnot. auto. }
  assert (Hcounts : forall k,
            fold_left count_one (omap recorded walk) ∅ !! k
            = match count_ext k (omap recorded walk) with
              | O => None
              | S n => Some (int64 (Z.of_nat (S n)))
              end).
  { intros k. rewrite count_one_lookup.
    destruct (count_ext k (omap recorded walk)); [apply lookup_empty|].
    unfold int_at. rewrite lookup_empty. reflexivity. }
  split; [|split; [|split; [|split; [|split; [|split]]]]].
  - intros e mtime size Hin Herr Hdir Hinfo Hext.
    assert (Hrec : recorded e
                   = Some {| Path := w_path e; ModTime := mtime;
                             Ext := "jpg"; Size := size |}).
    { unfold recorded. rewrite Herr, Hdir, Hinfo, Hext. reflexivity. }
    assert (Hlist : In {| Path := w_path e; ModTime := mtime; Ext := "jpg";
                          Size := size |} (omap recorded walk)).
    { apply list_elem_of_In, list_elem_of_omap. exists e.
      split; [apply list_elem_of_In|]; assumption. }
    split; [assumption|].
    rewrite Hcounts.
    destruct (count_ext "jpg" (omap recorded walk)) as [|n] eqn:Hn.
    + exfalso. rewrite count_ext_zero in Hn. apply (Hn _ Hlist). reflexivity.
    + eexists. split; [reflexivity|]. split; [reflexivity|lia].
  - intros fi Hin. apply Hlisted. assumption.
  - rewrite Hcounts.
    destruct (count_ext "jpeg" (omap recorded walk)) as [|n] eqn:Hn;
      [reflexivity|].
    exfalso.
    assert (Hz : count_ext "jpeg" (omap recorded walk) = O).
    { apply count_ext_zero. intros fi Hin. apply Hlisted. assumption. }
    congruence.
  - intros fi Hin. destruct (Hlisted fi Hin) as (H1 & _ & H2 & H3 & H4). auto.
  - exact Hcounts.
  - intros e stem s word mtime size Hin Herr Hdir Hinfo Hpath Hword Hsp.
    apply list_elem_of_In, list_elem_of_omap. exists e.
    split; [apply list_elem_of_In; assumption|].
    pose proof (scan_ext_spelled word stem s Hword Hsp) as Hext.
    rewrite <- Hpath in Hext.
    unfold recorded. rewrite Herr, Hdir, Hinfo, Hext.
    cbn in Hword.
    repeat (destruct Hword as [<-|Hword]; [reflexivity|]). destruct Hword.
  - intros fi Hin Hnone. destruct (Hlisted fi Hin) as (_ & _ & Hne & _).
    apply Hne, scan_ext_none, Hnone.
Qed.

Lemma scanDirectory_spec_witness :
  In {| Path := "in/a.jpeg"; ModTime := sample_time; Ext := "jpg";
        Size := 100 |} (scanDirectory sample_walk).1.1 /\
  (scanDirectory sample_walk).1.2 !! "jpeg" = None /\
  In {| Path := "in/b.JPG"; ModTime := sample_time; Ext := "jpg";
        Size := 200 |} (scanDirectory sample_walk).1.1.
Proof.
  split; [|split].
  - apply (proj1 (scanDirectory_spec sample_walk)
             (entry "in/a.jpeg" 100) sample_time 100);
      try reflexivity.
    cbn. tauto.
  - apply (proj1 (proj2 (proj2 (scanDirectory_spec sample_walk)))).
  - apply (proj1 (proj2 (proj2 (proj2 (proj2 (proj2
             (scanDirectory_spec sample_walk))))))
             (entry "in/b.JPG" 200) "in/b" "JPG" "jpg" sample_time 200);
      try reflexivity.
    + cbn. tauto.
    + cbn. tauto.
    + cbn. tauto.
Defined.

(** Capitals past ASCII are lowered too: [U+0130], the dotted capital I,
    becomes [i], so [x.HEİC] is listed as a [heic] file. *)
Example scanDirectory_dotted_I :
  (scanDirectory [entry "in/x.HEİC" 7; entry "in/y.TİFF" 8]).1.1
  = [ {| Path := "in/x.HEİC"; ModTime := sample_time; Ext := "heic";
         Size := 7 |};
      {| Path := "in/y.TİFF"; ModTime := sample_time; Ext := "tiff";
         Size := 8 |} ].
Proof. vm_compute. reflexivity. Qed.

Example scanDirectory_sample :
  scanDirectory sample_walk
  = ([ {| Path := "in/a.jpeg"; ModTime := sample_time; Ext := "jpg";
          Size := 100 |};
       {| Path := "in/b.JPG"; ModTime := sample_time; Ext := "jpg";
          Size := 200 |};
       {| Path := "in/photo.png"; ModTime := sample_time; Ext := "png";
          Size := 100 |} ],
     {[ "jpg" := 2; "png" := 1 ]}, None).
Proof. vm_compute. reflexivity. Qed.

(** ** The steps of a job on the filesystem *)

Lemma CreateTemp_created (fault : option string) (random : Z)
    (fs0 fs1 : os.filesystem) (dir pattern tmpPath : string) :
  sys.CreateTemp fault random fs0 dir pattern = (fs1, tmpPath, None) ->
  fs0 !! tmpPath = None /\ fs1 = <[tmpPath := RegularFile 0]> fs0.
Proof.
  unfold sys.CreateTemp. destruct fault; [discriminate|].
  destruct (sys.prefixAndSuffix pattern) as [pre suf].
  destruct (fs0 !! filepath.Join dir (pre ++ fmt.d random ++ suf)) eqn:E;
    [discriminate|].
  intros [= <- <-]. auto.
Qed.

Lemma CreateTemp_failed (fault : option string) (random : Z)
    (fs0 fs1 : os.filesystem) (dir pattern tmpPath : string)
    (e : os.PathError) :
  sys.CreateTemp fault random fs0 dir pattern = (fs1, tmpPath, Some e) ->
  fs1 = fs0.
Proof.
  unfold sys.CreateTemp. destruct fault; [intros [= <- _ _]; reflexivity|].
  destruct (sys.prefixAndSuffix pattern) as [pre suf].
  destruct (fs0 !! filepath.Join dir (pre ++ fmt.d random ++ suf));
    [|discriminate].
  intros [= <- _ _]. reflexivity.
Qed.

Lemma Remove_other (fs0 : os.filesystem) (p q : string) :
  p <> q -> (os.Remove fs0 q).1 !! p = fs0 !! p.
Proof.
  intros Hne. unfold os.Remove. destruct (fs0 !! q); cbn [fst]; [|reflexivity].
  apply lookup_delete_ne. congruence.
Qed.

Lemma Remove_is_delete (fs0 : os.filesystem) (q : string) :
  (os.Remove fs0 q).1 = delete q fs0.
Proof.
  unfold os.Remove. destruct (fs0 !! q) eqn:E; cbn [fst]; [reflexivity|].
  symmetry. apply delete_id. assumption.
Qed.

(** What is kept stays kept when paths outside of it are written or
    removed. *)
Lemma kept_refl (init : os.filesystem) : kept init init.
Proof. intros p n H. exact H. Qed.

Lemma kept_trans (init fs0 fs1 : os.filesystem) :
  kept init fs0 -> kept fs0 fs1 -> kept init fs1.
Proof. intros H0 H1 p n H. apply H1, H0, H. Qed.

Lemma kept_absent (init fs0 : os.filesystem) (p : string) :
  kept init fs0 -> fs0 !! p = None -> init !! p = None.
Proof.
  intros Hkept Hp. destruct (init !! p) as [n|] eqn:E; [|reflexivity].
  apply Hkept in E. congruence.
Qed.

Lemma kept_insert (init fs0 : os.filesystem) (p : string) (x : node) :
  kept init fs0 -> init !! p = None -> kept init (<[p := x]> fs0).
Proof.
  intros Hkept Hp q n Hq. rewrite lookup_insert_ne; [auto|].
  intros ->. congruence.
Qed.

Lemma kept_delete (init fs0 : os.filesystem) (p : string) :
  kept init fs0 -> init !! p = None -> kept init (delete p fs0).
Proof.
  intros Hkept Hp q n Hq. rewrite lookup_delete_ne; [auto|].
  intros ->. congruence.
Qed.

Lemma kept_Remove (init fs0 : os.filesystem) (fault : option string)
    (p : string) :
  kept init fs0 -> init !! p = None -> kept init (sys.Remove fault fs0 p).1.
Proof.
  intros Hkept Hp. unfold sys.Remove. destruct fault; [assumption|].
  rewrite Remove_is_delete. apply kept_delete; assumption.
Qed.

Lemma kept_removeTmp (init fs0 : os.filesystem) (fault : option string)
    (p : string) :
  kept init fs0 -> init !! p = None ->
  kept init (removeTmp fault p (fs0, false)).1.
Proof. intros. unfold removeTmp. cbn [negb fst]. apply kept_Remove; auto. Qed.

Lemma kept_avifenc (init fs0 : os.filesystem) (run : EncoderRun)
    (src dst : string) :
  kept init fs0 -> init !! dst = None ->
  kept init (sys.run_avifenc run fs0 src dst).1.1.
Proof.
  intros Hkept Hdst. destruct run; cbn [sys.run_avifenc fst];
    apply kept_insert; assumption.
Qed.

Lemma kept_Rename (init fs0 : os.filesystem) (fault : option string)
    (old new : string) :
  kept init fs0 -> init !! old = None -> init !! new = None ->
  kept init (sys.Rename fault fs0 old new).1.
Proof.
  intros Hkept Hold Hnew. unfold sys.Rename. destruct fault; [assumption|].
  destruct (fs0 !! old); [|assumption].
  cbn [fst]. apply kept_insert; [apply kept_delete|]; assumption.
Qed.

(** ** The job as a process *)

Lemma good_mono (init : os.filesystem) (src : string) (n m : nat) (p : Proc) :
  good init src n p -> (n <= m)%nat -> good init src m p.
Proof.
  intros H. revert m. induction H as [n res Hsrc|n call Hkept _ IH];
    intros m Hle.
  - constructor. assumption.
  - destruct m as [|m]; [lia|].
    constructor; [assumption|]. intros fs0 Hfs. apply IH; [assumption|lia].
Qed.

Lemma good_call (init : os.filesystem) (src : string) (n : nat)
    (call : os.filesystem -> os.filesystem * Proc) :
  (forall fs0, kept init fs0 ->
     kept init (call fs0).1 /\ good init src n (call fs0).2) ->
  good init src (S n) (Sys call).
Proof.
  intros H. constructor; intros fs0 Hfs; apply (H fs0 Hfs).
Qed.

Section Good.

Variables (init : os.filesystem) (src : string).

(** The loop of the uniquifier from [i] makes [1000 - i] calls at most,
    and goes on with a path at which [init] holds nothing. *)
Lemma unique_loop_good (fault : string -> option string) (path : string)
    (n : nat) (k : string * error -> Proc) :
  (forall q, init !! q = None -> good init src n (k (q, None))) ->
  (forall e, good init src n (k ("", Some e))) ->
  forall (fuel : nat) (i : Z),
    good init src (Z.to_nat (1000 - i) + n) (unique_loop fault path fuel i k).
Proof.
  intros Hq He. induction fuel as [|fuel IH]; intros i; cbn [unique_loop].
  - apply (good_mono _ _ n); [apply He|lia].
  - destruct (Z.ltb_spec i 1000) as [Hlt|Hge].
    + replace (Z.to_nat (1000 - i) + n)%nat
        with (S (Z.to_nat (1000 - (i + 1)) + n)) by lia.
      apply good_call. intros fs0 Hfs. cbn [fst snd]. split; [assumption|].
      destruct (not_exist fault fs0 (candidate path i)) eqn:Hne.
      * apply (good_mono _ _ n); [|lia]. apply Hq.
        apply (kept_absent init fs0); [assumption|].
        apply (not_exist_free fault). assumption.
      * apply IH.
    + apply (good_mono _ _ n); [apply He|lia].
Qed.

Lemma ensureUniquePath_proc_good (fault : string -> option string)
    (path : string) (n : nat) (k : string * error -> Proc) :
  (forall q, init !! q = None -> good init src n (k (q, None))) ->
  (forall e, good init src n (k ("", Some e))) ->
  good init src (1000 + n) (ensureUniquePath_proc fault path k).
Proof.
  intros Hq He. unfold ensureUniquePath_proc.
  change (1000 + n)%nat with (S (Z.to_nat (1000 - 1) + n)).
  apply good_call. intros fs0 Hfs. cbn [fst snd]. split; [assumption|].
  destruct (not_exist fault fs0 path) eqn:Hne.
  - apply (good_mono _ _ n); [|lia]. apply Hq.
    apply (kept_absent init fs0); [assumption|].
    apply (not_exist_free fault). assumption.
  - apply unique_loop_good; assumption.
Qed.

Lemma copyFile_proc_good (env : JobEnv) (from to : string) (n : nat)
    (k : error -> Proc) :
  init !! to = None ->
  (forall e, good init src n (k e)) ->
  good init src (3 + n) (copyFile_proc env from to k).
Proof.
  intros Hto Hk. unfold copyFile_proc.
  apply good_call. intros fs0 Hfs.
  destruct (sys.Open (Open_fault env) fs0 from); cbn [fst snd];
    (split; [assumption|]); [|apply (good_mono _ _ n); [apply Hk|lia]].
  apply good_call. intros fs1 Hfs1.
  destruct (Create_fault env); cbn [fst snd].
  { split; [assumption|]. apply (good_mono _ _ n); [apply Hk|lia]. }
  split; [apply kept_insert; assumption|].
  apply good_call. intros fs2 Hfs2.
  destruct (Copy_fault env) as [[msg written]|]; cbn [fst snd].
  { split; [apply kept_insert; assumption|apply Hk]. }
  destruct (fs2 !! from) as [node|]; [|split; [assumption|apply Hk]].
  destruct (IsDir node); cbn [fst snd]; (split; [|apply Hk]);
    [assumption|apply kept_insert; assumption].
Qed.

Lemma stat_proc_good (env : JobEnv) (res : ConvertResult)
    (uniquePath : string) :
  Src res = src -> good init src 1 (stat_proc env res uniquePath).
Proof.
  intros Hsrc. unfold stat_proc. apply good_call. intros fs0 Hfs.
  cbn [fst snd]. split; [assumption|].
  destruct (sys.Stat (Stat_fault env) fs0 uniquePath);
    constructor; exact Hsrc.
Qed.

End Good.

(** Whatever was on disk before the pool started, a job keeps it; it
    makes at most 1008 calls and sends one result, for its file. *)
Lemma job_good (init : os.filesystem) (outDir prefix : string)
    (keepName : bool) (env : JobEnv) (fi : FileInfo) :
  good init (Path fi) 1008 (job_proc outDir prefix keepName env fi).
Proof.
  unfold job_proc.
  apply (ensureUniquePath_proc_good init (Path fi) _ _ 8);
    [|intros e; constructor; reflexivity].
  intros uniquePath Hunique.
  apply good_call. intros fs0 Hfs.
  destruct (sys.CreateTemp _ _ _ _ _) as [[fs1 tmpPath] [terr|]] eqn:Htemp;
    cbn [fst snd].
  { split; [assumption|]. constructor. reflexivity. }
  destruct (CreateTemp_created _ _ _ _ _ _ _ Htemp) as [Hfresh ->].
  assert (Htmp : init !! tmpPath = None)
    by (apply (kept_absent init fs0); assumption).
  split; [apply kept_insert; assumption|].
  apply good_call. intros fs1 Hfs1.
  pose proof (kept_avifenc init fs1 (avifenc env) (Path fi) tmpPath Hfs1 Htmp)
    as Henc.
  destruct (sys.run_avifenc _ _ _ _) as [[fs2 out] [eerr|]];
    cbn [fst snd] in *; (split; [assumption|]).
  { apply (good_mono _ _ 1); [|lia].
    apply good_call. intros fs3 Hfs3. cbn [fst snd].
    split; [apply kept_removeTmp; assumption|]. constructor. reflexivity. }
  apply good_call. intros fs3 Hfs3.
  pose proof (kept_Rename init fs3 (Rename_fault env) tmpPath uniquePath
                Hfs3 Htmp Hunique) as Hren.
  destruct (sys.Rename _ _ _ _) as [fs4 [rerr|]]; cbn [fst snd] in *.
  - split; [assumption|].
    apply (copyFile_proc_good init (Path fi) env tmpPath uniquePath 2);
      [assumption|].
    intros [cerr|].
    + apply (good_mono _ _ 1); [|lia].
      apply good_call. intros fs5 Hfs5. cbn [fst snd].
      split; [apply kept_removeTmp; assumption|]. constructor. reflexivity.
    + apply good_call. intros fs5 Hfs5. cbn [fst snd].
      split; [apply kept_Remove; assumption|].
      apply stat_proc_good. reflexivity.
  - split; [assumption|].
    apply (good_mono _ _ 1); [|lia]. apply stat_proc_good. reflexivity.
Qed.

(** ** A job that runs alone

    With no other job in between, the calls of the process are the body
    of the worker loop. *)
Lemma unique_loop_alone (fault : string -> option string) (path : string)
    (k : string * error -> Proc) (fs0 : os.filesystem) (fuel : nat) (i : Z) :
  run_alone (unique_loop fault path fuel i k) fs0
  = run_alone
      (k match unique_search fault fs0 path fuel i with
         | Some c => (c, None)
         | None => ("", Some ("could not find unique name for " ++ path))
         end) fs0.
Proof.
  revert i. induction fuel as [|fuel IH]; intros i;
    cbn [unique_loop unique_search]; [reflexivity|].
  destruct (i <? 1000)%Z; [|reflexivity].
  cbn [run_alone]. destruct (not_exist fault fs0 (candidate path i));
    [reflexivity|apply IH].
Qed.

Lemma ensureUniquePath_alone (fault : string -> option string)
    (path : string) (k : string * error -> Proc) (fs0 : os.filesystem) :
  run_alone (ensureUniquePath_proc fault path k) fs0
  = run_alone (k (ensureUniquePath fault fs0 path)) fs0.
Proof.
  unfold ensureUniquePath_proc, ensureUniquePath. cbn [run_alone].
  destruct (not_exist fault fs0 path); [reflexivity|].
  apply unique_loop_alone.
Qed.

Lemma copyFile_alone (env : JobEnv) (from to : string) (k : error -> Proc)
    (fs0 : os.filesystem) :
  run_alone (copyFile_proc env from to k) fs0
  = run_alone (k (copyFile env fs0 from to).2) (copyFile env fs0 from to).1.
Proof.
  unfold copyFile_proc, copyFile. cbn [run_alone].
  destruct (sys.Open (Open_fault env) fs0 from); [|reflexivity].
  cbn [run_alone]. destruct (Create_fault env); [reflexivity|].
  cbn [run_alone]. destruct (Copy_fault env) as [[msg written]|];
    [reflexivity|].
  destruct (<[to := RegularFile 0]> fs0 !! from) as [node|]; [|reflexivity].
  destruct (IsDir node); reflexivity.
Qed.

(** The body of the worker loop is the job's process run without
    interruption, followed by the sending of its result. *)
Lemma worker_job_alone (outDir prefix : string) (keepName : bool)
    (env : JobEnv) (fi : FileInfo) (w : World) :
  worker_job outDir prefix keepName env fi w
  = send (run_alone (job_proc outDir prefix keepName env fi) (fs w)).2
      (run_alone (job_proc outDir prefix keepName env fi) (fs w)).1 w.
Proof.
  unfold worker_job, job_proc. rewrite ensureUniquePath_alone.
  destruct (ensureUniquePath _ _ _) as [uniquePath [e|]]; [reflexivity|].
  cbn [run_alone].
  destruct (sys.CreateTemp _ _ _ _ _) as [[fs1 tmpPath] [terr|]];
    [reflexivity|].
  cbn [run_alone].
  destruct (sys.run_avifenc _ _ _ _) as [[fs2 out] [eerr|]].
  { cbn [run_alone]. destruct (removeTmp _ _ _). reflexivity. }
  cbn [run_alone].
  destruct (sys.Rename _ _ _ _) as [fs3 [rerr|]].
  - rewrite copyFile_alone.
    destruct (copyFile env fs2 tmpPath uniquePath) as [fs4 [cerr|]];
      cbn [fst snd run_alone].
    + destruct (removeTmp _ _ _). reflexivity.
    + unfold stat_proc, stat_converted. cbn [run_alone].
      destruct (sys.Stat _ _ _); reflexivity.
  - unfold stat_proc, stat_converted. cbn [run_alone].
    destruct (sys.Stat _ _ _); reflexivity.
Qed.

(** ** The pool *)

Lemma insert_middle {A : Type} (l1 l2 : list A) (x y : A) :
  <[length l1 := y]> (l1 ++ x :: l2)%list = (l1 ++ y :: l2)%list.
Proof.
  induction l1 as [|a l1 IH]; [reflexivity|].
  cbn [length app]. cbn. f_equal. exact IH.
Qed.

Lemma delete_at_middle {A : Type} (l1 l2 : list A) (x : A) :
  delete (length l1) (l1 ++ x :: l2)%list = (l1 ++ l2)%list.
Proof.
  induction l1 as [|a l1 IH]; [reflexivity|].
  cbn [length app]. cbn. f_equal. exact IH.
Qed.

Lemma weights_app (b1 b2 : list nat)
    (l1 l2 : list (option (FileInfo * Proc))) :
  length b1 = length l1 ->
  weights (b1 ++ b2)%list (l1 ++ l2)%list = (weights b1 l1 + weights b2 l2)%nat.
Proof.
  revert l1. induction b1 as [|b b1 IH]; intros [|w l1] Hlen;
    try discriminate Hlen; [reflexivity|].
  cbn [app weights]. rewrite IH by (cbn in Hlen; lia). lia.
Qed.

Lemma in_flight_app (l1 l2 : list (option (FileInfo * Proc))) :
  in_flight (l1 ++ l2)%list = (in_flight l1 ++ in_flight l2)%list.
Proof. apply omap_app. Qed.

Section Pool.

Variables (outDir prefix : string) (keepName : bool).
Variables (init : os.filesystem) (all : list string).

(** A step of a worker keeps the invariant of the pool, and there is one
    step less to take. *)
Lemma pool_step_inv (bounds : list nat) (p : Pool) (k : nat)
    (w : option (FileInfo * Proc)) :
  running p !! k = Some w ->
  pool_inv init all bounds p ->
  exists bounds',
    pool_inv init all bounds' (pool_step outDir prefix keepName k p) /\
    (pool_weight bounds' (pool_step outDir prefix keepName k p)
     < pool_weight bounds p)%nat.
Proof.
  intros Hk [Hkept Hworkers Hlive Hsources].
  unfold pool_step. rewrite Hk.
  destruct (list_elem_of_split_length _ _ _ Hk) as (l1 & l2 & Hrun & ->).
  rewrite Hrun in Hworkers, Hsources.
  apply Forall2_app_inv_r in Hworkers.
  destruct Hworkers as (b1 & b2' & Hw1 & Hw2 & ->).
  apply Forall2_cons_inv_r in Hw2.
  destruct Hw2 as (b & b2 & Hw & Hw2 & ->).
  pose proof (Forall2_length _ _ _ Hw1) as Hlen.
  unfold pool_weight. rewrite Hrun.
  rewrite in_flight_app in Hsources. cbn [in_flight omap list_omap] in Hsources.
  fold (in_flight l2) in Hsources.
  destruct w as [[fi [res|call]]|].
  - (* the result is sent *)
    destruct Hw as [Hgood _]. inversion Hgood as [n res' Hsrc|]; subst.
    exists (b1 ++ 0%nat :: b2)%list. rewrite insert_middle. split.
    + split; cbn [shared running jobCh resultsCh].
      * assumption.
      * apply Forall2_app; [assumption|]. constructor; [exact I|assumption].
      * intros Hnil. destruct l1; discriminate Hnil.
      * rewrite in_flight_app. cbn [in_flight omap list_omap].
        fold (in_flight l2). rewrite map_app. cbn [map].
        rewrite <- Hsources, Hsrc.
        rewrite <- !app_assoc. apply Permutation_app_head.
        cbn [app]. rewrite (app_assoc (in_flight l1)).
        rewrite <- Permutation_middle. rewrite <- app_assoc. reflexivity.
    + cbn [running jobCh]. rewrite !weights_app by assumption.
      cbn [weights weight]. lia.
  - (* a system call *)
    destruct Hw as [Hgood Hbound].
    inversion Hgood as [|n call' Hcall Hnext]; subst.
    destruct (call (shared p)) as [fs1 next] eqn:Hstep.
    pose proof (Hcall _ Hkept) as Hkept'. pose proof (Hnext _ Hkept) as Hgood'.
    rewrite Hstep in Hkept', Hgood'. cbn [fst snd] in Hkept', Hgood'.
    exists (b1 ++ n :: b2)%list. rewrite insert_middle. split.
    + split; cbn [shared running jobCh resultsCh].
      * assumption.
      * apply Forall2_app; [assumption|].
        constructor; [|assumption]. split; [assumption|lia].
      * intros Hnil. destruct l1; discriminate Hnil.
      * rewrite in_flight_app. cbn [in_flight omap list_omap].
        exact Hsources.
    + cbn [running jobCh]. rewrite !weights_app by assumption.
      cbn [weights weight]. lia.
  - (* between two jobs *)
    destruct (jobCh p) as [|[env fi] rest] eqn:Hqueue.
    + exists (b1 ++ b2)%list. rewrite delete_at_middle. split.
      * split; cbn [shared running jobCh resultsCh].
        -- assumption.
        -- apply Forall2_app; assumption.
        -- reflexivity.
        -- rewrite in_flight_app. exact Hsources.
      * cbn [running jobCh]. rewrite !weights_app by assumption.
        cbn [weights weight length]. lia.
    + exists (b1 ++ 1008%nat :: b2)%list. rewrite insert_middle. split.
      * split; cbn [shared running jobCh resultsCh].
        -- assumption.
        -- apply Forall2_app; [assumption|].
           constructor; [|assumption]. split; [apply job_good|lia].
        -- intros Hnil. destruct l1; discriminate Hnil.
        -- rewrite in_flight_app. cbn [in_flight omap list_omap].
           fold (in_flight l2). rewrite <- Hsources. cbn [map snd].
           apply Permutation_app_head.
           rewrite <- !app_assoc. apply Permutation_app_head.
           cbn [app]. rewrite Permutation_middle. reflexivity.
      * cbn [running jobCh]. rewrite !weights_app by assumption.
        cbn [weights weight length]. unfold job_steps. lia.
Qed.

(** When all workers have returned the queue is empty and every job fed
    has its result. *)
Lemma pool_over (bounds : list nat) (p : Pool) :
  pool_inv init all bounds p -> running p = [] ->
  jobCh p = [] /\ kept init (shared p) /\
  Permutation (map Src (resultsCh p)) all.
Proof.
  intros [Hkept _ Hlive Hsources] Hnil.
  pose proof (Hlive Hnil) as Hqueue.
  rewrite Hnil, Hqueue in Hsources. cbn in Hsources.
  rewrite app_nil_r in Hsources. auto.
Qed.

(** With one step of fuel for each step the pool can take, every
    schedule ends with all workers returned: the queue is empty, what was
    on disk is kept, and the results sent are those of the jobs fed, in
    some order. *)
Lemma run_pool_done (sched : nat -> nat) (fuel : nat) :
  forall (tick : nat) (bounds : list nat) (p : Pool),
    pool_inv init all bounds p ->
    (pool_weight bounds p <= fuel)%nat ->
    let p' := run_pool outDir prefix keepName sched fuel tick p in
    running p' = [] /\ jobCh p' = [] /\ kept init (shared p') /\
    Permutation (map Src (resultsCh p')) all.
Proof.
  induction fuel as [|fuel IH]; intros tick bounds p Hinv Hfuel p'; subst p';
    cbn [run_pool].
  - assert (Hnil : running p = []).
    { destruct (running p) as [|w ws] eqn:Hrun; [reflexivity|].
      destruct Hinv as [_ Hworkers _ _]. rewrite Hrun in Hworkers.
      apply Forall2_cons_inv_r in Hworkers.
      destruct Hworkers as (b & bs & _ & _ & ->).
      unfold pool_weight in Hfuel. rewrite Hrun in Hfuel.
      cbn [weights] in Hfuel. unfold weight in Hfuel.
      destruct w; lia. }
    split; [assumption|]. apply (pool_over bounds); assumption.
  - destruct (running p) as [|w ws] eqn:Hrun.
    + split; [assumption|]. apply (pool_over bounds); assumption.
    + rewrite <- Hrun.
      assert (Hlt : (sched tick mod length (running p) < length (running p))%nat).
      { apply Nat.mod_upper_bound. rewrite Hrun. discriminate. }
      apply lookup_lt_is_Some_2 in Hlt. destruct Hlt as [w' Hw'].
      destruct (pool_step_inv bounds p _ w' Hw' Hinv) as (bounds' & Hinv' & Hless).
      apply (IH (S tick) bounds'); [assumption|lia].
Qed.

(** The pool of [main]: started with at least one worker on a filesystem
    that keeps [init], it ends under every schedule. *)
Lemma start_pool_done (sched : nat -> nat) (jobs : list (JobEnv * FileInfo))
    (started : list Z) (fs1 : os.filesystem) :
  kept init fs1 -> started <> [] ->
  all = map (fun j : JobEnv * FileInfo => Path j.2) jobs ->
  let p' := run_pool outDir prefix keepName sched
              (pool_fuel (length jobs) (length started)) 0
              (start_pool jobs started fs1) in
  running p' = [] /\ jobCh p' = [] /\ kept init (shared p') /\
  Permutation (map Src (resultsCh p')) all.
Proof.
  intros Hkept Hstarted Hall.
  apply (run_pool_done sched _ 0%nat (map (fun _ => 0%nat) started)).
  - split; cbn [start_pool shared running jobCh resultsCh].
    + assumption.
    + clear Hstarted. induction started as [|i started IH]; constructor;
        [exact I|exact IH].
    + intros Hnil. destruct started; [contradiction|discriminate Hnil].
    + assert (Hidle : in_flight (map (fun _ : Z => None) started) = []).
      { clear Hstarted. induction started as [|i started IH];
          [reflexivity|exact IH]. }
      rewrite Hidle, Hall. reflexivity.
  - unfold pool_weight, pool_fuel. cbn [start_pool running jobCh].
    assert (Hidle : weights (map (fun _ => 0%nat) started)
                      (map (fun _ : Z => None) started) = length started).
    { clear Hstarted. induction started as [|i started IH]; [reflexivity|].
      cbn [map weights weight length]. rewrite IH. reflexivity. }
    rewrite Hidle. lia.
Qed.

End Pool.

(** ** [main]: the requested format *)

Lemma map_imap_const {A B C : Type} (g : nat -> A -> B) (h : B -> C)
    (k : A -> C) (l : list A) :
  (forall n x, h (g n x) = k x) -> map h (imap g l) = map k l.
Proof.
  revert g. induction l as [|x l IH]; intros g Hg; [reflexivity|].
  cbn [imap map]. rewrite Hg. f_equal.
  apply IH. intros n y. apply Hg.
Qed.

(** Reading a count as [main] does: a missing key and a zero count are
    the same to it. *)
Lemma int_at_zero (counts : gmap string Z) (k : string) :
  int_at counts k = 0 <-> counts !! k = None \/ counts !! k = Some 0.
Proof.
  unfold int_at. destruct (counts !! k) as [c|]; cbn.
  - split; [intros ->; auto|]. intros [?|[= <-]]; [discriminate|reflexivity].
  - split; auto.
Qed.

(** [main] up to the check of the requested format. *)
Lemma main_at_check (fl : flag.Flags) (env : MainEnv) :
  reaches_check fl env ->
  main fl env
  = let format := normalize_format (flag.format fl) in
    let files := (scanDirectory (walk env (flag.input fl))).1.1 in
    let counts := (scanDirectory (walk env (flag.input fl))).1.2 in
    if (int_at counts format =? 0)%Z then
      stop (Fatal ("No ." ++ format ++ " files found in directory "
                   ++ flag.input fl)) (Some counts) (disk env)
    else
      match MkdirAll (MkdirAll_fault env) (disk env) (chosen_outDir fl) with
      | (fs1, Some e) =>
          stop (Fatal ("failed to create output directory: " ++ verr e))
            (Some counts) fs1
      | (fs1, None) =>
          let toConvert := select format files in
          if flag.dryRun fl then
            {| ending := Returned; printed_counts := Some counts;
               previews :=
                 dry_run_previews (preview_entropy env) (chosen_outDir fl)
                   (flag.prefix fl) (flag.keepName fl) toConvert;
               started := []; collected := []; tally := None; final := fs1 |}
          else
            match LookPath_avifenc env with
            | Some e =>
                stop (Fatal ("avifenc not found in PATH: " ++ e))
                  (Some counts) fs1
            | None =>
                let jobs := imap (fun n f => (job_env env n, f)) toConvert in
                let started := start_workers (flag.workers fl) in
                let pool :=
                  run_pool (chosen_outDir fl) (flag.prefix fl)
                    (flag.keepName fl) (schedule env)
                    (pool_fuel (length jobs) (length started)) 0
                    (start_pool jobs started fs1) in
                {| ending := Returned; printed_counts := Some counts;
                   previews := []; started := started;
                   collected := resultsCh pool;
                   tally := Some (collect (resultsCh pool));
                   final := shared pool |}
            end
      end.
Proof.
  intros (Hinput & (info & Hstat & Hdir) & Hlist & Hformat).
  unfold main, chosen_outDir.
  destruct (String.eqb_spec (flag.input fl) "") as [|_]; [contradiction|].
  unfold os.Stat. rewrite Hstat, Hdir, Hlist. cbn [negb].
  rewrite scanDirectory_recorded. cbn [fst snd].
  destruct (String.eqb_spec (normalize_format (flag.format fl)) "") as [|_];
    [contradiction|].
  unfold int_at.
  destruct (fold_left count_one _ ∅ !! normalize_format (flag.format fl))
    as [c|]; cbn [from_option]; reflexivity.
Qed.

Lemma start_workers_nonempty (workers : Z) : start_workers workers <> [].
Proof.
  intros Hnil. pose proof (start_workers_length workers) as Hlen.
  rewrite Hnil in Hlen. cbn [length] in Hlen.
  destruct (Z.ltb_spec 0 workers); lia.
Qed.

(** A run that converts: the output directory is made, the workers are
    started, and under every schedule the pool ends with one result for
    each selected file, in some order, on a filesystem that keeps what
    was there when the pool started. *)
Lemma main_converts (fl : flag.Flags) (env : MainEnv) :
  reaches_check fl env -> flag.dryRun fl = false ->
  ending (main fl env) = Returned ->
  exists fs1,
    MkdirAll (MkdirAll_fault env) (disk env) (chosen_outDir fl) = (fs1, None) /\
    started (main fl env) = start_workers (flag.workers fl) /\
    Permutation (map Src (collected (main fl env)))
      (map Path
         (List.filter
            (fun f => String.eqb (Ext f) (normalize_format (flag.format fl)))
            (scanDirectory (walk env (flag.input fl))).1.1)) /\
    tally (main fl env) = Some (collect (collected (main fl env))) /\
    kept fs1 (final (main fl env)).
Proof.
  intros Hreach Hdry. rewrite (main_at_check fl env Hreach). cbv zeta.
  rewrite Hdry.
  match goal with
  | |- context [(?c =? 0)%Z] => destruct (Z.eqb_spec c 0) as [|_]
  end; [discriminate|].
  destruct (MkdirAll _ _ _) as [fs1 [e|]] eqn:Hmk; [discriminate|].
  destruct (LookPath_avifenc env); [discriminate|].
  cbn [ending started collected tally final]. intros _.
  exists fs1. split; [reflexivity|]. split; [reflexivity|].
  set (jobs := imap (fun n f => (job_env env n, f)) (select _ _)).
  destruct (start_pool_done (chosen_outDir fl) (flag.prefix fl)
              (flag.keepName fl) fs1
              (map (fun j : JobEnv * FileInfo => Path j.2) jobs)
              (schedule env) jobs
              (start_workers (flag.workers fl)) fs1 (kept_refl fs1)
              (start_workers_nonempty _) eq_refl)
    as (_ & _ & Hkept & Hperm).
  split; [|split; [reflexivity|exact Hkept]].
  rewrite Hperm. unfold jobs, select.
  rewrite (map_imap_const _ _ Path); reflexivity.
Qed.


Lemma sample_reaches_check (fl : flag.Flags) (d : os.filesystem) :
  flag.input fl = "in" -> d !! "in" = Some Directory ->
  flag.listOnly fl = false -> normalize_format (flag.format fl) <> "" ->
  reaches_check fl (env_on d).
Proof.
  intros Hin Hd Hl Hf. unfold reaches_check. rewrite Hin.
  split; [discriminate|]. split; [|split; assumption].
  exists Directory. split; [exact Hd|reflexivity].
Qed.


(** The results are collected in the order in which the jobs end, which
    is the schedule's: when the second worker runs while the first waits
    after taking its job, the second file is reported first. *)
Example collected_in_the_order_of_the_schedule :
  map Src (collected (main convert_jpeg (env_on disk_taken)))
  = ["in/a.jpeg"; "in/b.JPG"] /\
  map Src (collected (main convert_jpeg (second_runs_first disk_taken)))
  = ["in/b.JPG"; "in/a.jpeg"].
Proof. split; vm_compute; reflexivity. Qed.

(** A capital past ASCII in the flag is lowered as in the scanner. *)
Example normalize_format_dotted_I :
  normalize_format "HEİC" = "heic" /\ normalize_format ".TİFF" = "tiff".
Proof. split; vm_compute; reflexivity. Qed.

(** ** [main]: the pool *)

(** C9: the number of workers started is the configured count when that
    count is positive, and one when it is zero or negative; they are
    numbered from 0, the pool begins with one idle worker for each of
    them, and a run of [main] that converts starts that many. *)
Theorem start_workers_count :
  (forall workers : Z,
     Z.of_nat (length (start_workers workers))
     = if (0 <? workers)%Z then workers else 1) /\
  (forall workers : Z,
     start_workers workers
     = map Z.of_nat (seq 0 (length (start_workers workers)))) /\
  (forall workers jobs fs1,
     running (start_pool jobs (start_workers workers) fs1)
     = repeat None (Z.to_nat (if (0 <? workers)%Z then workers else 1))) /\
  (forall fl env,
     reaches_check fl env -> flag.dryRun fl = false ->
     ending (main fl env) = Returned ->
     started (main fl env) = start_workers (flag.workers fl) /\
     Z.of_nat (length (started (main fl env)))
     = if (0 <? flag.workers fl)%Z then flag.workers fl else 1).
Proof.
  assert (Hids : forall workers : Z,
            start_workers workers
            = map Z.of_nat (seq 0 (length (start_workers workers)))).
  { intros workers. unfold start_workers. rewrite start_loop_length.
    rewrite (start_loop_ids _ 0 _ eq_refl). apply map_ext. intros k. lia. }
  split; [exact start_workers_length|]. split; [exact Hids|]. split.
  - intros workers jobs fs1. cbn [start_pool running].
    pose proof (start_workers_length workers) as Hlen.
    replace (Z.to_nat (if (0 <? workers)%Z then workers else 1))
      with (length (start_workers workers)) by lia.
    clear Hlen.
    induction (start_workers workers) as [|i l IH]; [reflexivity|].
    cbn [map length repeat]. f_equal. exact IH.
  - intros fl env Hreach Hdry Hreturned.
    destruct (main_converts fl env Hreach Hdry Hreturned)
      as (fs1 & _ & Hstarted & _).
    split; [exact Hstarted|]. rewrite Hstarted. apply start_workers_length.
Qed.

Lemma start_workers_count_witness :
  Z.of_nat (length (start_workers (-3))) = 1 /\
  Z.of_nat (length (started (main convert_jpeg (env_on disk_taken)))) = 2.
Proof.
  destruct start_workers_count as (Hcount & _ & _ & Hmain).
  split.
  - apply (Hcount (-3)).
  - apply (Hmain convert_jpeg (env_on disk_taken)).
    + apply sample_reaches_check; try reflexivity. discriminate.
    + reflexivity.
    + vm_compute. reflexivity.
Defined.

(** ** [main]: the dry run *)

(** [MkdirAll] keeps every entry and adds nothing but directories. *)
Lemma MkdirAll_go_adds_directories (fuel : nat) (fs0 fs1 : os.filesystem)
    (path : string) (e : option os.PathError) :
  MkdirAll_go fuel fs0 path = (fs1, e) ->
  (forall p n, fs0 !! p = Some n -> fs1 !! p = Some n) /\
  (forall p n, fs1 !! p = Some n -> fs0 !! p = Some n \/ n = Directory).
Proof.
  revert fs0 fs1 path e.
  induction fuel as [|fuel IH]; intros fs0 fs1 path e; cbn [MkdirAll_go].
  - destruct (fs0 !! path) as [n0|] eqn:Hpath.
    + destruct (IsDir n0); intros [= <- <-]; auto.
    + intros [= <- <-]. split; intros p n.
      * intros Hp. rewrite lookup_insert_ne by congruence. assumption.
      * rewrite lookup_insert. case_decide; [intros [= <-]; auto|auto].
  - destruct (fs0 !! path) as [n0|] eqn:Hpath.
    + destruct (IsDir n0); intros [= <- <-]; auto.
    + destruct (String.eqb (parent_of path) "").
      * intros [= <- <-]. split; intros p n.
        -- intros Hp. rewrite lookup_insert_ne by congruence. assumption.
        -- rewrite lookup_insert. case_decide; [intros [= <-]; auto|auto].
      * destruct (MkdirAll_go fuel fs0 (parent_of path)) as [fs' [e'|]] eqn:Hrec;
          destruct (IH _ _ _ _ Hrec) as [Hkeep Hnew].
        -- intros [= <- <-]. auto.
        -- intros [= <- <-]. split; intros p n.
           ++ intros Hp. rewrite lookup_insert_ne by congruence. auto.
           ++ rewrite lookup_insert. case_decide; [intros [= <-]; auto|auto].
Qed.

Lemma MkdirAll_adds_directories (fault : option string)
    (fs0 fs1 : os.filesystem) (path : string) (e : option os.PathError) :
  MkdirAll fault fs0 path = (fs1, e) ->
  (forall p n, fs0 !! p = Some n -> fs1 !! p = Some n) /\
  (forall p n, fs1 !! p = Some n -> fs0 !! p = Some n \/ n = Directory).
Proof.
  unfold MkdirAll. destruct fault.
  - intros [= <- <-]. auto.
  - apply MkdirAll_go_adds_directories.
Qed.

(** [MkdirAll] on a path that exists changes nothing. *)
Lemma MkdirAll_existing (fault : option string) (fs0 fs1 : os.filesystem)
    (path : string) (e : option os.PathError) :
  is_Some (fs0 !! path) -> MkdirAll fault fs0 path = (fs1, e) -> fs1 = fs0.
Proof.
  intros [n Hn]. unfold MkdirAll. destruct fault; [intros [= <- <-]; auto|].
  destruct path as [|c path]; cbn [String.length MkdirAll_go]; rewrite Hn;
    destruct (IsDir n); intros [= <- <-]; reflexivity.
Qed.

(** C1, as the code has it: a dry run that returns has printed, for every
    file of the requested format, the source, the name the namer gives
    joined to the output directory, and the size; the uniquifier is not
    consulted.  No worker is started and nothing is converted.  Every
    entry of the filesystem is kept, whatever is new is a directory, and
    nothing at all changes when the output directory exists. *)
Theorem dry_run_previews_names (fl : flag.Flags) (env : MainEnv) :
  reaches_check fl env -> flag.dryRun fl = true ->
  ending (main fl env) = Returned ->
  previews (main fl env)
  = imap (fun n f =>
            (Path f,
             filepath.Join (chosen_outDir fl)
               (makeOutputFilename (preview_entropy env n) f (flag.prefix fl)
                  (flag.keepName fl)),
             Size f))
      (select (normalize_format (flag.format fl))
         (scanDirectory (walk env (flag.input fl))).1.1) /\
  started (main fl env) = [] /\ collected (main fl env) = [] /\
  (forall p n, disk env !! p = Some n -> final (main fl env) !! p = Some n) /\
  (forall p n, final (main fl env) !! p = Some n ->
     disk env !! p = Some n \/ n = Directory) /\
  (is_Some (disk env !! chosen_outDir fl) -> final (main fl env) = disk env).
Proof.
  intros Hreach Hdry. rewrite (main_at_check fl env Hreach). cbv zeta.
  rewrite Hdry.
  match goal with
  | |- context [(?c =? 0)%Z] => destruct (Z.eqb_spec c 0) as [|_]
  end; [discriminate|].
  destruct (MkdirAll _ _ _) as [fs1 [e|]] eqn:Hmk; [discriminate|].
  cbn [ending previews started collected final]. intros _.
  destruct (MkdirAll_adds_directories _ _ _ _ _ Hmk) as [Hkeep Hnew].
  repeat split; auto.
  intros Hexists. exact (MkdirAll_existing _ _ _ _ _ Hexists Hmk).
Qed.

Lemma dry_run_previews_names_witness :
  previews (main dry_run_png (env_on disk_taken))
  = [("in/photo.png", "out/photo.avif", 100)] /\
  final (main dry_run_png (env_on disk_taken)) = disk_taken.
Proof.
  assert (Hreach : reaches_check dry_run_png (env_on disk_taken)).
  { apply sample_reaches_check; try reflexivity. discriminate. }
  destruct (dry_run_previews_names dry_run_png (env_on disk_taken) Hreach
              eq_refl eq_refl) as (Hprev & _ & _ & _ & _ & Hsame).
  split.
  - rewrite Hprev. vm_compute. reflexivity.
  - apply Hsame. vm_compute. eauto.
Defined.

(** C1 as stated fails: the preview of [photo.png] names [out/photo.avif],
    a file that exists; the uniquifier would have answered
    [out/photo-1.avif]. *)
Lemma dry_run_skips_uniquifier :
  previews (main dry_run_png (env_on disk_taken))
  = [("in/photo.png", "out/photo.avif", 100)] /\
  disk_taken !! "out/photo.avif" = Some (RegularFile 40) /\
  ensureUniquePath (fun _ => None) disk_taken "out/photo.avif"
  = ("out/photo-1.avif", None) /\
  ~ dry_run_as_specified dry_run_png (env_on disk_taken).
Proof.
  assert (Hprev : previews (main dry_run_png (env_on disk_taken))
                  = [("in/photo.png", "out/photo.avif", 100)])
    by (vm_compute; reflexivity).
  repeat split; try (vm_compute; reflexivity).
  intros [Hfree _].
  specialize (Hfree ("in/photo.png", "out/photo.avif", 100)).
  rewrite Hprev in Hfree. specialize (Hfree ltac:(left; reflexivity)).
  vm_compute in Hfree. discriminate.
Qed.

(** The dry run also makes the output directory when it is missing. *)
Example dry_run_makes_output_directory :
  disk_no_out !! "out" = None /\
  final (main dry_run_png (env_on disk_no_out)) !! "out" = Some Directory.
Proof. split; vm_compute; reflexivity. Qed.

(** * Further properties *)

(** ** [copyFile] *)

(** In every outcome [copyFile] changes nothing but the destination. *)
Lemma copyFile_frame (env : JobEnv) (fs0 fs' : os.filesystem)
    (src dst : string) (e : error) :
  copyFile env fs0 src dst = (fs', e) ->
  forall p, p <> dst -> fs' !! p = fs0 !! p.
Proof.
  unfold copyFile.
  destruct (sys.Open (Open_fault env) fs0 src) as [opened|oerr];
    [|intros [= <- <-]; auto].
  destruct (Create_fault env) as [cmsg|]; [intros [= <- <-]; auto|].
  destruct (Copy_fault env) as [[msg written]|].
  - intros [= <- <-] p Hp. rewrite !lookup_insert_ne by congruence. reflexivity.
  - destruct (<[dst:=RegularFile 0]> fs0 !! src) as [n|].
    + destruct (IsDir n); intros [= <- <-] p Hp;
        rewrite !lookup_insert_ne by congruence; reflexivity.
    + intros [= <- <-] p Hp. rewrite !lookup_insert_ne by congruence.
      reflexivity.
Qed.

(** A copy that reports no error has read a regular file at the source
    and left a file of the same size at the destination; the source and
    every other path are as before. *)
Theorem copyFile_success (env : JobEnv) (fs0 fs' : os.filesystem)
    (src dst : string) :
  copyFile env fs0 src dst = (fs', None) -> src <> dst ->
  exists n, fs0 !! src = Some n /\ IsDir n = false /\
            fs' = <[dst := RegularFile (StSize n)]> fs0.
Proof.
  unfold copyFile, sys.Open. intros Hcopy Hne.
  destruct (Open_fault env); [discriminate|].
  destruct (fs0 !! src) as [n|] eqn:Hsrc; [|discriminate].
  destruct (Create_fault env); [discriminate|].
  destruct (Copy_fault env) as [[msg written]|]; [discriminate|].
  rewrite lookup_insert_ne in Hcopy by congruence. rewrite Hsrc in Hcopy.
  destruct (IsDir n) eqn:Hdir; [discriminate|].
  injection Hcopy as <-. exists n. repeat split; auto.
  apply insert_insert_eq.
Qed.

Lemma copyFile_success_witness :
  exists n, empty_out !! "in/photo.png" = Some n /\
            IsDir n = false /\
            <["out/photo.avif" := RegularFile 100]> empty_out
            = <["out/photo.avif" := RegularFile (StSize n)]> empty_out.
Proof.
  apply (copyFile_success job_ok empty_out _ "in/photo.png" "out/photo.avif").
  - vm_compute. reflexivity.
  - discriminate.
Defined.

(** When the source cannot be opened (it is missing, or the open fails) or
    the destination cannot be created, [copyFile] returns an error and the
    filesystem is as before: no destination appears. *)
Theorem copyFile_refused (env : JobEnv) (fs0 : os.filesystem)
    (src dst : string) :
  fs0 !! src = None \/ Open_fault env <> None \/ Create_fault env <> None ->
  exists e, copyFile env fs0 src dst = (fs0, Some e).
Proof.
  unfold copyFile, sys.Open. intros H.
  destruct (Open_fault env) as [m|]; [eauto|].
  destruct (fs0 !! src) as [n|]; [|eauto].
  destruct (Create_fault env) as [m|]; [eauto|].
  destruct H as [H|[H|H]]; congruence.
Qed.

Lemma copyFile_refused_witness :
  exists e, copyFile job_ok empty_out "out/missing.avif" "out/photo.avif"
            = (empty_out, Some e).
Proof.
  apply (copyFile_refused job_ok empty_out "out/missing.avif" "out/photo.avif").
  left. reflexivity.
Defined.

(** Copying a regular file onto itself reports no error and leaves the
    file empty: the destination is truncated before the source is read. *)
Theorem copyFile_onto_itself (env : JobEnv) (fs0 : os.filesystem)
    (path : string) (n : node) :
  fs0 !! path = Some n ->
  Open_fault env = None -> Create_fault env = None -> Copy_fault env = None ->
  copyFile env fs0 path path = (<[path := RegularFile 0]> fs0, None).
Proof.
  intros Hpath Ho Hc Hcp. unfold copyFile, sys.Open.
  rewrite Ho, Hpath, Hc, Hcp, lookup_insert_eq. cbn [IsDir RegularFile StSize].
  f_equal. apply insert_insert_eq.
Qed.

Lemma copyFile_onto_itself_witness :
  copyFile job_ok disk_taken "out/photo.avif" "out/photo.avif"
  = (<["out/photo.avif" := RegularFile 0]> disk_taken, None).
Proof.
  apply (copyFile_onto_itself job_ok disk_taken "out/photo.avif"
           (RegularFile 40)); reflexivity.
Defined.

(** ** The steps of a job on the filesystem *)

Lemma sysRemove_other (fault : option string) (fs0 : os.filesystem)
    (p q : string) :
  p <> q -> (sys.Remove fault fs0 q).1 !! p = fs0 !! p.
Proof.
  intros Hne. destruct fault; cbn [sys.Remove fst]; [reflexivity|].
  apply Remove_other. assumption.
Qed.

Lemma sysRemove_done (fs0 : os.filesystem) (q : string) :
  (sys.Remove None fs0 q).1 = delete q fs0.
Proof. apply Remove_is_delete. Qed.

Lemma stat_converted_fs (env : JobEnv) (res : ConvertResult)
    (uniquePath : string) (fs5 : os.filesystem) (w : World) :
  fs (stat_converted env res uniquePath fs5 w) = fs5.
Proof.
  unfold stat_converted.
  destruct (sys.Stat (Stat_fault env) fs5 uniquePath); reflexivity.
Qed.

(** The last [Stat] on a destination that holds a file. *)
Lemma stat_converted_found (env : JobEnv) (res : ConvertResult)
    (uniquePath : string) (fs5 : os.filesystem) (w : World) (n : node) :
  fs5 !! uniquePath = Some n ->
  stat_converted env res uniquePath fs5 w
  = match Stat_fault env with
    | None => send (clear_Err (with_ConvBytes res (StSize n))) fs5 w
    | Some msg => send (with_Err res ("stat output failed: " ++ msg)) fs5 w
    end.
Proof.
  intros Hn. unfold stat_converted, sys.Stat, os.Stat.
  destruct (Stat_fault env); [reflexivity|]. rewrite Hn. reflexivity.
Qed.

Section Jobs.

Variables (outDir prefix : string) (keepName : bool).
Variables (env : JobEnv) (fi : FileInfo) (w : World).

(** The path the job asks the uniquifier for. *)
Let outPath : string :=
  filepath.Join outDir (makeOutputFilename (entropy env) fi prefix keepName).

Let job : World := worker_job outDir prefix keepName env fi w.

(** A job changes nothing but the two paths it owns: its temporary file
    and its destination. *)
Lemma worker_job_frame (uniquePath tmpPath : string) (fs1 : os.filesystem) :
  ensureUniquePath (Lookup_fault env) (fs w) outPath = (uniquePath, None) ->
  sys.CreateTemp (CreateTemp_fault env) (TempRandom env) (fs w)
    (filepath.Dir uniquePath) "avif_tmp_*.avif" = (fs1, tmpPath, None) ->
  forall p, p <> tmpPath -> p <> uniquePath -> fs job !! p = fs w !! p.
Proof.
  intros Hunique Htemp p Hp1 Hp2.
  destruct (CreateTemp_created _ _ _ _ _ _ _ Htemp) as [_ ->].
  unfold job, worker_job. fold outPath. rewrite Hunique, Htemp.
  destruct (sys.run_avifenc _ _ _ _) as [[fs2 out] oerr] eqn:Henc.
  assert (H2 : fs2 !! p = fs w !! p).
  { unfold sys.run_avifenc in Henc.
    destruct (avifenc env); injection Henc as <- _ _;
      rewrite !lookup_insert_ne by congruence; reflexivity. }
  destruct oerr as [err|].
  - unfold removeTmp. cbn [negb send fs].
    rewrite sysRemove_other by assumption. assumption.
  - destruct (sys.Rename _ _ _ _) as [fs3 [rerr|]] eqn:Hren.
    + destruct (copyFile env fs2 tmpPath uniquePath) as [fs4 [cerr|]] eqn:Hcopy;
        pose proof (copyFile_frame _ _ _ _ _ _ Hcopy p Hp2) as H4.
      * unfold removeTmp. cbn [negb send fs].
        rewrite sysRemove_other by assumption. congruence.
      * rewrite stat_converted_fs, sysRemove_other by assumption. congruence.
    + rewrite stat_converted_fs. unfold sys.Rename in Hren.
      destruct (Rename_fault env); [discriminate|].
      destruct (fs2 !! tmpPath); [|discriminate].
      injection Hren as <-.
      rewrite lookup_insert_ne, lookup_delete_ne by congruence. assumption.
Qed.

(** A job never changes and never removes what was there when it
    started. *)
Lemma worker_job_keeps (p : string) (n : node) :
  fs w !! p = Some n -> fs job !! p = Some n.
Proof.
  intros Hp. unfold job.
  destruct (ensureUniquePath (Lookup_fault env) (fs w) outPath)
    as [uniquePath [e|]] eqn:Hunique.
  { rewrite early_failure_writes_nothing; [assumption|].
    left. fold outPath. rewrite Hunique. discriminate. }
  destruct (sys.CreateTemp (CreateTemp_fault env) (TempRandom env) (fs w)
              (filepath.Dir uniquePath) "avif_tmp_*.avif")
    as [[fs1 tmpPath] [terr|]] eqn:Htemp.
  { rewrite early_failure_writes_nothing; [assumption|].
    right. fold outPath. rewrite Hunique. cbn [fst]. rewrite Htemp.
    discriminate. }
  pose proof (ensureUniquePath_free _ _ _ _ Hunique) as Hfree.
  destruct (CreateTemp_created _ _ _ _ _ _ _ Htemp) as [Hfresh _].
  rewrite <- Hp.
  apply (worker_job_frame uniquePath tmpPath fs1 Hunique Htemp); congruence.
Qed.


(** A job in which the encoder succeeds, the output is moved by the
    rename, or by the copy when the rename fails, and the last [Stat]
    works: it reports a success with the encoder's size.  After a rename,
    and after a copy followed by a removal that works, the filesystem is
    the one before the job plus the destination; after a copy followed by
    a removal that is refused the temporary file is there as well, and
    the job reports the same success. *)
Theorem conversion_adds_the_destination (uniquePath tmpPath : string)
    (fs1 : os.filesystem) (size : Z) :
  ensureUniquePath (Lookup_fault env) (fs w) outPath = (uniquePath, None) ->
  sys.CreateTemp (CreateTemp_fault env) (TempRandom env) (fs w)
    (filepath.Dir uniquePath) "avif_tmp_*.avif" = (fs1, tmpPath, None) ->
  tmpPath <> uniquePath ->
  avifenc env = EncoderOk size ->
  Rename_fault env = None \/
  (Open_fault env = None /\ Create_fault env = None /\ Copy_fault env = None) ->
  Stat_fault env = None ->
  job = send {| Src := Path fi; Dst := uniquePath; OrigBytes := Size fi;
                ConvBytes := size; Err := None |}
          match Rename_fault env, Remove_fault env with
          | Some _, Some _ =>
              <[uniquePath := RegularFile size]>
                (<[tmpPath := RegularFile size]> (fs w))
          | _, _ => <[uniquePath := RegularFile size]> (fs w)
          end w.
Proof.
  intros Hunique Htemp Hne Henc Hsave Hstat.
  destruct (CreateTemp_created _ _ _ _ _ _ _ Htemp) as [Hfresh ->].
  unfold job, worker_job. fold outPath.
  rewrite Hunique, Htemp, Henc. cbn [sys.run_avifenc].
  set (fs2 := <[tmpPath := RegularFile size]> (<[tmpPath := RegularFile 0]> (fs w))).
  assert (Htmp2 : fs2 !! tmpPath = Some (RegularFile size))
    by apply lookup_insert_eq.
  assert (Hfinal : forall fs5 fs6,
            fs5 = <[uniquePath := RegularFile size]> fs6 ->
            stat_converted env
              (with_Dst {| Src := Path fi; Dst := ""; OrigBytes := Size fi;
                           ConvBytes := 0; Err := None |} uniquePath)
              uniquePath fs5 w
            = send {| Src := Path fi; Dst := uniquePath; OrigBytes := Size fi;
                      ConvBytes := size; Err := None |}
                (<[uniquePath := RegularFile size]> fs6) w).
  { intros fs5 fs6 ->.
    rewrite (stat_converted_found _ _ _ _ _ (RegularFile size))
      by apply lookup_insert_eq.
    rewrite Hstat. reflexivity. }
  unfold sys.Rename. destruct (Rename_fault env) as [rmsg|].
  - destruct Hsave as [|(Ho & Hc & Hcp)]; [discriminate|].
    unfold copyFile, sys.Open. rewrite Ho, Htmp2, Hc, Hcp.
    rewrite lookup_insert_ne, Htmp2 by congruence.
    cbn [IsDir RegularFile StSize].
    destruct (Remove_fault env) as [refused|]; cbn [sys.Remove fst];
      [|rewrite Remove_is_delete]; apply Hfinal; subst fs2; map_cases.
  - rewrite Htmp2. destruct (Remove_fault env); apply Hfinal; subst fs2;
      map_cases.
Qed.

(** When the rename fails and the copy breaks after the destination was
    created, the job reports the failure of both and asks for the removal
    of the temporary file, but what the copy wrote stays at the
    destination; when the removal is refused the temporary file stays
    too. *)
Theorem broken_copy_leaves_destination (uniquePath tmpPath : string)
    (fs1 : os.filesystem) (size written : Z) (rmsg cmsg : string) :
  ensureUniquePath (Lookup_fault env) (fs w) outPath = (uniquePath, None) ->
  sys.CreateTemp (CreateTemp_fault env) (TempRandom env) (fs w)
    (filepath.Dir uniquePath) "avif_tmp_*.avif" = (fs1, tmpPath, None) ->
  tmpPath <> uniquePath ->
  avifenc env = EncoderOk size ->
  Rename_fault env = Some rmsg ->
  Open_fault env = None -> Create_fault env = None ->
  Copy_fault env = Some (cmsg, written) ->
  job = send {| Src := Path fi; Dst := uniquePath; OrigBytes := Size fi;
                ConvBytes := 0;
                Err := Some ("save output failed: rename: " ++ rmsg
                             ++ ", copy: " ++ cmsg) |}
          match Remove_fault env with
          | None => <[uniquePath := RegularFile written]> (fs w)
          | Some _ =>
              <[uniquePath := RegularFile written]>
                (<[tmpPath := RegularFile size]> (fs w))
          end w.
Proof.
  intros Hunique Htemp Hne Henc Hren Ho Hc Hcp.
  destruct (CreateTemp_created _ _ _ _ _ _ _ Htemp) as [Hfresh ->].
  unfold job, worker_job. fold outPath.
  rewrite Hunique, Htemp, Henc. cbn [sys.run_avifenc].
  unfold sys.Rename. rewrite Hren.
  unfold copyFile, sys.Open. rewrite Ho, lookup_insert_eq, Hc, Hcp.
  unfold removeTmp. cbn [negb].
  destruct (Remove_fault env) as [refused|]; cbn [sys.Remove fst];
    [|rewrite Remove_is_delete];
    unfold send, with_Err, with_Dst, verr; cbn; f_equal; map_cases.
Qed.

(** When the output is in place, moved there by the rename or by the
    copy, and the last [Stat] fails, the job reports a failure without a
    converted size although the converted file is at the destination.
    The filesystem is the one a success leaves. *)
Theorem stat_failure_keeps_the_output (uniquePath tmpPath : string)
    (fs1 : os.filesystem) (size : Z) (msg : string) :
  ensureUniquePath (Lookup_fault env) (fs w) outPath = (uniquePath, None) ->
  sys.CreateTemp (CreateTemp_fault env) (TempRandom env) (fs w)
    (filepath.Dir uniquePath) "avif_tmp_*.avif" = (fs1, tmpPath, None) ->
  tmpPath <> uniquePath ->
  avifenc env = EncoderOk size ->
  Rename_fault env = None \/
  (Open_fault env = None /\ Create_fault env = None /\ Copy_fault env = None) ->
  Stat_fault env = Some msg ->
  job = send {| Src := Path fi; Dst := uniquePath; OrigBytes := Size fi;
                ConvBytes := 0;
                Err := Some ("stat output failed: " ++ msg) |}
          match Rename_fault env, Remove_fault env with
          | Some _, Some _ =>
              <[uniquePath := RegularFile size]>
                (<[tmpPath := RegularFile size]> (fs w))
          | _, _ => <[uniquePath := RegularFile size]> (fs w)
          end w /\
  fs job !! uniquePath = Some (RegularFile size).
Proof.
  intros Hunique Htemp Hne Henc Hsave Hstat.
  assert (Hjob : job = send {| Src := Path fi; Dst := uniquePath;
                               OrigBytes := Size fi; ConvBytes := 0;
                               Err := Some ("stat output failed: " ++ msg) |}
                         match Rename_fault env, Remove_fault env with
                         | Some _, Some _ =>
                             <[uniquePath := RegularFile size]>
                               (<[tmpPath := RegularFile size]> (fs w))
                         | _, _ => <[uniquePath := RegularFile size]> (fs w)
                         end w).
  { destruct (CreateTemp_created _ _ _ _ _ _ _ Htemp) as [Hfresh ->].
    unfold job, worker_job. fold outPath.
    rewrite Hunique, Htemp, Henc. cbn [sys.run_avifenc].
    set (fs2 := <[tmpPath := RegularFile size]>
                  (<[tmpPath := RegularFile 0]> (fs w))).
    assert (Htmp2 : fs2 !! tmpPath = Some (RegularFile size))
      by apply lookup_insert_eq.
    assert (Hfinal : forall fs5 fs6,
              fs5 = <[uniquePath := RegularFile size]> fs6 ->
              stat_converted env
                (with_Dst {| Src := Path fi; Dst := ""; OrigBytes := Size fi;
                             ConvBytes := 0; Err := None |} uniquePath)
                uniquePath fs5 w
              = send {| Src := Path fi; Dst := uniquePath;
                        OrigBytes := Size fi; ConvBytes := 0;
                        Err := Some ("stat output failed: " ++ msg) |}
                  (<[uniquePath := RegularFile size]> fs6) w).
    { intros fs5 fs6 ->.
      rewrite (stat_converted_found _ _ _ _ _ (RegularFile size))
        by apply lookup_insert_eq.
      rewrite Hstat. reflexivity. }
    unfold sys.Rename. destruct (Rename_fault env) as [rmsg|].
    - destruct Hsave as [|(Ho & Hc & Hcp)]; [discriminate|].
      unfold copyFile, sys.Open. rewrite Ho, Htmp2, Hc, Hcp.
      rewrite lookup_insert_ne, Htmp2 by congruence.
      cbn [IsDir RegularFile StSize].
      destruct (Remove_fault env) as [refused|]; cbn [sys.Remove fst];
        [|rewrite Remove_is_delete]; apply Hfinal; subst fs2; map_cases.
    - rewrite Htmp2. destruct (Remove_fault env); apply Hfinal; subst fs2;
        map_cases. }
  split; [exact Hjob|]. rewrite Hjob. cbn [send fs].
  destruct (Rename_fault env), (Remove_fault env); apply lookup_insert_eq.
Qed.

End Jobs.


Lemma conversion_adds_the_destination_witness :
  worker_job "out" "" true job_remove_refused photo_png world0
  = send {| Src := "in/photo.png"; Dst := "out/photo.avif"; OrigBytes := 100;
            ConvBytes := 50; Err := None |}
      (<["out/photo.avif" := RegularFile 50]>
         (<["out/avif_tmp_12345.avif" := RegularFile 50]> empty_out)) world0.
Proof.
  apply (conversion_adds_the_destination "out" "" true job_remove_refused
           photo_png world0 "out/photo.avif" "out/avif_tmp_12345.avif"
           (with_temp empty_out) 50);
    try reflexivity.
  - discriminate.
  - right. repeat split; reflexivity.
Defined.

Lemma broken_copy_leaves_destination_witness :
  worker_job "out" "" true job_copy_breaks photo_png world0
  = send {| Src := "in/photo.png"; Dst := "out/photo.avif"; OrigBytes := 100;
            ConvBytes := 0;
            Err := Some ("save output failed: rename: "
                         ++ "invalid cross-device link"
                         ++ ", copy: " ++ "no space left on device") |}
      (<["out/photo.avif" := RegularFile 7]> empty_out) world0.
Proof.
  apply (broken_copy_leaves_destination "out" "" true job_copy_breaks
           photo_png world0 "out/photo.avif" "out/avif_tmp_12345.avif"
           (with_temp empty_out) 50 7);
    try reflexivity.
  discriminate.
Defined.

Lemma stat_failure_keeps_the_output_witness :
  worker_job "out" "" true job_stat_fails photo_png world0
  = send {| Src := "in/photo.png"; Dst := "out/photo.avif"; OrigBytes := 100;
            ConvBytes := 0;
            Err := Some ("stat output failed: " ++ "input/output error") |}
      (<["out/photo.avif" := RegularFile 50]> empty_out) world0 /\
  fs (worker_job "out" "" true job_stat_fails photo_png world0)
    !! "out/photo.avif" = Some (RegularFile 50).
Proof.
  apply (stat_failure_keeps_the_output "out" "" true job_stat_fails
           photo_png world0 "out/photo.avif" "out/avif_tmp_12345.avif"
           (with_temp empty_out) 50);
    try reflexivity.
  - discriminate.
  - left. reflexivity.
Defined.

(** ** What a result says *)

Lemma send_inj (r r' : ConvertResult) (fs1 fs2 : os.filesystem) (w : World) :
  send r fs1 w = send r' fs2 w -> r = r'.
Proof.
  unfold send. intros [= _ H]. apply app_inv_head in H. congruence.
Qed.

(** A copy that reports no error has left a file at the destination. *)
Lemma copyFile_written (env : JobEnv) (fs0 fs' : os.filesystem)
    (src dst : string) :
  copyFile env fs0 src dst = (fs', None) ->
  exists size, fs' !! dst = Some (RegularFile size).
Proof.
  unfold copyFile.
  destruct (sys.Open (Open_fault env) fs0 src) as [opened|]; [|discriminate].
  destruct (Create_fault env); [discriminate|].
  destruct (Copy_fault env) as [[msg written]|]; [discriminate|].
  destruct (<[dst:=RegularFile 0]> fs0 !! src) as [from|]; [|discriminate].
  destruct (IsDir from); [discriminate|].
  intros [= <-]. eexists. apply lookup_insert_eq.
Qed.

Lemma stat_converted_outcome (env : JobEnv) (res : ConvertResult)
    (uniquePath : string) (fs5 : os.filesystem) (w : World) :
  exists r : ConvertResult,
    stat_converted env res uniquePath fs5 w = send r fs5 w /\
    Dst r = Dst res /\
    (Err r = None \/
     exists detail, Err r = Some ("stat output failed: " ++ detail)) /\
    (forall msg, Stat_fault env = Some msg ->
       Err r = Some ("stat output failed: " ++ msg)) /\
    (Stat_fault env = None -> fs5 !! uniquePath <> None -> Err r = None).
Proof.
  unfold stat_converted, sys.Stat.
  destruct (Stat_fault env) as [msg|].
  - eexists. split; [reflexivity|]. cbn. repeat split; eauto; try discriminate.
    intros msg' [= <-]. reflexivity.
  - unfold os.Stat. destruct (fs5 !! uniquePath) as [n|] eqn:Hn.
    + eexists. split; [reflexivity|]. cbn. repeat split; eauto; discriminate.
    + destruct (os.too_long uniquePath);
        [|destruct (os.through_a_file fs5 uniquePath)];
        (eexists; split; [reflexivity|]); cbn;
        repeat split; eauto; try discriminate; congruence.
Qed.

Section Results.

Variables (outDir prefix : string) (keepName : bool).
Variables (env : JobEnv) (fi : FileInfo) (w : World).

Let outPath : string :=
  filepath.Join outDir (makeOutputFilename (entropy env) fi prefix keepName).

Let job : World := worker_job outDir prefix keepName env fi w.

(** The result of a job: its destination is what the uniquifier answered,
    and its error, if any, starts with one of the five prefixes. *)
Lemma worker_job_outcome :
  exists (r : ConvertResult) (fs' : os.filesystem),
    job = send r fs' w /\
    Dst r = (ensureUniquePath (Lookup_fault env) (fs w) outPath).1 /\
    (forall msg, Err r = Some msg ->
       exists step detail, In step failure_steps /\ msg = step ++ detail) /\
    ((ensureUniquePath (Lookup_fault env) (fs w) outPath).2 <> None ->
     Err r <> None).
Proof.
  unfold job, worker_job. fold outPath.
  destruct (ensureUniquePath (Lookup_fault env) (fs w) outPath)
    as [uniquePath [e|]] eqn:Hunique; cbn [fst snd].
  { destruct (ensureUniquePath_error _ _ _ _ _ Hunique) as [-> _].
    eexists _, _. split; [reflexivity|]. cbn. repeat split.
    - intros msg [= <-]. exists "unique output path fail: ", e.
      split; [cbn; tauto|reflexivity].
    - discriminate. }
  destruct (sys.CreateTemp _ _ _ _ _) as [[fs1 tmpPath] [terr|]].
  { eexists _, _. split; [reflexivity|]. cbn. repeat split.
    - intros msg [= <-]. exists "create temp file: ", (verr terr).
      split; [cbn; tauto|reflexivity].
    - congruence. }
  destruct (sys.run_avifenc _ _ _ _) as [[fs2 out] [eerr|]].
  { destruct (removeTmp (Remove_fault env) tmpPath (fs2, false)) as [fs3 flag].
    eexists _, _. split; [reflexivity|]. cbn. repeat split.
    - intros msg [= <-]. exists "avifenc failed: ", (eerr ++ "; output: " ++ out).
      split; [cbn; tauto|reflexivity].
    - congruence. }
  assert (Hstat : forall fs5,
            exists r fs',
              stat_converted env
                (with_Dst {| Src := Path fi; Dst := ""; OrigBytes := Size fi;
                             ConvBytes := 0; Err := None |} uniquePath)
                uniquePath fs5 w = send r fs' w /\
              Dst r = uniquePath /\
              (forall msg, Err r = Some msg ->
                 exists step detail,
                   In step failure_steps /\ msg = step ++ detail) /\
              (@None string <> None -> Err r <> None)).
  { intros fs5.
    destruct (stat_converted_outcome env
                (with_Dst {| Src := Path fi; Dst := ""; OrigBytes := Size fi;
                             ConvBytes := 0; Err := None |} uniquePath)
                uniquePath fs5 w) as (r & Hr & Hdst & Herr & _).
    exists r, fs5. repeat split; auto; try congruence.
    intros msg Hmsg. destruct Herr as [Hnone|[detail Hsome]]; [congruence|].
    exists "stat output failed: ", detail.
    split; [cbn; tauto|congruence]. }
  destruct (sys.Rename _ _ _ _) as [fs3 [rerr|]]; [|apply Hstat].
  destruct (copyFile env fs2 tmpPath uniquePath) as [fs4 [cerr|]];
    [|apply Hstat].
  destruct (removeTmp (Remove_fault env) tmpPath (fs4, false)) as [fs5 flag].
  eexists _, _. split; [reflexivity|]. cbn. repeat split.
  - intros msg [= <-].
    exists "save output failed: ", ("rename: " ++ verr rerr ++ ", copy: " ++ cerr).
    split; [cbn; tauto|reflexivity].
  - congruence.
Qed.

(** The destination a job reports is the joined path itself exactly when
    [Stat] answers there that nothing exists, and in every case a path at
    which nothing existed when the job started: a job never targets an
    existing file. *)
Theorem destination_was_free :
  exists r : ConvertResult,
    results job = (results w ++ [r])%list /\
    (not_exist (Lookup_fault env) (fs w) outPath = true -> Dst r = outPath) /\
    (not_exist (Lookup_fault env) (fs w) outPath = false ->
     Dst r <> outPath) /\
    (fs w !! outPath <> None -> Dst r <> outPath) /\
    (Dst r <> "" -> fs w !! Dst r = None).
Proof.
  destruct worker_job_outcome as (r & fs' & Hjob & Hdst & _ & _).
  exists r. rewrite Hjob. split; [reflexivity|].
  assert (Htaken : fs w !! outPath <> None ->
                   not_exist (Lookup_fault env) (fs w) outPath = false)
    by apply exists_taken.
  destruct (ensureUniquePath (Lookup_fault env) (fs w) outPath)
    as [u [e|]] eqn:Hunique; cbn [fst] in Hdst.
  - destruct (ensureUniquePath_error _ _ _ _ _ Hunique) as [-> _].
    assert (Hne : Dst r <> outPath).
    { rewrite Hdst. intros Hempty. symmetry in Hempty. revert Hempty.
      apply Join_nonempty, makeOutputFilename_nonempty. }
    split; [|split; [|split]]; try (intros _; exact Hne); [|congruence].
    intros Hfree. unfold ensureUniquePath in Hunique.
    rewrite Hfree in Hunique. discriminate.
  - pose proof (ensureUniquePath_free _ _ _ _ Hunique) as Hfree.
    pose proof (ensureUniquePath_not_exist _ _ _ _ Hunique) as Hnot.
    rewrite Hdst.
    assert (Hne : not_exist (Lookup_fault env) (fs w) outPath = false ->
                  u <> outPath) by (intros Hout ->; congruence).
    split; [|split; [|split]]; auto.
    intros Hout. unfold ensureUniquePath in Hunique.
    rewrite Hout in Hunique. congruence.
Qed.

(** Every failure a job reports names the step that failed.  Its
    message starts with one of the five prefixes of [failure_steps], and
    the prefix is the one of the first step that fails, followed by the
    error of that step: the uniquifier, [CreateTemp], the encoder, the
    rename together with the copy, the last [Stat].  When the output is
    in place and the last [Stat] works the job reports no error. *)
Theorem failure_names_its_step :
  exists r : ConvertResult,
    results job = (results w ++ [r])%list /\
    (forall msg, Err r = Some msg ->
       exists step detail, In step failure_steps /\ msg = step ++ detail) /\
    (forall e,
       (ensureUniquePath (Lookup_fault env) (fs w) outPath).2 = Some e ->
       Err r = Some ("unique output path fail: " ++ e)) /\
    (forall uniquePath fs1 tmpPath,
       ensureUniquePath (Lookup_fault env) (fs w) outPath
       = (uniquePath, None) ->
       (forall terr,
          sys.CreateTemp (CreateTemp_fault env) (TempRandom env) (fs w)
            (filepath.Dir uniquePath) "avif_tmp_*.avif"
          = (fs1, tmpPath, Some terr) ->
          Err r = Some ("create temp file: " ++ verr terr)) /\
       (sys.CreateTemp (CreateTemp_fault env) (TempRandom env) (fs w)
          (filepath.Dir uniquePath) "avif_tmp_*.avif"
        = (fs1, tmpPath, None) ->
        (forall err out written,
           avifenc env = EncoderFailed err out written ->
           Err r = Some ("avifenc failed: " ++ err ++ "; output: " ++ out)) /\
        (forall size,
           avifenc env = EncoderOk size ->
           (forall rmsg cerr,
              Rename_fault env = Some rmsg ->
              (copyFile env (<[tmpPath := RegularFile size]> fs1) tmpPath
                 uniquePath).2 = Some cerr ->
              Err r = Some ("save output failed: rename: " ++ rmsg
                            ++ ", copy: " ++ cerr)) /\
           (Rename_fault env = None \/
            (copyFile env (<[tmpPath := RegularFile size]> fs1) tmpPath
               uniquePath).2 = None ->
            (forall msg, Stat_fault env = Some msg ->
               Err r = Some ("stat output failed: " ++ msg)) /\
            (Stat_fault env = None -> tmpPath <> uniquePath ->
             Err r = None))))).
Proof.
  destruct worker_job_outcome as (r & fs' & Hjob & _ & Hmsg & _).
  exists r. split; [rewrite Hjob; reflexivity|]. split; [exact Hmsg|].
  clear Hmsg. revert Hjob. unfold job, worker_job. fold outPath.
  destruct (ensureUniquePath (Lookup_fault env) (fs w) outPath)
    as [u [e|]] eqn:Hunique; cbn [fst snd]; intros Hjob.
  { apply send_inj in Hjob. subst r. split.
    - intros e' [= <-]. reflexivity.
    - intros uniquePath fs1 tmpPath [=]. }
  split; [intros e' [=]|]. intros uniquePath fs1 tmpPath [= <-].
  destruct (sys.CreateTemp (CreateTemp_fault env) (TempRandom env) (fs w)
              (filepath.Dir u) "avif_tmp_*.avif")
    as [[fs1' tmp'] [terr|]] eqn:Htemp.
  { apply send_inj in Hjob. subst r. split.
    - intros terr' [= _ _ <-]. reflexivity.
    - intros [=]. }
  split; [intros terr' [=]|]. intros [= <- <-].
  destruct (avifenc env) as [size|err out written] eqn:Henc;
    cbn [sys.run_avifenc] in Hjob.
  2:{ destruct (removeTmp (Remove_fault env) tmp'
                  (<[tmp' := RegularFile written]> fs1', false))
        as [fs3 flag].
      apply send_inj in Hjob. subst r. split.
      - intros err' out' written' [= <- <- <-]. reflexivity.
      - intros size [=]. }
  split; [intros err out written [=]|]. intros size' [= <-].
  set (fs2 := <[tmp' := RegularFile size]> fs1') in *.
  assert (Hstat : forall fs5,
            stat_converted env
              (with_Dst {| Src := Path fi; Dst := ""; OrigBytes := Size fi;
                           ConvBytes := 0; Err := None |} u) u fs5 w
            = send r fs' w ->
            fs5 !! u <> None ->
            (forall msg, Stat_fault env = Some msg ->
               Err r = Some ("stat output failed: " ++ msg)) /\
            (Stat_fault env = None -> tmp' <> u -> Err r = None)).
  { intros fs5 Hsend Hthere.
    destruct (stat_converted_outcome env
                (with_Dst {| Src := Path fi; Dst := ""; OrigBytes := Size fi;
                             ConvBytes := 0; Err := None |} u) u fs5 w)
      as (r0 & Hr0 & _ & _ & Hfault & Hnone).
    rewrite Hr0 in Hsend. apply send_inj in Hsend. subst r0. auto. }
  unfold sys.Rename in Hjob.
  destruct (Rename_fault env) as [rmsg|] eqn:Hren.
  - destruct (copyFile env fs2 tmp' u) as [fs4 [cerr|]] eqn:Hcopy;
      cbn [snd].
    + destruct (removeTmp (Remove_fault env) tmp' (fs4, false))
        as [fs5 flag].
      apply send_inj in Hjob. subst r. split.
      * intros rmsg' cerr' [= <-] [= <-]. reflexivity.
      * intros [H|H]; discriminate.
    + split; [intros rmsg' cerr' _ [=]|]. intros _.
      destruct (copyFile_written _ _ _ _ _ Hcopy) as [written Hwritten].
      destruct (String.eqb_spec tmp' u) as [Heq|Hne].
      * destruct (stat_converted_outcome env
                    (with_Dst {| Src := Path fi; Dst := "";
                                 OrigBytes := Size fi; ConvBytes := 0;
                                 Err := None |} u) u
                    (sys.Remove (Remove_fault env) fs4 tmp').1 w)
          as (r0 & Hr0 & _ & _ & Hfault & _).
        rewrite Hr0 in Hjob. apply send_inj in Hjob. subst r0.
        split; [exact Hfault|]. intros _ Hne. contradiction.
      * apply (Hstat _ Hjob).
        rewrite sysRemove_other by congruence. congruence.
  - subst fs2. rewrite lookup_insert_eq in Hjob.
    split; [intros rmsg cerr [=]|]. intros _.
    apply (Hstat _ Hjob). rewrite lookup_insert_eq. discriminate.
Qed.

End Results.

Lemma destination_was_free_witness :
  exists r : ConvertResult,
    results (worker_job "out" "" true job_ok photo_png
               {| fs := disk_taken; results := [] |}) = [r] /\
    Dst r <> "out/photo.avif".
Proof.
  destruct (destination_was_free "out" "" true job_ok photo_png
              {| fs := disk_taken; results := [] |})
    as (r & Hres & _ & _ & Htaken & _).
  exists r. split; [exact Hres|].
  apply Htaken. discriminate.
Defined.

Lemma failure_names_its_step_witness :
  exists r : ConvertResult,
    results (worker_job "out" "" true job_temp_fails photo_png world0) = [r] /\
    Err r = Some "create temp file: no space left on device".
Proof.
  destruct (failure_names_its_step "out" "" true job_temp_fails photo_png
              world0) as (r & Hres & _ & _ & Hsteps).
  exists r. split; [exact Hres|].
  destruct (Hsteps "out/photo.avif" empty_out "" eq_refl) as [Htemp _].
  exact (Htemp (os.ErrFault "no space left on device") eq_refl).
Defined.

(** ** The pool and the filesystem *)

(** A worker never changes and never removes what was there when it
    started, however many jobs it takes. *)
Lemma worker_keeps (outDir prefix : string) (keepName : bool)
    (jobs : list (JobEnv * FileInfo)) (w : World) (p : string) (n : node) :
  fs w !! p = Some n ->
  fs (worker outDir prefix keepName jobs w) !! p = Some n.
Proof.
  unfold worker. revert w.
  induction jobs as [|[env fi] jobs IH]; intros w Hp; [assumption|].
  cbn [fold_left fst snd]. apply IH.
  apply (worker_job_keeps outDir prefix keepName env fi w p n Hp).
Qed.

(** A run of [main], in any mode, under any schedule and however it
    ends, never changes and never removes a file or a directory that
    existed when it started: the outputs of an earlier run are never
    overwritten. *)
Theorem main_keeps_existing (fl : flag.Flags) (env : MainEnv)
    (p : string) (n : node) :
  disk env !! p = Some n -> final (main fl env) !! p = Some n.
Proof.
  intros Hp. unfold main, stop.
  repeat match goal with
         | |- context [match MkdirAll ?a ?b ?c with _ => _ end] =>
             let E := fresh "Hmk" in
             destruct (MkdirAll a b c) as [fs1 oerr] eqn:E;
             apply MkdirAll_adds_directories in E; destruct E as [Hkeep _];
             specialize (Hkeep p n Hp)
         | |- context [match ?x with _ => _ end] => destruct x
         end; cbn [final]; auto.
  all: match goal with
       | |- shared (run_pool ?o ?pr ?k ?s _ 0 (start_pool ?jobs ?st ?d)) !! _
            = _ =>
           destruct (start_pool_done o pr k d
                       (map (fun j : JobEnv * FileInfo => Path j.2) jobs)
                       s jobs st d (kept_refl d)
                       (start_workers_nonempty _) eq_refl)
             as (_ & _ & Hk & _);
           apply Hk; assumption
       end.
Qed.

Lemma main_keeps_existing_witness :
  final (main convert_jpeg (env_on disk_taken)) !! "out/photo.avif"
  = Some (RegularFile 40).
Proof.
  apply (main_keeps_existing convert_jpeg (env_on disk_taken)
           "out/photo.avif" (RegularFile 40)).
  reflexivity.
Defined.

(** ** Runs of [main] that convert nothing *)

(** With [-list], or without a format (none given, or a lone dot), a run
    on a valid input directory prints the counts and returns: it makes no
    output directory, previews nothing and starts no worker, whatever the
    other flags say. *)
Theorem main_lists_without_writing (fl : flag.Flags) (env : MainEnv) :
  flag.input fl <> "" ->
  (exists info, disk env !! flag.input fl = Some info /\ IsDir info = true) ->
  flag.listOnly fl = true \/ normalize_format (flag.format fl) = "" ->
  main fl env
  = stop Returned (Some (scanDirectory (walk env (flag.input fl))).1.2)
      (disk env).
Proof.
  intros Hinput (info & Hstat & Hdir) Hmode. unfold main.
  destruct (String.eqb_spec (flag.input fl) "") as [|_]; [contradiction|].
  unfold os.Stat. rewrite Hstat, Hdir. cbn [negb].
  rewrite scanDirectory_recorded. cbn [fst snd].
  destruct (flag.listOnly fl); [reflexivity|].
  destruct Hmode as [|Hnone]; [discriminate|].
  rewrite Hnone. reflexivity.
Qed.

Lemma main_lists_without_writing_witness :
  main list_only (env_on disk_no_out)
  = stop Returned (Some (scanDirectory sample_walk).1.2) disk_no_out.
Proof.
  apply (main_lists_without_writing list_only (env_on disk_no_out)).
  - discriminate.
  - exists Directory. split; reflexivity.
  - left. reflexivity.
Defined.

(** A run that ends on a fatal error has previewed nothing, started no
    worker and collected no result; and an input directory that is empty
    as a name, missing, or not a directory is fatal before anything is
    scanned or written. *)
Theorem fatal_runs_nothing (fl : flag.Flags) (env : MainEnv) :
  (forall msg, ending (main fl env) = Fatal msg ->
     previews (main fl env) = [] /\ started (main fl env) = [] /\
     collected (main fl env) = [] /\ tally (main fl env) = None) /\
  (flag.input fl = "" \/ disk env !! flag.input fl = None \/
   (exists info, disk env !! flag.input fl = Some info /\ IsDir info = false) ->
   exists msg, main fl env = stop (Fatal msg) None (disk env)).
Proof.
  split.
  - intros msg. unfold main, stop.
    repeat match goal with
           | |- context [match ?x with _ => _ end] => destruct x
           end;
      cbn [ending previews started collected tally];
      intros H; try discriminate H; auto.
  - intros Hbad. unfold main, os.Stat.
    destruct (String.eqb_spec (flag.input fl) "") as [|Hne]; [eauto|].
    destruct Hbad as [|[Hnone|(info & Hsome & Hdir)]]; [contradiction| |].
    + rewrite Hnone.
      destruct (os.too_long _); [|destruct (os.through_a_file _ _)]; eauto.
    + rewrite Hsome, Hdir. cbn [negb]. eauto.
Qed.

Lemma fatal_runs_nothing_witness :
  exists msg,
    main (with_format dry_run_png "png") (env_on ∅) = stop (Fatal msg) None ∅.
Proof.
  apply (proj2 (fatal_runs_nothing (with_format dry_run_png "png") (env_on ∅))).
  right. left. reflexivity.
Defined.

(** The extensions of the files the scanner lists are normalized ones. *)
Lemma recorded_list_ext (walk : list WalkEntry) (fi : FileInfo) :
  In fi (omap recorded walk) -> In (Ext fi) normalized_exts.
Proof.
  intros Hin. apply list_elem_of_In, list_elem_of_omap in Hin.
  destruct Hin as (e & _ & Hrec).
  destruct (recorded_ext e fi Hrec) as (_ & _ & Hacc & Hext).
  rewrite Hext. apply normalize_accepted. assumption.
Qed.

(** The count of a key after a scan, read as [main] reads it. *)
Lemma scan_count (walk : list WalkEntry) (k : string) :
  (scanDirectory walk).1.2 !! k
  = match count_ext k (scanDirectory walk).1.1 with
    | O => None
    | S n => Some (int64 (Z.of_nat (S n)))
    end.
Proof.
  rewrite scanDirectory_recorded. cbn [fst snd]. rewrite count_one_lookup.
  destruct (count_ext k (omap recorded walk)); [apply lookup_empty|].
  unfold int_at. rewrite lookup_empty. reflexivity.
Qed.

(** A format outside [{jpg, png, bmp, tiff, webp, heic}], once normalized,
    is never found: the run ends on the no-files error and the filesystem
    is untouched, whatever the directory holds. *)
Theorem unsupported_format_is_fatal (fl : flag.Flags) (env : MainEnv) :
  reaches_check fl env ->
  ~ In (normalize_format (flag.format fl)) normalized_exts ->
  main fl env
  = stop (Fatal ("No ." ++ normalize_format (flag.format fl)
                 ++ " files found in directory " ++ flag.input fl))
      (Some (scanDirectory (walk env (flag.input fl))).1.2) (disk env).
Proof.
  intros Hreach Hout. rewrite (main_at_check fl env Hreach). cbv zeta.
  assert (Hzero : int_at (scanDirectory (walk env (flag.input fl))).1.2
                    (normalize_format (flag.format fl)) = 0).
  { unfold int_at. rewrite scan_count.
    destruct (count_ext _ _) as [|n] eqn:Hn; [reflexivity|].
    exfalso.
    assert (Hz : count_ext (normalize_format (flag.format fl))
                   (scanDirectory (walk env (flag.input fl))).1.1 = O).
    { apply count_ext_zero. intros fi Hin Heq. apply Hout. rewrite <- Heq.
      rewrite scanDirectory_recorded in Hin. cbn [fst snd] in Hin.
      apply (recorded_list_ext _ _ Hin). }
    congruence. }
  rewrite Hzero. reflexivity.
Qed.

Lemma unsupported_format_is_fatal_witness :
  main (with_format convert_jpeg ".GIF") (env_on disk_taken)
  = stop (Fatal ("No ." ++ "gif" ++ " files found in directory " ++ "in"))
      (Some (scanDirectory sample_walk).1.2) disk_taken.
Proof.
  apply (unsupported_format_is_fatal (with_format convert_jpeg ".GIF")
           (env_on disk_taken)).
  - apply sample_reaches_check; try reflexivity. discriminate.
  - cbn. intros H.
    repeat (destruct H as [H|H]; [discriminate H|]). exact H.
Defined.

(** ** Scanner, selection and pool agree on the number of jobs *)

(** In a run that returns after the format check, the count printed for
    the requested format is at least one and is the number of files
    selected; a dry run prints that many previews and a conversion
    collects that many results. *)
Theorem jobs_match_the_count (fl : flag.Flags) (env : MainEnv) :
  reaches_check fl env -> ending (main fl env) = Returned ->
  let format := normalize_format (flag.format fl) in
  let files := (scanDirectory (walk env (flag.input fl))).1.1 in
  let jobs := count_ext format files in
  (1 <= jobs)%nat /\
  (exists counts, printed_counts (main fl env) = Some counts /\
                  counts !! format = Some (int64 (Z.of_nat jobs))) /\
  (if flag.dryRun fl
   then length (previews (main fl env)) = jobs
   else length (collected (main fl env)) = jobs).
Proof.
  intros Hreach. rewrite (main_at_check fl env Hreach). cbv zeta.
  pose proof (scan_count (walk env (flag.input fl))
                (normalize_format (flag.format fl))) as Hcount.
  set (format := normalize_format (flag.format fl)) in *.
  set (files := (scanDirectory (walk env (flag.input fl))).1.1) in *.
  set (counts := (scanDirectory (walk env (flag.input fl))).1.2) in *.
  destruct (Z.eqb_spec (int_at counts format) 0) as [|Hnz]; [discriminate|].
  assert (Hjobs : exists n, count_ext format files = S n).
  { destruct (count_ext format files) as [|n]; [|eauto].
    exfalso. apply Hnz. unfold int_at. rewrite Hcount. reflexivity. }
  destruct Hjobs as [n Hn]. rewrite Hn in Hcount. rewrite !Hn.
  destruct (MkdirAll _ _ _) as [fs1 [e|]]; [discriminate|].
  assert (Hsel : length (select format files) = S n) by exact Hn.
  destruct (flag.dryRun fl); cbn [ending printed_counts previews collected].
  - intros _. split; [lia|]. split; [eauto|].
    unfold dry_run_previews. rewrite length_imap. exact Hsel.
  - destruct (LookPath_avifenc env); [discriminate|].
    cbn [ending printed_counts collected]. intros _.
    split; [lia|]. split; [eauto|].
    set (jobs := imap (fun k f => (job_env env k, f)) (select format files)).
    destruct (start_pool_done (chosen_outDir fl) (flag.prefix fl)
                (flag.keepName fl) fs1
                (map (fun j : JobEnv * FileInfo => Path j.2) jobs)
                (schedule env) jobs (start_workers (flag.workers fl)) fs1
                (kept_refl fs1) (start_workers_nonempty _) eq_refl)
      as (_ & _ & _ & Hperm).
    apply Permutation_length in Hperm.
    rewrite !length_map in Hperm. rewrite Hperm. unfold jobs.
    rewrite length_imap. exact Hsel.
Qed.

Lemma jobs_match_the_count_witness :
  length (collected (main convert_jpeg (env_on disk_taken))) = 2%nat.
Proof.
  assert (Hreach : reaches_check convert_jpeg (env_on disk_taken)).
  { apply sample_reaches_check; try reflexivity. discriminate. }
  destruct (jobs_match_the_count convert_jpeg (env_on disk_taken) Hreach)
    as (_ & _ & Hlen).
  - vm_compute. reflexivity.
  - exact Hlen.
Defined.

(** ** The aggregator *)

(** Counts and sums of a list of results do not depend on its order. *)
Lemma tally_inputs_permutation (rs rs' : list ConvertResult) :
  Permutation rs rs' ->
  length (successes rs) = length (successes rs') /\
  length (failures rs) = length (failures rs') /\
  sum_Z (map OrigBytes (successes rs)) = sum_Z (map OrigBytes (successes rs')) /\
  sum_Z (map ConvBytes (successes rs)) = sum_Z (map ConvBytes (successes rs')).
Proof.
  unfold successes, failures, sum_Z.
  induction 1 as [|r rs rs' _ IH|r1 r2 rs|rs1 rs2 rs3 _ IH1 _ IH2].
  - auto.
  - destruct IH as (H1 & H2 & H3 & H4). cbn [List.filter].
    destruct (Err r); cbn [length map fold_right]; repeat split; lia.
  - cbn [List.filter].
    destruct (Err r1), (Err r2); cbn [length map fold_right List.filter];
      repeat split; lia.
  - destruct IH1 as (? & ? & ? & ?), IH2 as (? & ? & ? & ?).
    repeat split; congruence.
Qed.

Lemma tally_eq (t t' : Tally) :
  success t = success t' -> fail t = fail t' ->
  totalOrig t = totalOrig t' -> totalConv t = totalConv t' -> t = t'.
Proof.
  destruct t, t'. cbn. intros -> -> -> ->. reflexivity.
Qed.

(** The tally does not depend on the order in which the results arrive
    from the workers. *)
Theorem collect_any_order (rs rs' : list ConvertResult) :
  Permutation rs rs' -> collect rs = collect rs'.
Proof.
  intros Hperm.
  destruct (tally_inputs_permutation rs rs' Hperm) as (H1 & H2 & H3 & H4).
  destruct (collect_totals rs) as (S1 & F1 & O1 & C1).
  destruct (collect_totals rs') as (S2 & F2 & O2 & C2).
  apply tally_eq; congruence.
Qed.

Lemma collect_any_order_witness :
  collect (rev sample_results) = collect sample_results.
Proof.
  apply (collect_any_order (rev sample_results) sample_results).
  symmetry. apply Permutation_rev.
Defined.

Lemma successes_idempotent (rs : list ConvertResult) :
  successes (successes rs) = successes rs.
Proof.
  unfold successes. induction rs as [|r rs IH]; [reflexivity|].
  cbn [List.filter]. destruct (Err r) eqn:E; [exact IH|].
  cbn [List.filter]. rewrite E. f_equal. exact IH.
Qed.

Lemma successes_or_failures (rs : list ConvertResult) :
  (length (successes rs) + length (failures rs))%nat = length rs.
Proof.
  unfold successes, failures. induction rs as [|r rs IH]; [reflexivity|].
  cbn [List.filter]. destruct (Err r); cbn [length]; lia.
Qed.

(** Every result is counted once, as a success or as a failure, and a
    failure adds nothing to the byte totals: they are those of the
    successes alone. *)
Theorem collect_counts_every_result (rs : list ConvertResult) :
  success (collect rs) = int64 (Z.of_nat (length (successes rs))) /\
  fail (collect rs) = int64 (Z.of_nat (length (failures rs))) /\
  (length (successes rs) + length (failures rs))%nat = length rs /\
  totalOrig (collect rs) = totalOrig (collect (successes rs)) /\
  totalConv (collect rs) = totalConv (collect (successes rs)).
Proof.
  destruct (collect_totals rs) as (Hs & Hf & Ho & Hc).
  destruct (collect_totals (successes rs)) as (_ & _ & Ho' & Hc').
  rewrite successes_idempotent in Ho', Hc'.
  pose proof (successes_or_failures rs).
  repeat split; congruence.
Qed.

(** ** Successive jobs of one worker *)

(** A job that reports a success found its destination free and leaves a
    file of the reported size there. *)
Lemma worker_job_success (outDir prefix : string) (keepName : bool)
    (env : JobEnv) (fi : FileInfo) (w : World) :
  exists (r : ConvertResult) (fs' : os.filesystem),
    worker_job outDir prefix keepName env fi w = send r fs' w /\
    (Err r = None ->
     fs w !! Dst r = None /\
     exists st, fs' !! Dst r = Some st /\ ConvBytes r = StSize st).
Proof.
  unfold worker_job.
  destruct (ensureUniquePath (Lookup_fault env) (fs w) _)
    as [uniquePath [e|]] eqn:Hunique.
  { eexists _, _. split; [reflexivity|]. discriminate. }
  apply ensureUniquePath_free in Hunique.
  destruct (sys.CreateTemp _ _ _ _ _) as [[fs1 tmpPath] [terr|]].
  { eexists _, _. split; [reflexivity|]. discriminate. }
  destruct (sys.run_avifenc _ _ _ _) as [[fs2 out] [eerr|]].
  { destruct (removeTmp (Remove_fault env) tmpPath (fs2, false))
      as [fs3 flag].
    eexists _, _. split; [reflexivity|]. discriminate. }
  assert (Hstat : forall fs5,
            exists r fs',
              stat_converted env
                (with_Dst {| Src := Path fi; Dst := ""; OrigBytes := Size fi;
                             ConvBytes := 0; Err := None |} uniquePath)
                uniquePath fs5 w = send r fs' w /\
              (Err r = None ->
               fs w !! Dst r = None /\
               exists st, fs' !! Dst r = Some st /\ ConvBytes r = StSize st)).
  { intros fs5.
    destruct (stat_converted_shape env
                (with_Dst {| Src := Path fi; Dst := ""; OrigBytes := Size fi;
                             ConvBytes := 0; Err := None |} uniquePath)
                uniquePath fs5 w eq_refl eq_refl) as (r & Hr & Hdst & Hm).
    exists r, fs5. split; [exact Hr|]. intros Hnone.
    rewrite Hnone in Hm. rewrite Hdst. split; assumption. }
  destruct (sys.Rename _ _ _ _) as [fs3 [rerr|]]; [|apply Hstat].
  destruct (copyFile env fs2 tmpPath uniquePath) as [fs4 [cerr|]];
    [|apply Hstat].
  destruct (removeTmp (Remove_fault env) tmpPath (fs4, false))
    as [fs5 flag].
  eexists _, _. split; [reflexivity|]. discriminate.
Qed.

Lemma successes_app (rs rs' : list ConvertResult) :
  successes (rs ++ rs') = (successes rs ++ successes rs')%list.
Proof. apply List.filter_app. Qed.

Lemma In_successes (r : ConvertResult) (rs : list ConvertResult) :
  In r (successes rs) <-> In r rs /\ Err r = None.
Proof.
  unfold successes. rewrite List.filter_In.
  destruct (Err r); split; intros [? ?]; split; congruence.
Qed.

(** One more job keeps the channel and the disk in agreement. *)
Lemma worker_job_outputs (outDir prefix : string) (keepName : bool)
    (env : JobEnv) (fi : FileInfo) (w : World) :
  outputs_on_disk w ->
  outputs_on_disk (worker_job outDir prefix keepName env fi w).
Proof.
  intros [Hnodup Hdisk].
  pose proof (worker_job_keeps outDir prefix keepName env fi w) as Hkeep.
  destruct (worker_job_success outDir prefix keepName env fi w)
    as (r & fs' & Hjob & Hok).
  rewrite Hjob in Hkeep |- *. cbn [fs send] in Hkeep.
  unfold outputs_on_disk, send. cbn [fs results]. split.
  - rewrite successes_app, map_app. apply NoDup_app. split; [assumption|].
    split.
    + intros d Hd Hd'. apply list_elem_of_In in Hd, Hd'.
      apply in_map_iff in Hd. destruct Hd as (r0 & <- & Hr0).
      apply In_successes in Hr0. destruct Hr0 as [Hin0 Hnone0].
      destruct (Hdisk r0 Hin0 Hnone0) as (st & Hst & _).
      unfold successes in Hd'. cbn [List.filter] in Hd'.
      destruct (Err r) eqn:Herr; [destruct Hd'|].
      cbn [map] in Hd'. destruct Hd' as [Heq|[]].
      destruct (Hok eq_refl) as [Hfree _]. congruence.
    + unfold successes. cbn [List.filter].
      destruct (Err r); cbn [map]; [constructor|].
      apply NoDup_singleton.
  - intros r0 Hin Hnone. apply in_app_iff in Hin.
    destruct Hin as [Hin|[<-|[]]].
    + destruct (Hdisk r0 Hin Hnone) as (st & Hst & Hsize).
      exists st. split; [apply Hkeep; assumption|assumption].
    + destruct (Hok Hnone) as [_ Hthere]. exact Hthere.
Qed.

Lemma worker_outputs (outDir prefix : string) (keepName : bool)
    (jobs : list (JobEnv * FileInfo)) (w : World) :
  outputs_on_disk w -> outputs_on_disk (worker outDir prefix keepName jobs w).
Proof.
  unfold worker. revert w.
  induction jobs as [|[env fi] jobs IH]; intros w Hw; [assumption|].
  cbn [fold_left fst snd]. apply IH, worker_job_outputs. assumption.
Qed.

(** When the jobs of a worker run one after the other on a filesystem
    that nothing else writes, no two successes share a destination, and
    when the last job is done every success is still on disk with the
    size it reported: a later job never overwrites an earlier output. *)
Theorem successes_keep_their_files (outDir prefix : string) (keepName : bool)
    (jobs : list (JobEnv * FileInfo)) (w : World) :
  results w = [] ->
  let w' := worker outDir prefix keepName jobs w in
  NoDup (map Dst (successes (results w'))) /\
  forall r, In r (results w') -> Err r = None ->
    exists st, fs w' !! Dst r = Some st /\ ConvBytes r = StSize st.
Proof.
  intros Hempty w'. apply worker_outputs.
  unfold outputs_on_disk. rewrite Hempty. split; [constructor|].
  intros r [].
Qed.

Lemma successes_keep_their_files_witness :
  NoDup (map Dst (successes (results (worker "out" "" true same_photo_twice
                                        world0)))).
Proof.
  apply (successes_keep_their_files "out" "" true same_photo_twice world0).
  reflexivity.
Defined.

(** ** The uniquifier, asked again *)

(** An answer of the uniquifier is stable and is used up by one file: asked
    about its own answer it returns it unchanged, and once a file exists
    there, asking again for the same path gives another path, which was
    free before as well. *)
Theorem ensureUniquePath_again (fault : string -> option string)
    (fs0 : os.filesystem) (path q : string) :
  ensureUniquePath fault fs0 path = (q, None) ->
  ensureUniquePath fault fs0 q = (q, None) /\
  forall (n : node) (q' : string),
    ensureUniquePath fault (<[q := n]> fs0) path = (q', None) ->
    q' <> q /\ fs0 !! q' = None.
Proof.
  intros Hq. pose proof (ensureUniquePath_not_exist _ _ _ _ Hq) as Hfree.
  split.
  - unfold ensureUniquePath. rewrite Hfree. reflexivity.
  - intros n q' Hq'. apply ensureUniquePath_free in Hq'.
    assert (Hne : q' <> q).
    { intros ->. rewrite lookup_insert_eq in Hq'. discriminate. }
    split; [assumption|].
    rewrite lookup_insert_ne in Hq' by congruence. assumption.
Qed.

Lemma ensureUniquePath_again_witness :
  ensureUniquePath (fun _ => None) disk_taken "out/photo-1.avif"
  = ("out/photo-1.avif", None).
Proof.
  apply (ensureUniquePath_again (fun _ => None) disk_taken "out/photo.avif"
           "out/photo-1.avif").
  vm_compute. reflexivity.
Defined.

(** ** The scanner, entry by entry *)

Lemma accepted_allowed (ext : string) :
  In ext accepted_exts ->
  negb (String.eqb ext "") && bool_at extAllowed ext = true.
Proof.
  intros Hin. cbn in Hin.
  repeat (destruct Hin as [<-|Hin]; [vm_compute; reflexivity|]).
  destruct Hin.
Qed.

Lemma recorded_listed (e : WalkEntry) (fi : FileInfo) :
  recorded e = Some fi <-> listed_as e fi.
Proof.
  unfold recorded, listed_as. split.
  - destruct (walkErr e); [discriminate|].
    destruct (d_IsDir e); [discriminate|].
    destruct (d_Info e) as [[mtime size]|]; [|discriminate].
    destruct (negb _ && _) eqn:Hok; [|discriminate].
    apply andb_prop in Hok. destruct Hok as [_ Hallowed].
    apply extAllowed_accepted in Hallowed.
    intros [= <-]. cbn. repeat split; auto.
  - destruct fi as [p m x s]. cbn [Path ModTime Ext Size].
    intros (-> & -> & -> & -> & Hin & ->). cbv beta iota zeta.
    rewrite (accepted_allowed _ Hin). reflexivity.
Qed.



(** The scanner never fails; and an entry with an error, a directory, an
    entry whose [Info] fails or whose extension is outside the allow-set
    changes neither the list nor the counts, wherever it is met. *)
Theorem scanDirectory_passes_over (before after : list WalkEntry)
    (e : WalkEntry) :
  (scanDirectory (before ++ e :: after)).2 = None /\
  (passed_over e \/ ~ In (scan_ext (w_path e)) accepted_exts ->
   scanDirectory (before ++ e :: after) = scanDirectory (before ++ after)).
Proof.
  rewrite !scanDirectory_recorded. split; [reflexivity|].
  intros Hskip.
  assert (Hnone : recorded e = None).
  { destruct (recorded e) as [fi|] eqn:Hrec; [|reflexivity].
    apply recorded_listed in Hrec.
    destruct Hrec as (He & Hd & Hi & _ & Hin & _).
    destruct Hskip as [[Herr|[Hdir|[msg Hinfo]]]|Hout];
      [congruence|congruence|congruence|contradiction]. }
  rewrite !omap_app. cbn [omap list_omap]. rewrite Hnone. reflexivity.
Qed.

Lemma scanDirectory_passes_over_witness :
  scanDirectory ([entry "in/a.jpeg" 100] ++ entry "in/notes.txt" 10
                 :: [entry "in/photo.png" 100])
  = scanDirectory ([entry "in/a.jpeg" 100] ++ [entry "in/photo.png" 100]).
Proof.
  apply (scanDirectory_passes_over [entry "in/a.jpeg" 100]
           [entry "in/photo.png" 100] (entry "in/notes.txt" 10)).
  right. vm_compute. intros H.
  repeat (destruct H as [H|H]; [discriminate H|]). exact H.
Defined.

(** ** The names the namer builds *)

(** Whatever the file, the prefix, the naming mode and the random source,
    the name the namer builds ends in [.avif]. *)
Theorem makeOutputFilename_ends_in_avif (en : Entropy) (f : FileInfo)
    (prefix : string) (keepName : bool) :
  strings.HasSuffix (makeOutputFilename en f prefix keepName) ".avif" = true.
Proof.
  unfold makeOutputFilename.
  destruct keepName, (negb (String.eqb prefix ""));
    repeat first [apply HasSuffix_app | apply HasSuffix_app_r].
Qed.

(** A timestamped name is the prefix and an underscore, if a prefix is
    given, then eight decimal digits, an underscore, a token of hex digits
    and [.avif]; the token has six digits when the random source works,
    and between one and seven when it fails. *)
Theorem timestamped_name_shape (en : Entropy) (f : FileInfo)
    (prefix : string) :
  0 <= time.Year (ModTime f) <= 9999 ->
  1 <= time.Month (ModTime f) <= 12 ->
  1 <= time.Day (ModTime f) <= 31 ->
  exists date token : string,
    makeOutputFilename en f prefix false
    = (if String.eqb prefix "" then "" else prefix ++ "_")
      ++ date ++ "_" ++ token ++ ".avif" /\
    String.length date = 8%nat /\ all_decimal date = true /\
    all_hex token = true /\
    (forall bytes, rand_Read en = inl bytes -> String.length token = 6%nat) /\
    (forall e, rand_Read en = inr e -> (1 <= String.length token <= 7)%nat).
Proof.
  intros Hy Hm Hd.
  exists (time.Format_20060102 (ModTime f)), (rnd en).
  destruct (Format_20060102_eight (ModTime f) Hy Hm Hd) as [Hlen Hdec].
  split; [apply makeOutputFilename_timestamped|].
  split; [assumption|]. split; [assumption|].
  destruct (rand_Read en) as [[[b0 b1] b2]|e] eqn:Hread.
  - destruct (rnd_random_six en b0 b1 b2 Hread) as [Hsix Hhex].
    repeat split; intros; try assumption; discriminate.
  - destruct (rnd_fallback_length en e Hread) as [Hrange Hhex].
    repeat split; intros; try assumption; try discriminate; lia.
Qed.

Lemma timestamped_name_shape_witness :
  exists date token : string,
    makeOutputFilename entropy_failed photo_png "trip" false
    = "trip_" ++ date ++ "_" ++ token ++ ".avif" /\
    String.length date = 8%nat /\ all_hex token = true.
Proof.
  destruct (timestamped_name_shape entropy_failed photo_png "trip")
    as (date & token & Hname & Hlen & _ & Hhex & _).
  - cbn. lia.
  - cbn. lia.
  - cbn. lia.
  - exists date, token. repeat split; assumption.
Defined.

(** ** How the format may be spelled *)

Lemma lower_byte_idempotent (c : ascii) :
  strings.lower_byte (strings.lower_byte c) = strings.lower_byte c.
Proof.
  destruct c as [[] [] [] [] [] [] [] []]; reflexivity.
Qed.

Lemma lower_byte_dot (c : ascii) :
  Ascii.eqb "." (strings.lower_byte c) = Ascii.eqb "." c.
Proof.
  destruct c as [[] [] [] [] [] [] [] []]; reflexivity.
Qed.

Lemma lower_byte_ascii (c : ascii) :
  (N_of_ascii (strings.lower_byte c) <? 128)%N = (N_of_ascii c <? 128)%N.
Proof.
  destruct c as [[] [] [] [] [] [] [] []]; reflexivity.
Qed.

Lemma lower_bytes_ascii (s : string) :
  strings.isASCII (strings.lower_bytes s) = strings.isASCII s.
Proof.
  induction s as [|c s IH]; [reflexivity|].
  cbn [strings.lower_bytes strings.isASCII].
  rewrite lower_byte_ascii, IH. reflexivity.
Qed.

Lemma lower_bytes_idempotent (s : string) :
  strings.lower_bytes (strings.lower_bytes s) = strings.lower_bytes s.
Proof.
  induction s as [|c s IH]; [reflexivity|].
  cbn [strings.lower_bytes]. rewrite lower_byte_idempotent, IH. reflexivity.
Qed.

(** On a string of ASCII bytes [ToLower] works byte by byte. *)
Lemma ToLower_ascii (s : string) :
  strings.isASCII s = true -> strings.ToLower s = strings.lower_bytes s.
Proof. unfold strings.ToLower. intros ->. reflexivity. Qed.

Lemma TrimPrefix_dot_ascii (s : string) :
  strings.isASCII s = true ->
  strings.isASCII (strings.TrimPrefix s ".") = true.
Proof.
  destruct s as [|c s]; [reflexivity|].
  rewrite TrimPrefix_dot. destruct (Ascii.eqb "." c); [|tauto].
  cbn [strings.isASCII]. intros H. apply andb_prop in H. tauto.
Qed.

Lemma lower_bytes_TrimPrefix_dot (s : string) :
  strings.TrimPrefix (strings.lower_bytes s) "."
  = strings.lower_bytes (strings.TrimPrefix s ".").
Proof.
  destruct s as [|c s]; [reflexivity|].
  cbn [strings.lower_bytes]. rewrite !TrimPrefix_dot, lower_byte_dot.
  destruct (Ascii.eqb "." c); reflexivity.
Qed.

(** The decoder, one rune at a time. *)
Lemma runes_cons (s0 : Z) (t1 : list Z) :
  utf8.runes (s0 :: t1)
  = match utf8.size_of s0 with
    | 1 => s0 :: utf8.runes t1
    | 2 =>
        match t1 with
        | s1 :: t2 =>
            if utf8.accepts s0 s1
            then Z.lor (Z.shiftl (Z.land s0 0x1F) 6) (Z.land s1 0x3F)
                 :: utf8.runes t2
            else utf8.RuneError :: utf8.runes t1
        | _ => utf8.RuneError :: utf8.runes t1
        end
    | 3 =>
        match t1 with
        | s1 :: s2 :: t3 =>
            if utf8.accepts s0 s1 && utf8.is_cont s2
            then Z.lor (Z.shiftl (Z.land s0 0x0F) 12)
                   (Z.lor (Z.shiftl (Z.land s1 0x3F) 6) (Z.land s2 0x3F))
                 :: utf8.runes t3
            else utf8.RuneError :: utf8.runes t1
        | _ => utf8.RuneError :: utf8.runes t1
        end
    | 4 =>
        match t1 with
        | s1 :: s2 :: s3 :: t4 =>
            if utf8.accepts s0 s1 && utf8.is_cont s2 && utf8.is_cont s3
            then Z.lor (Z.shiftl (Z.land s0 0x07) 18)
                   (Z.lor (Z.shiftl (Z.land s1 0x3F) 12)
                      (Z.lor (Z.shiftl (Z.land s2 0x3F) 6) (Z.land s3 0x3F)))
                 :: utf8.runes t4
            else utf8.RuneError :: utf8.runes t1
        | _ => utf8.RuneError :: utf8.runes t1
        end
    | _ => utf8.RuneError :: utf8.runes t1
    end.
Proof. reflexivity. Qed.

Lemma size_of_cases (s0 : Z) :
  (s0 < 0x80)%Z /\ utf8.size_of s0 = 1 \/
  (0x80 <= s0)%Z /\
  (utf8.size_of s0 = 0 \/ utf8.size_of s0 = 2 \/ utf8.size_of s0 = 3 \/
   utf8.size_of s0 = 4).
Proof.
  unfold utf8.size_of. destruct (Z.ltb_spec s0 0x80); [left; auto|].
  right. split; [assumption|].
  repeat match goal with
         | |- context [if ?b then _ else _] => destruct b
         end; auto.
Qed.

Lemma is_cont_ascii (s1 : Z) : (s1 < 0x80)%Z -> utf8.is_cont s1 = false.
Proof.
  intros H. unfold utf8.is_cont. apply andb_false_iff. left.
  apply Z.leb_gt. assumption.
Qed.

Lemma accepts_ascii (s0 s1 : Z) : (s1 < 0x80)%Z -> utf8.accepts s0 s1 = false.
Proof.
  intros H. unfold utf8.accepts.
  repeat match goal with
         | |- context [if ?b then _ else _] => destruct b
         end;
    try apply (is_cont_ascii _ H);
    apply andb_false_iff; left; apply Z.leb_gt; lia.
Qed.

(** Two byte strings that differ in ASCII bytes only, and there only by
    bytes with the same lower case, decode to runes with the same lower
    case. *)
Lemma runes_related (n : nat) :
  forall l l' : list Z,
    (length l <= n)%nat ->
    Forall2 (fun a b =>
               a = b \/
               (a < 0x80 /\ b < 0x80 /\
                unicode.ToLower a = unicode.ToLower b)%Z) l l' ->
    Forall2 (fun a b => unicode.ToLower a = unicode.ToLower b)
      (utf8.runes l) (utf8.runes l').
Proof.
  induction n as [|n IH]; intros l l' Hlen Hrel.
  { destruct Hrel; [constructor|cbn [length] in Hlen; lia]. }
  destruct Hrel as [|a b t t' Hab Ht]; [constructor|].
  cbn [length] in Hlen.
  assert (IHt : forall u u',
            (length u <= length t)%nat ->
            Forall2 (fun a b =>
                       a = b \/
                       (a < 0x80 /\ b < 0x80 /\
                        unicode.ToLower a = unicode.ToLower b)%Z) u u' ->
            Forall2 (fun a b => unicode.ToLower a = unicode.ToLower b)
              (utf8.runes u) (utf8.runes u')).
  { intros u u' Hu Huu. apply IH; [lia|assumption]. }
  assert (Hbad : Forall2 (fun a b => unicode.ToLower a = unicode.ToLower b)
                   (utf8.RuneError :: utf8.runes t)
                   (utf8.RuneError :: utf8.runes t')).
  { constructor; [reflexivity|]. apply IHt; [lia|assumption]. }
  rewrite !runes_cons.
  destruct Hab as [<-|(Ha & Hb & Hlow)].
  2:{ destruct (size_of_cases a) as [[_ ->]|[Hge _]]; [|lia].
      destruct (size_of_cases b) as [[_ ->]|[Hge _]]; [|lia].
      constructor; [exact Hlow|]. apply IHt; [lia|assumption]. }
  destruct (size_of_cases a) as [[_ ->]|[_ [-> | [-> | [-> | ->]]]]].
  - constructor; [reflexivity|]. apply IHt; [lia|assumption].
  - exact Hbad.
  - inversion Ht as [|a1 b1 t2 t2' H1 Ht2]; subst; [exact Hbad|].
    destruct H1 as [<-|(H1a & H1b & _)].
    + destruct (utf8.accepts a a1); [|exact Hbad].
      constructor; [reflexivity|]. apply IHt; [cbn [length]; lia|assumption].
    + rewrite !accepts_ascii by assumption. exact Hbad.
  - inversion Ht as [|a1 b1 t2 t2' H1 Ht2]; subst; [exact Hbad|].
    destruct H1 as [<-|(H1a & H1b & _)].
    2:{ rewrite !accepts_ascii by assumption. cbn [andb].
        destruct t2, t2'; exact Hbad. }
    inversion Ht2 as [|a2 b2 t3 t3' H2 Ht3]; subst; [exact Hbad|].
    destruct H2 as [<-|(H2a & H2b & _)].
    2:{ rewrite !is_cont_ascii by assumption. rewrite !andb_false_r.
        exact Hbad. }
    destruct (utf8.accepts a a1 && utf8.is_cont a2); [|exact Hbad].
    constructor; [reflexivity|]. apply IHt; [cbn [length]; lia|assumption].
  - inversion Ht as [|a1 b1 t2 t2' H1 Ht2]; subst; [exact Hbad|].
    destruct H1 as [<-|(H1a & H1b & _)].
    2:{ rewrite !accepts_ascii by assumption. cbn [andb].
        destruct t2 as [|? [|? ?]], t2' as [|? [|? ?]]; exact Hbad. }
    inversion Ht2 as [|a2 b2 t3 t3' H2 Ht3]; subst; [exact Hbad|].
    destruct H2 as [<-|(H2a & H2b & _)].
    2:{ rewrite !is_cont_ascii by assumption. rewrite !andb_false_r.
        cbn [andb]. destruct t3, t3'; exact Hbad. }
    inversion Ht3 as [|a3 b3 t4 t4' H3 Ht4]; subst; [exact Hbad|].
    destruct H3 as [<-|(H3a & H3b & _)].
    2:{ rewrite (is_cont_ascii a3), (is_cont_ascii b3) by assumption.
        rewrite !andb_false_r. exact Hbad. }
    destruct (utf8.accepts a a1 && utf8.is_cont a2 && utf8.is_cont a3);
      [|exact Hbad].
    constructor; [reflexivity|]. apply IHt; [cbn [length]; lia|assumption].
Qed.

Lemma lower_bytes_related (s : string) :
  Forall2 (fun a b =>
             a = b \/
             (a < 0x80 /\ b < 0x80 /\
              unicode.ToLower a = unicode.ToLower b)%Z)
    (strings.bytes (strings.lower_bytes s)) (strings.bytes s).
Proof.
  unfold strings.bytes.
  induction s as [|c s IH]; [constructor|].
  cbn [strings.lower_bytes list_ascii_of_string map].
  constructor; [|exact IH].
  destruct c as [[] [] [] [] [] [] [] []];
    first [left; reflexivity | right; repeat split; reflexivity].
Qed.

(** [ToLower] does not see whether an ASCII letter was a capital. *)
Lemma ToLower_lower_bytes (s : string) :
  strings.ToLower (strings.lower_bytes s) = strings.ToLower s.
Proof.
  unfold strings.ToLower. rewrite lower_bytes_ascii.
  destruct (strings.isASCII s); [apply lower_bytes_idempotent|].
  unfold strings.Map. do 2 f_equal.
  pose proof (runes_related _ _ _ (Nat.le_refl _) (lower_bytes_related s))
    as Hrel.
  induction Hrel as [|a b l l' Hab _ IH]; [reflexivity|].
  cbn [map]. rewrite Hab, IH. reflexivity.
Qed.

Lemma normalize_format_lower_bytes (raw : string) :
  normalize_format (strings.lower_bytes raw) = normalize_format raw.
Proof.
  destruct raw as [|c s]; [reflexivity|].
  unfold normalize_format.
  cbn [strings.lower_bytes String.eqb negb].
  change (String (strings.lower_byte c) (strings.lower_bytes s))
    with (strings.lower_bytes (String c s)).
  rewrite lower_bytes_TrimPrefix_dot, ToLower_lower_bytes. reflexivity.
Qed.

Lemma normalize_format_ToLower (raw : string) :
  strings.isASCII raw = true ->
  normalize_format (strings.ToLower raw) = normalize_format raw.
Proof.
  intros Hascii. rewrite (ToLower_ascii _ Hascii).
  apply normalize_format_lower_bytes.
Qed.

Lemma normalize_format_dot (raw : string) :
  strings.HasPrefix raw "." = false ->
  normalize_format ("." ++ raw) = normalize_format raw.
Proof.
  intros Hdot. unfold normalize_format.
  change ("." ++ raw) with (String "." raw).
  change (String.eqb (String "." raw) "") with false.
  rewrite TrimPrefix_dot, Ascii.eqb_refl. cbv zeta. cbn [negb].
  destruct raw as [|c s]; [reflexivity|].
  change (String.eqb (String c s) "") with false. cbn [negb].
  unfold strings.TrimPrefix. rewrite Hdot. reflexivity.
Qed.

(** The run does not depend on how the format is spelled: the ASCII
    capital letters of a format can be written small, which for a format
    of ASCII bytes is what [ToLower] does, and one dot can be put in
    front of a format that has none. *)
Theorem format_spelling_is_free (fl : flag.Flags) (env : MainEnv) :
  main (with_format fl (strings.lower_bytes (flag.format fl))) env
  = main fl env /\
  (strings.isASCII (flag.format fl) = true ->
   strings.ToLower (flag.format fl) = strings.lower_bytes (flag.format fl) /\
   main (with_format fl (strings.ToLower (flag.format fl))) env
   = main fl env) /\
  (strings.HasPrefix (flag.format fl) "." = false ->
   main (with_format fl ("." ++ flag.format fl)) env = main fl env).
Proof.
  split; [|split; [intros Hascii; split; [apply ToLower_ascii, Hascii|]
                  |intros Hdot]];
    unfold main, with_format;
    cbn [flag.input flag.format flag.prefix flag.output flag.workers
         flag.listOnly flag.dryRun flag.keepName].
  - rewrite normalize_format_lower_bytes. reflexivity.
  - rewrite (normalize_format_ToLower _ Hascii). reflexivity.
  - rewrite (normalize_format_dot _ Hdot). reflexivity.
Qed.

Lemma format_spelling_is_free_witness :
  main (with_format convert_jpeg "heİc") (env_on disk_taken)
  = main (with_format convert_jpeg "HEİC") (env_on disk_taken) /\
  main (with_format (with_format convert_jpeg "PNG") ".PNG")
    (env_on disk_taken)
  = main (with_format convert_jpeg "PNG") (env_on disk_taken).
Proof.
  split.
  - exact (proj1 (format_spelling_is_free (with_format convert_jpeg "HEİC")
                    (env_on disk_taken))).
  - apply (proj2 (proj2 (format_spelling_is_free
                           (with_format convert_jpeg "PNG")
                           (env_on disk_taken)))).
    reflexivity.
Defined.

(** ** The output directory *)

Lemma MkdirAll_go_makes (fuel : nat) (fs0 fs1 : os.filesystem)
    (path : string) :
  MkdirAll_go fuel fs0 path = (fs1, None) ->
  exists n, fs1 !! path = Some n /\ IsDir n = true.
Proof.
  destruct fuel as [|fuel]; cbn [MkdirAll_go];
    destruct (fs0 !! path) as [n|] eqn:Hpath.
  - destruct (IsDir n) eqn:Hdir; [|discriminate].
    intros [= <-]. eauto.
  - intros [= <-]. exists Directory. rewrite lookup_insert_eq. auto.
  - destruct (IsDir n) eqn:Hdir; [|discriminate].
    intros [= <-]. eauto.
  - destruct (if String.eqb (parent_of path) "" then (fs0, None)
              else MkdirAll_go fuel fs0 (parent_of path)) as [fs2 [e|]];
      [discriminate|].
    intros [= <-]. exists Directory. rewrite lookup_insert_eq. auto.
Qed.

Lemma MkdirAll_makes (fault : option string) (fs0 fs1 : os.filesystem)
    (path : string) :
  MkdirAll fault fs0 path = (fs1, None) ->
  exists n, fs1 !! path = Some n /\ IsDir n = true.
Proof.
  unfold MkdirAll. destruct fault; [discriminate|]. apply MkdirAll_go_makes.
Qed.

Lemma MkdirAll_on_a_file (fault : option string) (fs0 : os.filesystem)
    (path : string) (n : node) :
  fs0 !! path = Some n -> IsDir n = false ->
  exists e, MkdirAll fault fs0 path = (fs0, Some e).
Proof.
  intros Hpath Hdir. unfold MkdirAll. destruct fault; [eauto|].
  destruct (String.length path); cbn [MkdirAll_go];
    rewrite Hpath, Hdir; eauto.
Qed.

(** A run that gets past the format check and returns, dry or not, leaves
    the output directory in place; and when a file that is not a
    directory stands where the output directory should be, the run is
    fatal and the filesystem is as it was. *)
Theorem output_directory_is_made (fl : flag.Flags) (env : MainEnv) :
  reaches_check fl env ->
  (ending (main fl env) = Returned ->
   exists n, final (main fl env) !! chosen_outDir fl = Some n /\
             IsDir n = true) /\
  (forall n, disk env !! chosen_outDir fl = Some n -> IsDir n = false ->
     exists msg, ending (main fl env) = Fatal msg /\
                 final (main fl env) = disk env).
Proof.
  intros Hreach. rewrite (main_at_check fl env Hreach). cbv zeta.
  destruct (Z.eqb_spec
              (int_at (scanDirectory (walk env (flag.input fl))).1.2
                 (normalize_format (flag.format fl))) 0) as [|_].
  { split; [discriminate|]. intros n _ _. eexists. split; reflexivity. }
  split.
  - destruct (MkdirAll _ _ _) as [fs1 [e|]] eqn:Hmk; [discriminate|].
    apply MkdirAll_makes in Hmk. destruct Hmk as (n & Hn & Hdir).
    destruct (flag.dryRun fl); cbn [ending final].
    + intros _. eauto.
    + destruct (LookPath_avifenc env); [discriminate|].
      cbn [ending final]. intros _. exists n. split; [|assumption].
      match goal with
      | |- shared (run_pool ?o ?pr ?k ?s _ 0 (start_pool ?jobs ?st ?d)) !! _
           = _ =>
          destruct (start_pool_done o pr k d
                      (map (fun j : JobEnv * FileInfo => Path j.2) jobs)
                      s jobs st d (kept_refl d)
                      (start_workers_nonempty _) eq_refl)
            as (_ & _ & Hk & _)
      end.
      apply Hk. assumption.
  - intros n Hn Hdir.
    destruct (MkdirAll_on_a_file (MkdirAll_fault env) (disk env)
                (chosen_outDir fl) n Hn Hdir) as [e ->].
    eexists. split; reflexivity.
Qed.

Lemma output_directory_is_made_witness :
  exists n, final (main dry_run_png (env_on disk_no_out))
              !! chosen_outDir dry_run_png = Some n /\ IsDir n = true.
Proof.
  apply (output_directory_is_made dry_run_png (env_on disk_no_out)).
  - apply sample_reaches_check; try reflexivity. discriminate.
  - vm_compute. reflexivity.
Defined.
